(** * video-splitter: the React front end, embedded in Rocq

    The TypeScript sources (hooks/useVideoSplit.ts, hooks/usePreviewSource.ts,
    App.tsx, components/TimeRangeEditor.tsx, components/VideoPlayer.tsx,
    components/RangeSelector.tsx) are embedded shallowly:

    - a JavaScript [number] that holds a finite value is a rational [Q];
      where an expression can produce [NaN] or an infinity the type
      [Num.number] adds them.  The comparisons, [Math.max], [Math.min],
      [Math.floor] and [%] of the code are exact on doubles, and the
      quotients that go into [Math.floor] are taken exactly; where the
      code computes a number from a string or adds and multiplies numbers
      taken from one ([Number], [parseInt], the sum of parseTimeToSeconds,
      the duration input) the result is rounded to the nearest double by
      [Num.round];
    - a [useState] cell is a field of a record, a handler is a function from
      the record to the record (plus the value it returns);
    - a promise returned by [invoke] is split into the synchronous prefix of
      the caller and the continuation run when the promise settles. *)

From Stdlib Require Import ZArith QArith Qround Qminmax Qabs Qpower Lqa Lia.
From Stdlib Require Import List Bool String Ascii Sorted.
From Stdlib Require Import Decimal DecimalString DecimalN.
Import ListNotations.

Local Open Scope Q_scope.

(** ** JavaScript numeric helpers *)

Module JS.

(** [Math.max] and [Math.min] on finite numbers. *)
Definition Math_max (a b : Q) : Q := Qmax a b.
Definition Math_min (a b : Q) : Q := Qmin a b.

(** [Math.floor] and [Math.ceil]; the result is an integer. *)
Definition Math_floor (x : Q) : Z := Qfloor x.
Definition Math_ceil (x : Q) : Z := Qceiling x.

(** Truncation toward zero, used by the remainder operator. *)
Definition trunc (x : Q) : Z :=
  if Qle_bool 0 x then Qfloor x else Qceiling x.

(** [x % m] for a divisor that is not zero: the remainder has the sign of
    the dividend. *)
Definition rem (x m : Q) : Q := x - m * inject_Z (trunc (x / m)).

(** Truthiness of a finite number: everything but zero. *)
Definition truthy (x : Q) : bool := negb (Qeq_bool x 0).

End JS.

(** ** Preview window: clampTime and computeWindowStart
    (TimeRangeEditor.tsx and VideoPlayer.tsx carry the same two functions;
    they differ only in where [timelineDuration] comes from). *)

Module Window.

Definition HLS_MIN_SIZE : Z := 200 * 1024 * 1024.
Definition HLS_SEGMENT_SECONDS : Q := 2.
Definition HLS_WINDOW_SECONDS : Q := 10 * 60.
Definition HLS_WINDOW_PADDING : Q := 0.

Section WithDuration.
Variable timelineDuration : Q.

Definition clampTime (time : Q) : Q :=
  if Qlt_le_dec 0 timelineDuration
  then JS.Math_min (JS.Math_max time 0) timelineDuration
  else JS.Math_max time 0.

Definition computeWindowStart (time : Q) : Q :=
  let padding := JS.Math_min HLS_WINDOW_PADDING (HLS_WINDOW_SECONDS / 2) in
  let maxStart :=
    if Qlt_le_dec 0 timelineDuration
    then JS.Math_max 0 (timelineDuration - HLS_WINDOW_SECONDS)
    else JS.Math_max 0 (time - padding) in
  let rawStart := JS.Math_min (JS.Math_max (time - padding) 0) maxStart in
  inject_Z (JS.Math_floor (rawStart / HLS_SEGMENT_SECONDS)) * HLS_SEGMENT_SECONDS.
End WithDuration.

End Window.

(** ** JavaScript numbers that may be NaN or infinite *)

Module Num.

(** A number as an expression can produce it: the zero is unsigned. *)
Inductive number : Type :=
| NaN
| PInf
| NInf
| Fin (q : Q).

(** *** Rounding to the nearest double

    A double has 53 significant bits and a least exponent of -1074; a
    real is rounded to the nearest one, ties to the even significand, and
    to an infinity from 2^1024 on. *)

(** For [0 < a]: the [e] with [2^e <= a < 2^(e+1)]. *)
Definition ilog2 (a : Q) : Z :=
  let e0 := (Z.log2 (Qnum a) - Z.log2 (Zpos (Qden a)))%Z in
  if Qle_bool (Qpower 2 e0) a then e0 else (e0 - 1)%Z.

(** The nearest integer, ties to even. *)
Definition roundEven (x : Q) : Z :=
  let f := Qfloor x in
  let r := x - inject_Z f in
  if negb (Qle_bool (1 # 2) r) then f
  else if negb (Qle_bool r (1 # 2)) then (f + 1)%Z
  else if Z.even f then f else (f + 1)%Z.

(** For [0 < a]: the nearest multiple of the unit in the last place. *)
Definition roundMagnitude (a : Q) : Q :=
  let p := Z.max (ilog2 a - 52) (-1074) in
  inject_Z (roundEven (a / Qpower 2 p)) * Qpower 2 p.

Definition round (q : Q) : number :=
  if Qeq_bool q 0 then Fin 0
  else
    let m := roundMagnitude (Qabs q) in
    if Qle_bool (Qpower 2 1024) m then (if Qle_bool 0 q then PInf else NInf)
    else Fin (if Qle_bool 0 q then m else - m).

(** [a / b] on finite operands. *)
Definition div (a b : Q) : number :=
  if Qeq_bool b 0 then
    if Qeq_bool a 0 then NaN
    else if Qle_bool 0 a then PInf else NInf
  else Fin (a / b).

(** [Math.ceil]. *)
Definition ceil (x : number) : number :=
  match x with
  | Fin q => Fin (inject_Z (JS.Math_ceil q))
  | other => other
  end.

(** Strict equality [===] of two numbers. *)
Definition eqb (x y : number) : bool :=
  match x, y with
  | Fin a, Fin b => Qeq_bool a b
  | PInf, PInf | NInf, NInf => true
  | _, _ => false
  end.

Definition isNaN (x : number) : bool :=
  match x with NaN => true | _ => false end.

(** [x < 0]. *)
Definition negative (x : number) : bool :=
  match x with
  | NInf => true
  | Fin q => negb (Qle_bool 0 q)
  | _ => false
  end.

Definition sign_pos (q : Q) : bool := negb (Qle_bool q 0).

(** [x * y] and [x + y], rounded. *)
Definition mul (x y : number) : number :=
  match x, y with
  | NaN, _ | _, NaN => NaN
  | Fin a, Fin b => round (a * b)
  | Fin a, PInf | PInf, Fin a =>
      if Qeq_bool a 0 then NaN else if sign_pos a then PInf else NInf
  | Fin a, NInf | NInf, Fin a =>
      if Qeq_bool a 0 then NaN else if sign_pos a then NInf else PInf
  | PInf, PInf | NInf, NInf => PInf
  | PInf, NInf | NInf, PInf => NInf
  end.

Definition add (x y : number) : number :=
  match x, y with
  | NaN, _ | _, NaN => NaN
  | Fin a, Fin b => round (a + b)
  | PInf, NInf | NInf, PInf => NaN
  | PInf, _ | _, PInf => PInf
  | NInf, _ | _, NInf => NInf
  end.

Definition of_Z (z : Z) : number := Fin (inject_Z z).

(** Truthiness: everything but NaN and zero. *)
Definition truthy (x : number) : bool :=
  match x with
  | NaN => false
  | Fin q => negb (Qeq_bool q 0)
  | _ => true
  end.

(** [Math.max(x, y)]. *)
Definition max (x y : number) : number :=
  match x, y with
  | NaN, _ | _, NaN => NaN
  | PInf, _ | _, PInf => PInf
  | NInf, other | other, NInf => other
  | Fin a, Fin b => Fin (Qmax a b)
  end.

End Num.

(** ** JavaScript strings
    A string is a sequence of bytes; the functions below are exact on ASCII
    text (time stamps are ASCII).  White space is the ASCII white space. *)

Module Str.
Local Open Scope string_scope.

Definition isWhite (c : ascii) : bool :=
  let n := nat_of_ascii c in
  (Nat.leb 9 n && Nat.leb n 13) || Nat.eqb n 32.

Fixpoint trimStart (s : string) : string :=
  match s with
  | String c rest => if isWhite c then trimStart rest else s
  | EmptyString => EmptyString
  end.

Fixpoint rev (s : string) : string :=
  match s with
  | String c rest => rev rest ++ String c EmptyString
  | EmptyString => EmptyString
  end.

Definition trimEnd (s : string) : string := rev (trimStart (rev s)).

(** [s.trim()]. *)
Definition trim (s : string) : string := trimEnd (trimStart s).

(** [s.split(sep)] for a one-character separator: never an empty list. *)
Fixpoint split (sep : ascii) (s : string) : list string :=
  match s with
  | EmptyString => [EmptyString]
  | String c rest =>
      let parts := split sep rest in
      if Ascii.eqb c sep then EmptyString :: parts
      else match parts with
           | p :: ps => String c p :: ps
           | [] => [String c EmptyString]
           end
  end.

Fixpoint repeat (c : ascii) (n : nat) : string :=
  match n with
  | O => EmptyString
  | S k => String c (repeat c k)
  end.

(** [s.padStart(n, c)] for a one-character filler. *)
Definition padStart (n : nat) (c : ascii) (s : string) : string :=
  repeat c (n - String.length s) ++ s.

(** The decimal digits of a natural number. *)
Definition digits (n : N) : string :=
  DecimalString.NilEmpty.string_of_uint (N.to_uint n).

(** [n.toString()] of an integer. *)
Definition toString (z : Z) : string :=
  if Z.ltb z 0 then String "-" (digits (Z.to_N (- z))) else digits (Z.to_N z).

(** *** [Number(s)]: StringNumericLiteral *)

Definition isDigit (c : ascii) : bool :=
  let n := nat_of_ascii c in Nat.leb 48 n && Nat.leb n 57.

(** The longest prefix of decimal digits, and the rest. *)
Fixpoint spanDigits (s : string) : string * string :=
  match s with
  | String c rest =>
      if isDigit c then let (d, r) := spanDigits rest in (String c d, r)
      else (EmptyString, s)
  | EmptyString => (EmptyString, EmptyString)
  end.

(** The value of a string of decimal digits (0 for the empty string). *)
Definition digitsValue (s : string) : N :=
  match DecimalString.NilEmpty.uint_of_string s with
  | Some u => N.of_uint u
  | None => 0
  end.

(** ExponentPart, or nothing: the power of ten. *)
Definition exponent (s : string) : option Z :=
  match s with
  | EmptyString => Some 0%Z
  | String c rest =>
      if Ascii.eqb c "e" || Ascii.eqb c "E" then
        let '(neg, body) :=
          match rest with
          | String "-" r => (true, r)
          | String "+" r => (false, r)
          | _ => (false, rest)
          end in
        match spanDigits body with
        | (String d ds, EmptyString) =>
            let v := Z.of_N (digitsValue (String d ds)) in
            Some (if neg then (- v)%Z else v)
        | _ => None
        end
      else None
  end.

(** StrUnsignedDecimalLiteral without Infinity:
    digits [. digits] [exponent], or . digits [exponent]. *)
Definition unsignedDecimal (s : string) : option Q :=
  let (ip, r1) := spanDigits s in
  let (fp, r2) :=
    match r1 with
    | String "." r => spanDigits r
    | _ => (EmptyString, r1)
    end in
  if (String.eqb ip EmptyString && String.eqb fp EmptyString)%bool then None
  else
    match exponent r2 with
    | Some e =>
        Some ((inject_Z (Z.of_N (digitsValue ip))
               + inject_Z (Z.of_N (digitsValue fp))
                 / inject_Z (10 ^ Z.of_nat (String.length fp)))
              * Qpower 10 e)%Q
    | None => None
    end.

Definition digitOf (c : ascii) : option N :=
  let n := N_of_ascii c in
  if (N.leb 48 n && N.leb n 57)%bool then Some (n - 48)%N
  else if (N.leb 97 n && N.leb n 102)%bool then Some (n - 87)%N
  else if (N.leb 65 n && N.leb n 70)%bool then Some (n - 55)%N
  else None.

Fixpoint radixValue (radix : N) (s : string) (acc : N) : option N :=
  match s with
  | EmptyString => Some acc
  | String c rest =>
      match digitOf c with
      | Some v => if N.ltb v radix then radixValue radix rest (acc * radix + v)%N
                  else None
      | None => None
      end
  end.

(** NonDecimalIntegerLiteral: 0x, 0o and 0b with at least one digit. *)
Definition nonDecimal (s : string) : option N :=
  match s with
  | String "0" (String p (String c rest)) =>
      let body := String c rest in
      if Ascii.eqb p "x" || Ascii.eqb p "X" then radixValue 16 body 0
      else if Ascii.eqb p "o" || Ascii.eqb p "O" then radixValue 8 body 0
      else if Ascii.eqb p "b" || Ascii.eqb p "B" then radixValue 2 body 0
      else None
  | _ => None
  end.

(** [Number(s)]: the value of the literal, rounded to the nearest double. *)
Definition Number (s : string) : Num.number :=
  let t := trim s in
  if String.eqb t EmptyString then Num.Fin 0
  else
    let '(neg, body) :=
      match t with
      | String "-" r => (true, r)
      | String "+" r => (false, r)
      | _ => (false, t)
      end in
    match unsignedDecimal body with
    | Some q => Num.round (if neg then - q else q)%Q
    | None =>
        if String.eqb body "Infinity" then (if neg then Num.NInf else Num.PInf)
        else match nonDecimal t with
             | Some v => Num.round (inject_Z (Z.of_N v))
             | None => Num.NaN
             end
    end.

End Str.

(** ** hooks/useVideoSplit.ts *)

Module Hook.

Record VideoInfo : Type := {
  path : string;
  duration : Q;
  duration_formatted : string;
  filename : string
}.

Record SplitProgress : Type := {
  current_segment : Num.number;
  total_segments : Num.number;
  percentage : Num.number;
  current_file : string
}.

Record SplitResult : Type := {
  success : bool;
  output_files : list string;
  result_error : option string
}.

Record TimeRange : Type := {
  id : string;
  startTime : Q;
  endTime : Q
}.

(** One element of the [ranges] argument of split_video_by_ranges_command. *)
Record RangePayload : Type := {
  start_seconds : Q;
  end_seconds : Q
}.

(** The calls [invoke] sends to the host. *)
Inductive Command : Type :=
| get_video_info (path : string)
| split_video_command (inputPath outputDir : string) (segmentDuration : Q)
| split_video_by_ranges_command
    (inputPath outputDir : string) (ranges : list RangePayload).

(** The six [useState] cells of the hook. *)
Record State : Type := {
  videoInfo : option VideoInfo;
  isLoading : bool;
  isProcessing : bool;
  progress : option SplitProgress;
  result : option SplitResult;
  error : option string
}.

Definition initial : State :=
  {| videoInfo := None; isLoading := false; isProcessing := false;
     progress := None; result := None; error := None |}.

Definition setVideoInfo v (s : State) : State :=
  {| videoInfo := v; isLoading := isLoading s; isProcessing := isProcessing s;
     progress := progress s; result := result s; error := error s |}.
Definition setIsLoading b (s : State) : State :=
  {| videoInfo := videoInfo s; isLoading := b; isProcessing := isProcessing s;
     progress := progress s; result := result s; error := error s |}.
Definition setIsProcessing b (s : State) : State :=
  {| videoInfo := videoInfo s; isLoading := isLoading s; isProcessing := b;
     progress := progress s; result := result s; error := error s |}.
Definition setProgress p (s : State) : State :=
  {| videoInfo := videoInfo s; isLoading := isLoading s; isProcessing := isProcessing s;
     progress := p; result := result s; error := error s |}.
Definition setResult r (s : State) : State :=
  {| videoInfo := videoInfo s; isLoading := isLoading s; isProcessing := isProcessing s;
     progress := progress s; result := r; error := error s |}.
Definition setError e (s : State) : State :=
  {| videoInfo := videoInfo s; isLoading := isLoading s; isProcessing := isProcessing s;
     progress := progress s; result := result s; error := e |}.

(** How an awaited [invoke] ends: resolved with a value or rejected with
    the thrown message ([err as string]). *)
Inductive Settled (A : Type) : Type :=
| Resolved (value : A)
| Rejected (err : string).
Arguments Resolved {A} value.
Arguments Rejected {A} err.

(** The listener on 'split-progress'. *)
Definition onProgress (payload : SplitProgress) (s : State) : State :=
  setProgress (Some payload) s.

(** loadVideoInfo, up to the await and after it. *)
Definition loadVideoInfo_begin (p : string) (s : State) : State * Command :=
  (setProgress None (setResult None (setError None (setIsLoading true s))),
   get_video_info p).

Definition loadVideoInfo_settle (o : Settled VideoInfo) (s : State) : State :=
  let s1 := match o with
            | Resolved info => setVideoInfo (Some info) s
            | Rejected err => setVideoInfo None (setError (Some err) s)
            end in
  setIsLoading false s1.

(** The argument of [Math.ceil] in splitVideo's first setProgress:
    [videoInfo?.duration || 0 / segmentDuration].  Division binds tighter
    than [||], so the right operand is [0 / segmentDuration] and the left
    operand, when truthy, is the whole value. *)
Definition initialTotalOperand (vi : option VideoInfo) (segmentDuration : Q)
  : Num.number :=
  let rhs := Num.div 0 segmentDuration in
  match vi with
  | Some info => if JS.truthy (duration info) then Num.Fin (duration info) else rhs
  | None => rhs
  end.

(** The placeholder file name shown before the first progress event. *)
Definition preparing : string := "准备中...".

(** splitVideo, up to the await: the four state updates and the call. *)
Definition splitVideo_begin (inputPath outputDir : string) (segmentDuration : Q)
    (s : State) : State * Command :=
  let s1 := setIsProcessing true s in
  let s2 := setError None s1 in
  let s3 := setResult None s2 in
  let s4 := setProgress
              (Some {| current_segment := Num.of_Z 0;
                       total_segments :=
                         Num.ceil (initialTotalOperand (videoInfo s) segmentDuration);
                       percentage := Num.of_Z 0;
                       current_file := preparing |}) s3 in
  (s4, split_video_command inputPath outputDir segmentDuration).

Definition rangesPayload (ranges : list TimeRange) : list RangePayload :=
  map (fun r => {| start_seconds := startTime r; end_seconds := endTime r |}) ranges.

(** splitVideoByRanges, up to the await. *)
Definition splitVideoByRanges_begin (inputPath outputDir : string)
    (ranges : list TimeRange) (s : State) : State * Command :=
  let s1 := setIsProcessing true s in
  let s2 := setError None s1 in
  let s3 := setResult None s2 in
  let s4 := setProgress
              (Some {| current_segment := Num.of_Z 0;
                       total_segments := Num.of_Z (Z.of_nat (List.length ranges));
                       percentage := Num.of_Z 0;
                       current_file := preparing |}) s3 in
  (s4, split_video_by_ranges_command inputPath outputDir (rangesPayload ranges)).

(** The try/catch/finally after the await, shared by both split functions. *)
Definition split_settle (o : Settled SplitResult) (s : State) : State :=
  let s1 := match o with
            | Resolved splitResult => setResult (Some splitResult) s
            | Rejected err => setError (Some err) s
            end in
  setIsProcessing false s1.

Definition reset (s : State) : State :=
  setError None (setResult None (setProgress None (setVideoInfo None s))).

End Hook.

(** ** App.tsx *)

Module App.
Import Hook.

Inductive SplitMode : Type := interval | ranges.

(** The second argument of handleUpdateRange, a [Partial<TimeRange>]. *)
Record PartialTimeRange : Type := {
  p_id : option string;
  p_startTime : option Q;
  p_endTime : option Q
}.

(** [{ ...r, ...newRange }]. *)
Definition spread (r : TimeRange) (n : PartialTimeRange) : TimeRange :=
  {| id := match p_id n with Some i => i | None => id r end;
     startTime := match p_startTime n with Some t => t | None => startTime r end;
     endTime := match p_endTime n with Some t => t | None => endTime r end |}.

(** The [useState] cells of the component, the hook's cells, and the split
    calls that were sent and have not settled yet (the last is bookkeeping
    of the embedding: the program has no such variable). *)
Record State : Type := {
  selectedFile : option string;
  segmentDuration : Q;
  outputDir : string;
  splitMode : SplitMode;
  timeRanges : list TimeRange;
  hook : Hook.State;
  inFlight : list Command
}.

Definition initial : State :=
  {| selectedFile := None; segmentDuration := 300; outputDir := EmptyString;
     splitMode := ranges; timeRanges := []; hook := Hook.initial;
     inFlight := [] |}.

Definition withHook (h : Hook.State) (s : State) : State :=
  {| selectedFile := selectedFile s; segmentDuration := segmentDuration s;
     outputDir := outputDir s; splitMode := splitMode s;
     timeRanges := timeRanges s; hook := h; inFlight := inFlight s |}.
Definition withInFlight (l : list Command) (s : State) : State :=
  {| selectedFile := selectedFile s; segmentDuration := segmentDuration s;
     outputDir := outputDir s; splitMode := splitMode s;
     timeRanges := timeRanges s; hook := hook s; inFlight := l |}.
Definition setTimeRanges (l : list TimeRange) (s : State) : State :=
  {| selectedFile := selectedFile s; segmentDuration := segmentDuration s;
     outputDir := outputDir s; splitMode := splitMode s;
     timeRanges := l; hook := hook s; inFlight := inFlight s |}.
Definition setSelectedFile (f : option string) (s : State) : State :=
  {| selectedFile := f; segmentDuration := segmentDuration s;
     outputDir := outputDir s; splitMode := splitMode s;
     timeRanges := timeRanges s; hook := hook s; inFlight := inFlight s |}.
Definition setSegmentDuration (q : Q) (s : State) : State :=
  {| selectedFile := selectedFile s; segmentDuration := q;
     outputDir := outputDir s; splitMode := splitMode s;
     timeRanges := timeRanges s; hook := hook s; inFlight := inFlight s |}.
Definition setOutputDir (d : string) (s : State) : State :=
  {| selectedFile := selectedFile s; segmentDuration := segmentDuration s;
     outputDir := d; splitMode := splitMode s;
     timeRanges := timeRanges s; hook := hook s; inFlight := inFlight s |}.
Definition setSplitMode (m : SplitMode) (s : State) : State :=
  {| selectedFile := selectedFile s; segmentDuration := segmentDuration s;
     outputDir := outputDir s; splitMode := m;
     timeRanges := timeRanges s; hook := hook s; inFlight := inFlight s |}.

(** Truthiness of a string and of a [string | null]. *)
Definition truthy (s : string) : bool := negb (String.eqb s EmptyString).
Definition truthy_opt (s : option string) : bool :=
  match s with Some v => truthy v | None => false end.

Definition handleAddRange (r : TimeRange) (s : State) : State :=
  setTimeRanges (timeRanges s ++ [r]) s.

Definition handleUpdateRange (i : string) (n : PartialTimeRange) (s : State) : State :=
  setTimeRanges
    (map (fun r => if String.eqb (id r) i then spread r n else r) (timeRanges s)) s.

Definition handleDeleteRange (i : string) (s : State) : State :=
  setTimeRanges (filter (fun r => negb (String.eqb (id r) i)) (timeRanges s)) s.

Definition handleSetRanges (l : list TimeRange) (s : State) : State :=
  setTimeRanges l s.

(** handleFileSelect up to the await inside loadVideoInfo. *)
Definition handleFileSelect (p : string) (s : State) : State :=
  let s1 := setTimeRanges [] (setSelectedFile (Some p) s) in
  withHook (fst (loadVideoInfo_begin p (hook s1))) s1.

(** handleSplit up to the await inside the split function it calls. *)
Definition handleSplit (s : State) : State :=
  match selectedFile s with
  | Some file =>
      if negb (truthy file) || negb (truthy (outputDir s)) then s
      else
        let '(h, cmd) :=
          match splitMode s with
          | interval =>
              splitVideo_begin file (outputDir s) (segmentDuration s) (hook s)
          | ranges =>
              splitVideoByRanges_begin file (outputDir s) (timeRanges s) (hook s)
          end in
        withInFlight (inFlight s ++ [cmd]) (withHook h s)
  | None => s
  end.

(** [canSplit]; the split button carries [disabled={!canSplit}]. *)
Definition canSplit (s : State) : bool :=
  truthy_opt (selectedFile s) && truthy (outputDir s) &&
  (match videoInfo (hook s) with Some _ => true | None => false end) &&
  negb (isProcessing (hook s)) && negb (isLoading (hook s)) &&
  (match splitMode s with
   | interval => negb (Qle_bool (segmentDuration s) 0)
   | ranges => Nat.ltb 0 (List.length (timeRanges s))
   end).

(** The segment count the page predicts:
    [Math.ceil(videoInfo.duration / segmentDuration)]. *)
Definition predictedSegments (info : VideoInfo) (segDuration : Q) : Num.number :=
  Num.ceil (Num.div (duration info) segDuration).

(** [{error && (<p>❌ 错误: {error}</p>)}]: the text of the error panel, if
    the panel is rendered. *)
Definition errorPanel (h : Hook.State) : option string :=
  match error h with
  | Some e => if truthy e then Some ("❌ 错误: " ++ e)%string else None
  | None => None
  end.

(** [{result?.success && (<ResultList files={result.output_files} />)}]. *)
Definition resultList (h : Hook.State) : option (list string) :=
  match result h with
  | Some r => if success r then Some (output_files r) else None
  | None => None
  end.

(** What can happen to the page.  A control that is disabled in a state
    does not fire there: [step] is [None].  The file drop zone, the duration
    input, the mode selector, the output selector and the range buttons of
    the editor are disabled while isProcessing holds; the import buttons of
    the batch dialog (SetRanges) are not. *)
Inductive Event : Type :=
| ClickSplit
| SplitSettled (o : Settled SplitResult)
| FileSelect (p : string)
| VideoInfoSettled (o : Settled VideoInfo)
| ProgressEvent (p : SplitProgress)
| ChangeSegmentDuration (q : Q)
| ChangeOutputDir (d : string)
| ChangeSplitMode (m : SplitMode)
| AddRange (r : TimeRange)
| UpdateRange (i : string) (n : PartialTimeRange)
| DeleteRange (i : string)
| SetRanges (l : list TimeRange).

Definition unlessProcessing (s : State) (next : State) : option State :=
  if isProcessing (hook s) then None else Some next.

Definition step (s : State) (e : Event) : option State :=
  match e with
  | ClickSplit => if canSplit s then Some (handleSplit s) else None
  | SplitSettled o =>
      match inFlight s with
      | [] => None
      | _ :: rest => Some (withInFlight rest (withHook (split_settle o (hook s)) s))
      end
  | FileSelect p => unlessProcessing s (handleFileSelect p s)
  | VideoInfoSettled o => Some (withHook (loadVideoInfo_settle o (hook s)) s)
  | ProgressEvent p => Some (withHook (onProgress p (hook s)) s)
  | ChangeSegmentDuration q => unlessProcessing s (setSegmentDuration q s)
  | ChangeOutputDir d => unlessProcessing s (setOutputDir d s)
  | ChangeSplitMode m => unlessProcessing s (setSplitMode m s)
  | AddRange r => unlessProcessing s (handleAddRange r s)
  | UpdateRange i n => unlessProcessing s (handleUpdateRange i n s)
  | DeleteRange i => unlessProcessing s (handleDeleteRange i s)
  | SetRanges l => Some (handleSetRanges l s)
  end.

Fixpoint run (s : State) (es : list Event) : option State :=
  match es with
  | [] => Some s
  | e :: rest =>
      match step s e with
      | Some s' => run s' rest
      | None => None
      end
  end.

Definition reachable (s : State) : Prop :=
  exists es, run initial es = Some s.

End App.

(** ** hooks/usePreviewSource.ts *)

Module Preview.
Import Hook.

Inductive PreviewSourceKind : Type := file | hls.

Record PreviewSource : Type := {
  kind : PreviewSourceKind;
  path : string
}.

(** What prepare_hls_source_command resolves with: the kind is whatever
    string the host sent. *)
Record HostSource : Type := {
  host_kind : string;
  host_path : string
}.

Record PreviewSourceOptions : Type := {
  minSizeBytes : option Q;
  segmentSeconds : option Q;
  startSeconds : option Q;
  windowSeconds : option Q;
  requestKey : option Q
}.

Definition DEFAULT_MIN_SIZE_BYTES : Q := 200 * 1024 * 1024.
Definition DEFAULT_SEGMENT_SECONDS : Q := 6.

(** [a ?? b]. *)
Definition orDefault (a : option Q) (b : Q) : Q :=
  match a with Some v => v | None => b end.

(** The dependency array of the effect:
    [filePath, minSizeBytes, segmentSeconds, startSeconds, windowSeconds, requestKey]. *)
Record Deps : Type := {
  d_filePath : string;
  d_minSizeBytes : Q;
  d_segmentSeconds : Q;
  d_startSeconds : Q;
  d_windowSeconds : Q;
  d_requestKey : Q
}.

Definition deps (filePath : string) (options : PreviewSourceOptions) : Deps :=
  {| d_filePath := filePath;
     d_minSizeBytes := orDefault (minSizeBytes options) DEFAULT_MIN_SIZE_BYTES;
     d_segmentSeconds := orDefault (segmentSeconds options) DEFAULT_SEGMENT_SECONDS;
     d_startSeconds := orDefault (startSeconds options) 0;
     d_windowSeconds := orDefault (windowSeconds options) 0;
     d_requestKey := orDefault (requestKey options) 0 |}.

(** The arguments of prepare_hls_source_command. *)
Record PrepareArgs : Type := {
  a_inputPath : string;
  a_minSizeBytes : Q;
  a_segmentSeconds : Q;
  a_startSeconds : Q;
  a_windowSeconds : Q
}.

Record State : Type := {
  source : option PreviewSource;
  isPreparing : bool;
  prepareError : option string
}.

Definition initial : State :=
  {| source := None; isPreparing := false; prepareError := None |}.

(** The body of the effect, up to the call: the state it sets and the
    call it sends, if any. *)
Definition runEffect (d : Deps) : State * option PrepareArgs :=
  if String.eqb (d_filePath d) EmptyString then
    ({| source := None; isPreparing := false; prepareError := None |}, None)
  else
    ({| source := None; isPreparing := true; prepareError := None |},
     Some {| a_inputPath := d_filePath d;
             a_minSizeBytes := d_minSizeBytes d;
             a_segmentSeconds := d_segmentSeconds d;
             a_startSeconds := d_startSeconds d;
             a_windowSeconds := d_windowSeconds d |}).

(** React runs the effect again after a render only if an entry of the
    dependency array differs from the one of the previous render. *)
Definition sameDeps (a b : Deps) : bool :=
  String.eqb (d_filePath a) (d_filePath b) &&
  Qeq_bool (d_minSizeBytes a) (d_minSizeBytes b) &&
  Qeq_bool (d_segmentSeconds a) (d_segmentSeconds b) &&
  Qeq_bool (d_startSeconds a) (d_startSeconds b) &&
  Qeq_bool (d_windowSeconds a) (d_windowSeconds b) &&
  Qeq_bool (d_requestKey a) (d_requestKey b).

Definition afterRender (prev cur : Deps) (s : State) : State * option PrepareArgs :=
  if sameDeps prev cur then (s, None) else runEffect cur.

(** The then/catch/finally chain of the call; [cancelled] is the flag the
    clean-up of the effect sets. *)
Definition settle (cancelled : bool) (o : Settled (option HostSource)) (s : State)
  : State :=
  if cancelled then s
  else
    let s1 :=
      match o with
      | Resolved (Some r) =>
          if String.eqb (host_path r) EmptyString then s
          else
            {| source := Some {| kind := if String.eqb (host_kind r) "hls"
                                         then hls else file;
                                 path := host_path r |};
               isPreparing := isPreparing s; prepareError := prepareError s |}
      | Resolved None => s
      | Rejected err =>
          {| source := source s; isPreparing := isPreparing s;
             prepareError := Some err |}
      end in
    {| source := source s1; isPreparing := false; prepareError := prepareError s1 |}.

End Preview.

(** ** components/TimeRangeEditor.tsx: playback and range editing
    VideoPlayer.tsx has the same seekToAbsolute, handleSeek and handleError
    over the same cells.  The later version of the editor, the one with the
    batch dialog, adds the cell hlsStartOffset to the media time it sets for
    a seek inside the window; it is 0 until the playlist reports another
    offset, and the deferred branch of seekToAbsolute is the same. *)

Module Editor.
Import Hook.

(** The media element behind [videoRef.current]. *)
Record VideoElement : Type := {
  v_currentTime : Q;
  v_error : option Z
}.

(** [MediaError] codes of the platform. *)
Definition MEDIA_ERR_ABORTED : Z := 1.
Definition MEDIA_ERR_NETWORK : Z := 2.
Definition MEDIA_ERR_DECODE : Z := 3.
Definition MEDIA_ERR_SRC_NOT_SUPPORTED : Z := 4.

(** The [useState] cells the handlers below read or write, and the media
    element (isPlaying, volume, autoPlayAfterSeek and isScrubbing are not
    touched by them). *)
Record State : Type := {
  currentTime : Q;
  pendingStart : option Q;
  editingRangeId : option string;
  isLoading : bool;
  error : option string;
  hlsError : option string;
  retryToken : Q;
  windowStart : Q;
  pendingSeek : option Q;
  queuedSeek : option Q;
  video : option VideoElement
}.

Definition initial : State :=
  {| currentTime := 0; pendingStart := None; editingRangeId := None;
     isLoading := true; error := None; hlsError := None; retryToken := 0;
     windowStart := 0;
     pendingSeek := None; queuedSeek := None; video := None |}.

Definition setCurrentTime t (s : State) : State :=
  {| currentTime := t; pendingStart := pendingStart s;
     editingRangeId := editingRangeId s; isLoading := isLoading s;
     error := error s; hlsError := hlsError s;
     retryToken := retryToken s; windowStart := windowStart s;
     pendingSeek := pendingSeek s; queuedSeek := queuedSeek s; video := video s |}.
Definition setPendingStart p (s : State) : State :=
  {| currentTime := currentTime s; pendingStart := p;
     editingRangeId := editingRangeId s; isLoading := isLoading s;
     error := error s; hlsError := hlsError s;
     retryToken := retryToken s; windowStart := windowStart s;
     pendingSeek := pendingSeek s; queuedSeek := queuedSeek s; video := video s |}.
Definition setEditingRangeId i (s : State) : State :=
  {| currentTime := currentTime s; pendingStart := pendingStart s;
     editingRangeId := i; isLoading := isLoading s;
     error := error s; hlsError := hlsError s;
     retryToken := retryToken s; windowStart := windowStart s;
     pendingSeek := pendingSeek s; queuedSeek := queuedSeek s; video := video s |}.
Definition setIsLoading b (s : State) : State :=
  {| currentTime := currentTime s; pendingStart := pendingStart s;
     editingRangeId := editingRangeId s; isLoading := b;
     error := error s; hlsError := hlsError s;
     retryToken := retryToken s; windowStart := windowStart s;
     pendingSeek := pendingSeek s; queuedSeek := queuedSeek s; video := video s |}.
Definition setError e (s : State) : State :=
  {| currentTime := currentTime s; pendingStart := pendingStart s;
     editingRangeId := editingRangeId s; isLoading := isLoading s;
     error := e; hlsError := hlsError s;
     retryToken := retryToken s; windowStart := windowStart s;
     pendingSeek := pendingSeek s; queuedSeek := queuedSeek s; video := video s |}.
Definition setWindowStart w (s : State) : State :=
  {| currentTime := currentTime s; pendingStart := pendingStart s;
     editingRangeId := editingRangeId s; isLoading := isLoading s;
     error := error s; hlsError := hlsError s;
     retryToken := retryToken s; windowStart := w;
     pendingSeek := pendingSeek s; queuedSeek := queuedSeek s; video := video s |}.
Definition setPendingSeek p (s : State) : State :=
  {| currentTime := currentTime s; pendingStart := pendingStart s;
     editingRangeId := editingRangeId s; isLoading := isLoading s;
     error := error s; hlsError := hlsError s;
     retryToken := retryToken s; windowStart := windowStart s;
     pendingSeek := p; queuedSeek := queuedSeek s; video := video s |}.
Definition setQueuedSeek p (s : State) : State :=
  {| currentTime := currentTime s; pendingStart := pendingStart s;
     editingRangeId := editingRangeId s; isLoading := isLoading s;
     error := error s; hlsError := hlsError s;
     retryToken := retryToken s; windowStart := windowStart s;
     pendingSeek := pendingSeek s; queuedSeek := p; video := video s |}.

(** [if (videoRef.current) videoRef.current.currentTime = t]. *)
Definition setVideoTime t (s : State) : State :=
  {| currentTime := currentTime s; pendingStart := pendingStart s;
     editingRangeId := editingRangeId s; isLoading := isLoading s;
     error := error s; hlsError := hlsError s;
     retryToken := retryToken s; windowStart := windowStart s;
     pendingSeek := pendingSeek s; queuedSeek := queuedSeek s;
     video := match video s with
              | Some v => Some {| v_currentTime := t; v_error := v_error v |}
              | None => None
              end |}.

(** The options the component passes to usePreviewSource, as the
    dependency array sees them. *)
Definition previewDeps (filePath : string) (s : State) : Preview.Deps :=
  Preview.deps filePath
    {| Preview.minSizeBytes := Some (inject_Z Window.HLS_MIN_SIZE);
       Preview.segmentSeconds := Some Window.HLS_SEGMENT_SECONDS;
       Preview.startSeconds := Some (windowStart s);
       Preview.windowSeconds := Some Window.HLS_WINDOW_SECONDS;
       Preview.requestKey := Some (retryToken s) |}.

Section WithProps.
(** The [duration] prop ([timelineDuration]) and the [source] the
    preview hook returned for this render. *)
Variable timelineDuration : Q.
Variable source : option Preview.PreviewSource.

Definition deferSeek (target : Q) (s : State) : State :=
  let nextStart := Window.computeWindowStart timelineDuration target in
  setIsLoading true
    (setCurrentTime target (setPendingSeek (Some target) (setWindowStart nextStart s))).

Definition seekToAbsolute (time : Q) (s : State) : State * bool :=
  let target := Window.clampTime timelineDuration time in
  match source with
  | None => (deferSeek target s, true)
  | Some src =>
      match Preview.kind src with
      | Preview.file => (setCurrentTime target (setVideoTime target s), false)
      | Preview.hls =>
          let windowEnd := windowStart s + Window.HLS_WINDOW_SECONDS in
          if Qle_bool (windowStart s) target && Qle_bool target windowEnd then
            (setCurrentTime target (setVideoTime (target - windowStart s) s), false)
          else (deferSeek target s, true)
      end
  end.

(** The slider's onChange. *)
Definition handleSeek (time : Q) (s : State) : State :=
  let s1 := setQueuedSeek (Some time) (setCurrentTime time s) in
  match video s1, source with
  | Some _, Some src =>
      match Preview.kind src with
      | Preview.file => setVideoTime time s1
      | Preview.hls =>
          let windowEnd := windowStart s1 + Window.HLS_WINDOW_SECONDS in
          if Qle_bool (windowStart s1) time && Qle_bool time windowEnd
          then setVideoTime (time - windowStart s1) s1
          else s1
      end
  | _, _ => s1
  end.
End WithProps.

(** The text of the error overlay, when it is rendered:
    [{(error || hlsError) && (<span>{error || hlsError}</span>)}]. *)
Definition overlayMessage (s : State) : option string :=
  match error s with
  | Some e => if App.truthy e then Some e
              else match hlsError s with
                   | Some h => if App.truthy h then Some h else None
                   | None => None
                   end
  | None => match hlsError s with
            | Some h => if App.truthy h then Some h else None
            | None => None
            end
  end.

(** The video element's onError. *)
Definition handleError (s : State) : State :=
  let errorMessage :=
    match video s with
    | Some v =>
        match v_error v with
        | Some code =>
            if Z.eqb code MEDIA_ERR_ABORTED then "视频加载被中断"
            else if Z.eqb code MEDIA_ERR_NETWORK then "网络错误导致视频加载失败"
            else if Z.eqb code MEDIA_ERR_DECODE then "视频解码失败，格式可能不支持"
            else if Z.eqb code MEDIA_ERR_SRC_NOT_SUPPORTED then "视频格式不支持或文件不存在"
            else "视频加载失败"
        | None => "视频加载失败"
        end
    | None => "视频加载失败"
    end%string in
  setIsLoading false (setError (Some errorMessage) s).

(** The range-editing handlers call back into App with onUpdateRange and
    onAddRange; they act on the editor's cells and on the page. *)
Definition handleSetStart (s : State) (page : App.State) : State * App.State :=
  match editingRangeId s with
  | Some i =>
      if App.truthy i then
        (s, App.handleUpdateRange i
              {| App.p_id := None; App.p_startTime := Some (currentTime s);
                 App.p_endTime := None |} page)
      else (setPendingStart (Some (currentTime s)) s, page)
  | None => (setPendingStart (Some (currentTime s)) s, page)
  end.

(** [uuid] is what crypto.randomUUID() returns in this call. *)
Definition handleSetEnd (uuid : string) (s : State) (page : App.State)
  : State * App.State :=
  let addPending :=
    match pendingStart s with
    | Some p =>
        let start := JS.Math_min p (currentTime s) in
        let end_ := JS.Math_max p (currentTime s) in
        let page' :=
          if negb (Qle_bool end_ start) then
            App.handleAddRange
              {| id := uuid; startTime := start; endTime := end_ |} page
          else page in
        (setPendingStart None s, page')
    | None => (s, page)
    end in
  match editingRangeId s with
  | Some i =>
      if App.truthy i then
        (setEditingRangeId None s,
         App.handleUpdateRange i
           {| App.p_id := None; App.p_startTime := None;
              App.p_endTime := Some (currentTime s) |} page)
      else addPending
  | None => addPending
  end.

Definition handleCancelPending (s : State) : State :=
  setEditingRangeId None (setPendingStart None s).

Definition handleEditRange (range : TimeRange) (s : State) : State :=
  let s1 := setPendingStart None (setEditingRangeId (Some (id range)) s) in
  match video s1 with
  | Some _ => setCurrentTime (startTime range) (setVideoTime (startTime range) s1)
  | None => s1
  end.

End Editor.

(** ** Arrays *)

Module Arr.

Section SortBy.
Context {A : Type}.
Variable key : A -> Q.

(** Put [x] in front of the first element whose key is not smaller. *)
Fixpoint insert (x : A) (l : list A) : list A :=
  match l with
  | [] => [x]
  | y :: rest =>
      if Qle_bool (key x) (key y) then x :: l else y :: insert x rest
  end.

(** [[...l].sort((a, b) => key(a) - key(b))]: the sort is stable, so the
    result is the one of an insertion sort that keeps equal keys in
    their order. *)
Fixpoint sortBy (l : list A) : list A :=
  match l with
  | [] => []
  | x :: rest => insert x (sortBy rest)
  end.
End SortBy.

(** [l.map((x, i) => f(i, x))], counting from [i]. *)
Fixpoint mapi {A B : Type} (f : nat -> A -> B) (i : nat) (l : list A) : list B :=
  match l with
  | [] => []
  | x :: rest => f i x :: mapi f (S i) rest
  end.

End Arr.

(** ** components/TimeRangeEditor.tsx: time stamps and batch entry *)

Module Batch.
Import Hook.
Local Open Scope string_scope.

Definition pad2 (z : Z) : string := Str.padStart 2 "0" (Str.toString z).

Definition formatTime (seconds : Q) : string :=
  let hrs := JS.Math_floor (seconds / 3600) in
  let mins := JS.Math_floor (JS.rem seconds 3600 / 60) in
  let secs := JS.Math_floor (JS.rem seconds 60) in
  pad2 hrs ++ ":" ++ pad2 mins ++ ":" ++ pad2 secs.

(** The parts of the input between colons, each trimmed. *)
Definition timeParts (input : string) : list string :=
  map Str.trim (Str.split ":" (Str.trim input)).

Definition rejected (value : Num.number) : bool :=
  Num.isNaN value || Num.negative value.

Definition hms (hours minutes seconds : Num.number) : Num.number :=
  Num.add (Num.add (Num.mul hours (Num.of_Z 3600)) (Num.mul minutes (Num.of_Z 60)))
          seconds.

(** [null] is [None]. *)
Definition parseTimeToSeconds (input : string) : option Num.number :=
  let cleaned := Str.trim input in
  if String.eqb cleaned EmptyString then None
  else
    let parts := timeParts input in
    if Nat.eqb (List.length parts) 0 || Nat.ltb 3 (List.length parts) then None
    else
      let nums := map Str.Number parts in
      if existsb rejected nums then None
      else
        match nums with
        | [hours; minutes; seconds] => Some (hms hours minutes seconds)
        | [minutes; seconds] => Some (hms (Num.of_Z 0) minutes seconds)
        | seconds :: _ => Some (hms (Num.of_Z 0) (Num.of_Z 0) seconds)
        | [] => Some Num.NaN
        end.

Record BatchParseLine : Type := {
  lineNumber : nat;
  raw : string;
  startSeconds : option Q;
  endSeconds : option Q;
  error : option string;
  clamped : bool
}.

Definition lineError n line s e msg : BatchParseLine :=
  {| lineNumber := n; raw := line; startSeconds := s; endSeconds := e;
     error := Some msg; clamped := false |}.

(** The body of the forEach callback of parseBatchText for a line with at
    least two tokens, from the two results of parseTimeToSeconds on
    ([start] and [end_], finite or null). *)
Definition classifyLine (clamp : bool) (duration : Q) (n : nat) (line : string)
    (start end_ : option Q) : BatchParseLine :=
  match start, end_ with
  | Some s, Some e =>
      if Qle_bool e s then lineError n line start end_ "结束时间必须大于开始时间"
      else
        let doClamp := clamp && negb (Qle_bool duration 0) in
        let finalStart :=
          if doClamp then JS.Math_min (JS.Math_max s 0) duration else s in
        let finalEnd :=
          if doClamp then JS.Math_min (JS.Math_max e 0) duration else e in
        let isClamped :=
          doClamp && (negb (Qeq_bool finalStart s) || negb (Qeq_bool finalEnd e)) in
        if negb (Qle_bool duration 0) &&
           (Qle_bool duration finalStart || negb (Qle_bool finalEnd duration))
        then lineError n line (Some finalStart) (Some finalEnd) "时间超出视频时长"
        else if Qle_bool finalEnd finalStart
        then lineError n line (Some finalStart) (Some finalEnd)
               "结束时间必须大于开始时间"
        else {| lineNumber := n; raw := line; startSeconds := Some finalStart;
                endSeconds := Some finalEnd; error := None; clamped := isClamped |}
  | _, _ => lineError n line start end_ "时间格式错误"
  end.

(** An element of the arrays mergeRanges works on. *)
Record Span : Type := {
  spanStart : Q;
  spanEnd : Q
}.

(** One step of the forEach of mergeRanges.  [merged] is kept with its
    last element first, so that [merged[merged.length - 1]] is the head. *)
Definition mergeStep (merged : list Span) (range : Span) : list Span :=
  match merged with
  | last :: before =>
      if Qle_bool (spanStart range) (spanEnd last) then
        {| spanStart := spanStart last;
           spanEnd := JS.Math_max (spanEnd last) (spanEnd range) |} :: before
      else range :: merged
  | [] => range :: merged
  end.

Definition mergeRanges (items : list Span) : list Span :=
  let sorted := Arr.sortBy spanStart items in
  List.rev (fold_left mergeStep sorted []).

(** [item.error] as a condition: an error text that is not empty. *)
Definition hasError (item : BatchParseLine) : bool :=
  match error item with
  | Some e => negb (String.eqb e EmptyString)
  | None => false
  end.

(** The lines applyBatchRanges takes from the preview. *)
Definition validRanges (batchPreview : list BatchParseLine) : list Span :=
  flat_map (fun item =>
              if hasError item then []
              else match startSeconds item, endSeconds item with
                   | Some s, Some e => [{| spanStart := s; spanEnd := e |}]
                   | _, _ => []
                   end) batchPreview.

Definition invalidCount (batchPreview : list BatchParseLine) : nat :=
  List.length (filter hasError batchPreview).

Inductive Mode : Type := replace | append.

(** applyBatchRanges; [uuid i] is the i-th value crypto.randomUUID()
    returns.  The result is the argument of onSetRanges, or the text of
    batchError when nothing is imported. *)
Definition applyBatchRanges (merge ignoreInvalid : bool) (uuid : nat -> string)
    (batchPreview : list BatchParseLine) (ranges : list TimeRange) (mode : Mode)
  : list TimeRange + string :=
  let valid := validRanges batchPreview in
  if negb ignoreInvalid && Nat.ltb 0 (invalidCount batchPreview) then
    inr "存在无效行，请修正后再导入"
  else if Nat.eqb (List.length valid) 0 then
    inr "没有可导入的有效片段"
  else
    let normalized := if merge then mergeRanges valid else valid in
    let nextRanges :=
      Arr.mapi (fun i item => {| id := uuid i; startTime := spanStart item;
                                 endTime := spanEnd item |}) 0 normalized in
    match mode with
    | replace => inl nextRanges
    | append => inl (ranges ++ nextRanges)%list
    end.

End Batch.

(** ** components/RangeSelector.tsx *)

Module RangeSelector.

Record TimeRange : Type := {
  id : string;
  start : Q;
  end_ : Q
}.

Record State : Type := {
  startCell : Q;
  endCell : Q
}.

Definition initial : State := {| startCell := 0; endCell := 0 |}.

(** handleAdd: the argument of onChange, if it is called, and the cells
    afterwards.  [now] is [Date.now().toString()]. *)
Definition handleAdd (now : string) (ranges : list TimeRange) (duration : Q)
    (s : State) : option (list TimeRange) * State :=
  if Qle_bool (endCell s) (startCell s) then (None, s)
  else
    let newRange := {| id := now; start := startCell s; end_ := endCell s |} in
    (Some (Arr.sortBy start (ranges ++ [newRange])),
     {| startCell := endCell s;
        endCell := JS.Math_min (endCell s + 10) duration |}).

Definition handleRemove (i : string) (ranges : list TimeRange) : list TimeRange :=
  filter (fun r => negb (String.eqb (id r) i)) ranges.

Definition handleSetStartCurrent (currentTime duration : Q) (s : State) : State :=
  {| startCell := currentTime;
     endCell := if Qle_bool (endCell s) currentTime
                then JS.Math_min (currentTime + 10) duration
                else endCell s |}.

Definition handleSetEndCurrent (currentTime : Q) (s : State) : State :=
  if negb (Qle_bool currentTime (startCell s))
  then {| startCell := startCell s; endCell := currentTime |}
  else s.

End RangeSelector.

From Stdlib Require Import Permutation.

(** ** More string operations *)

Module StrOps.
Local Open Scope string_scope.

(** [s.toLowerCase()] on ASCII letters. *)
Definition lowerChar (c : ascii) : ascii :=
  let n := nat_of_ascii c in
  if Nat.leb 65 n && Nat.leb n 90 then ascii_of_nat (n + 32) else c.

Fixpoint toLowerCase (s : string) : string :=
  match s with
  | String c rest => String (lowerChar c) (toLowerCase rest)
  | EmptyString => EmptyString
  end.

(** [s.lastIndexOf(c)] for a one-character [c]: -1 when [c] does not occur. *)
Fixpoint lastIndexOf (c : ascii) (s : string) : Z :=
  match s with
  | EmptyString => (-1)%Z
  | String x rest =>
      let i := lastIndexOf c rest in
      if Z.leb 0 i then (i + 1)%Z
      else if Ascii.eqb x c then 0%Z else (-1)%Z
  end.

(** [s.substring(0, e)]: a negative [e] counts as 0. *)
Definition substringTo (e : Z) (s : string) : string :=
  String.substring 0 (Z.to_nat e) s.

(** [s.split(sep).pop()]: the part after the last separator. *)
Definition lastPart (sep : ascii) (s : string) : string :=
  List.last (Str.split sep s) EmptyString.

(** [l.includes(s)]. *)
Definition includes (l : list string) (s : string) : bool :=
  existsb (String.eqb s) l.

(** The integer [parseInt(s)] reads: white space, a sign, then the longest
    run of digits, in base 16 after 0x and in base 10 otherwise; [None] when
    there is no digit. *)
Fixpoint digitsPrefix (radix : N) (s : string) (acc : option N) : option N :=
  match s with
  | EmptyString => acc
  | String c rest =>
      match Str.digitOf c with
      | Some v =>
          if N.ltb v radix then
            digitsPrefix radix rest
              (Some (match acc with Some a => a * radix + v | None => v end)%N)
          else acc
      | None => acc
      end
  end.

Definition integerPrefix (s : string) : option Z :=
  let t := Str.trimStart s in
  let '(neg, body) :=
    match t with
    | String "-" r => (true, r)
    | String "+" r => (false, r)
    | _ => (false, t)
    end in
  let magnitude :=
    match body with
    | String "0" (String p r) =>
        if Ascii.eqb p "x" || Ascii.eqb p "X" then digitsPrefix 16 r None
        else digitsPrefix 10 body None
    | _ => digitsPrefix 10 body None
    end in
  match magnitude with
  | Some v => Some (if neg then (- Z.of_N v)%Z else Z.of_N v)
  | None => None
  end.

(** [parseInt(s)]: that integer as a double, NaN when there is none. *)
Definition parseInt (s : string) : Num.number :=
  match integerPrefix s with
  | Some v => Num.round (inject_Z v)
  | None => Num.NaN
  end.

End StrOps.

(** ** JavaScript strings as sequences of UTF-16 code units

    [length] and [slice] count code units, so a text outside ASCII is
    measured here as the code does it. *)

Module U16.

Definition str : Type := list N.

(** An ASCII literal. *)
Definition ofAscii (s : string) : str := map N_of_ascii (list_ascii_of_string s).

(** [s.slice(-n)]: the last [n] code units, all of [s] if it is shorter. *)
Definition sliceLast (n : nat) (s : str) : str := skipn (List.length s - n) s.

Definition truthy (s : str) : bool :=
  match s with [] => false | _ :: _ => true end.

End U16.

(** ** Paths: App.tsx (default output directory), ResultList.tsx
    (getFileName), OutputSelector.tsx (truncatedPath), FileDropZone.tsx (the
    drop listener) and TimeRangeEditor.tsx (forceHls) *)

Module Paths.
Local Open Scope string_scope.

(** The directory the effect of App puts into outputDir:
    [selectedFile.substring(0, selectedFile.lastIndexOf('/'))]. *)
Definition defaultOutputDir (selectedFile : string) : string :=
  StrOps.substringTo (StrOps.lastIndexOf "/" selectedFile) selectedFile.

(** [path.split('/').pop() || path]. *)
Definition getFileName (path : string) : string :=
  let name := StrOps.lastPart "/" path in
  if App.truthy name then name else path.

(** The seven characters of the placeholder of OutputSelector. *)
Definition outputPlaceholder : U16.str :=
  [35831; 36873; 25321; 36755; 20986; 30446; 24405]%N.

(** The text OutputSelector shows for [value]. *)
Definition truncatedPath (value : U16.str) : U16.str :=
  if U16.truthy value then
    if Nat.ltb 40 (List.length value)
    then (U16.ofAscii "..." ++ U16.sliceLast 40 value)%list
    else value
  else outputPlaceholder.

(** [filePath.split('.').pop()?.toLowerCase()]. *)
Definition extension (filePath : string) : string :=
  StrOps.toLowerCase (StrOps.lastPart "." filePath).

Definition videoExts : list string :=
  ["mp4"; "mkv"; "avi"; "mov"; "webm"; "flv"; "wmv"; "m4v"].

(** The 'tauri://drag-drop' listener of FileDropZone: the path it hands to
    onFileSelect, if it calls it. *)
Definition onDrop (disabled : bool) (paths : list string) : option string :=
  if disabled then None
  else match paths with
       | filePath :: _ =>
           let ext := extension filePath in
           if App.truthy ext && StrOps.includes videoExts ext then Some filePath
           else None
       | [] => None
       end.

(** forceHls and hlsMinSize of the editor with the batch dialog. *)
Definition forceHls (filePath : string) : bool :=
  let ext := extension filePath in
  if App.truthy ext then negb (StrOps.includes ["mp4"; "m4v"; "mov"] ext)
  else false.

Definition hlsMinSize (filePath : string) : Q :=
  if forceHls filePath then 0 else inject_Z Window.HLS_MIN_SIZE.

End Paths.

(** ** components/DurationInput.tsx *)

Module DurationInput.

Inductive Unit : Type := seconds | minutes.

(** [parseInt(e.target.value) || 0]. *)
Definition inputValue (text : string) : Num.number :=
  let v := StrOps.parseInt text in
  if Num.truthy v then v else Num.of_Z 0.

(** handleInputChange: the argument of onChange. *)
Definition handleInputChange (unit : Unit) (text : string) : Num.number :=
  let secs := match unit with
              | minutes => Num.mul (inputValue text) (Num.of_Z 60)
              | seconds => inputValue text
              end in
  Num.max (Num.of_Z 1) secs.

(** The number shown in the input for a finite [value]. *)
Definition displayValue (unit : Unit) (value : Q) : Q :=
  match unit with
  | minutes => inject_Z (JS.Math_floor (value / 60))
  | seconds => value
  end.

Definition PRESETS : list Q := [30; 60; 300; 600; 1800].

(** handlePresetClick: the arguments of onChange and onUnitChange, if they
    are called. *)
Definition handlePresetClick (disabled : bool) (presetValue : Q) : option (Q * Unit) :=
  if disabled then None else Some (presetValue, seconds).

End DurationInput.

(** ** components/RangeEditor.tsx *)

Module RangeEditor.

Record Range : Type := {
  start : Q;
  end_ : Q
}.

Record State : Type := {
  startCell : option Q;
  endCell : option Q
}.

Definition initial : State := {| startCell := None; endCell := None |}.

Definition handleSetStart (currentTime : Q) (s : State) : State :=
  {| startCell := Some currentTime;
     endCell := match endCell s with
                | Some e => if Qle_bool e currentTime then None else Some e
                | None => None
                end |}.

Definition handleSetEnd (currentTime : Q) (s : State) : State :=
  match startCell s with
  | Some st =>
      if Qle_bool currentTime st then s
      else {| startCell := startCell s; endCell := Some currentTime |}
  | None => {| startCell := startCell s; endCell := Some currentTime |}
  end.

(** handleAdd: the argument of onAddRange, if it is called, and the cells
    afterwards. *)
Definition handleAdd (s : State) : option Range * State :=
  match startCell s, endCell s with
  | Some a, Some b => (Some {| start := a; end_ := b |}, initial)
  | _, _ => (None, s)
  end.

(** The three buttons; [currentTime] is the prop at the time of the click. *)
Inductive Event : Type :=
| SetStart (currentTime : Q)
| SetEnd (currentTime : Q)
| Add.

(** The cells and the ranges handed to onAddRange so far, oldest first. *)
Definition step (st : State * list Range) (e : Event) : State * list Range :=
  let (s, added) := st in
  match e with
  | SetStart t => (handleSetStart t s, added)
  | SetEnd t => (handleSetEnd t s, added)
  | Add => match handleAdd s with
           | (Some r, s') => (s', added ++ [r])
           | (None, s') => (s', added)
           end
  end.

Definition run (es : list Event) : State * list Range :=
  fold_left step es (initial, []).

End RangeEditor.

(** ** components/TimeRangeEditor.tsx: loading, retry and time updates *)

Module Playback.
Import Editor.

Definition setHlsError (h : option string) (s : State) : State :=
  {| currentTime := currentTime s; pendingStart := pendingStart s;
     editingRangeId := editingRangeId s; isLoading := isLoading s;
     error := error s; hlsError := h; retryToken := retryToken s;
     windowStart := windowStart s; pendingSeek := pendingSeek s;
     queuedSeek := queuedSeek s; video := video s |}.

Definition setRetryToken (k : Q) (s : State) : State :=
  {| currentTime := currentTime s; pendingStart := pendingStart s;
     editingRangeId := editingRangeId s; isLoading := isLoading s;
     error := error s; hlsError := hlsError s; retryToken := k;
     windowStart := windowStart s; pendingSeek := pendingSeek s;
     queuedSeek := queuedSeek s; video := video s |}.

(** handleRetry (the reload of the media element is an effect outside the
    cells). *)
Definition handleRetry (s : State) : State :=
  setRetryToken (retryToken s + 1)
    (setIsLoading true (setHlsError None (setError None s))).

Definition isHls (source : option Preview.PreviewSource) : bool :=
  match source with
  | Some src => match Preview.kind src with
                | Preview.hls => true
                | Preview.file => false
                end
  | None => false
  end.

(** The listener of LEVEL_LOADED and LEVEL_UPDATED: the new value of the
    cell hlsStartOffset.  [start] is
    [data?.details?.fragments?.[0]?.start] when it is a number. *)
Definition handleStartOffset (start : option Num.number) (hlsStartOffset : Q) : Q :=
  match start with
  | Some (Num.Fin q) => if Qle_bool 0 q then q else hlsStartOffset
  | _ => hlsStartOffset
  end.

Section WithProps.
Variable timelineDuration : Q.
Variable source : option Preview.PreviewSource.
(** The cell hlsStartOffset: the handlers below read it; it is written by
    [handleStartOffset] and set to 0 when filePath changes. *)
Variable hlsStartOffset : Q.

Definition applyPendingSeek (s : State) : State :=
  match pendingSeek s, video s with
  | Some p, Some _ =>
      let target := Window.clampTime timelineDuration p in
      let relative :=
        if isHls source
        then JS.Math_max 0 (target - windowStart s + hlsStartOffset)
        else target in
      setPendingSeek None (setCurrentTime target (setVideoTime relative s))
  | _, _ => s
  end.

(** seekToAbsolute of the editor with the batch dialog: inside the window
    the media element is moved by hlsStartOffset as well. *)
Definition seekToAbsolute (time : Q) (s : State) : State * bool :=
  let target := Window.clampTime timelineDuration time in
  match source with
  | None => (deferSeek timelineDuration target s, true)
  | Some src =>
      match Preview.kind src with
      | Preview.file => (setCurrentTime target (setVideoTime target s), false)
      | Preview.hls =>
          let windowEnd := windowStart s + Window.HLS_WINDOW_SECONDS in
          if Qle_bool (windowStart s) target && Qle_bool target windowEnd then
            (setCurrentTime target
               (setVideoTime
                  (JS.Math_max 0 (target - windowStart s + hlsStartOffset)) s),
             false)
          else (deferSeek timelineDuration target s, true)
      end
  end.

(** handleCanPlay; [autoPlayAfterSeek] is the cell of that name.  The
    result is the cells, the new value of autoPlayAfterSeek, and whether
    play() is called on the media element. *)
Definition handleCanPlay (autoPlayAfterSeek : bool) (s : State)
  : State * bool * bool :=
  let s1 := applyPendingSeek (setIsLoading false s) in
  match video s with
  | Some _ => if autoPlayAfterSeek then (s1, false, true)
              else (s1, autoPlayAfterSeek, false)
  | None => (s1, autoPlayAfterSeek, false)
  end.

End WithProps.

End Playback.


(** ** The other clocks *)

(** formatTime of components/VideoPlayer.tsx (the player with the windowed
    preview): the hour field is left out when it is zero. *)
Module VideoPlayer.
Local Open Scope string_scope.

Definition formatTime (seconds : Q) : string :=
  let hrs := JS.Math_floor (seconds / 3600) in
  let mins := JS.Math_floor (JS.rem seconds 3600 / 60) in
  let secs := JS.Math_floor (JS.rem seconds 60) in
  if Z.ltb 0 hrs then
    Batch.pad2 hrs ++ ":" ++ Batch.pad2 mins ++ ":" ++ Batch.pad2 secs
  else Batch.pad2 mins ++ ":" ++ Batch.pad2 secs.

End VideoPlayer.

(** formatTime of components/RangeSelector.tsx and of the first
    VideoPlayer.tsx: minutes and seconds only, the minutes not bounded. *)
Module MinuteClock.
Local Open Scope string_scope.

Definition formatTime (seconds : Q) : string :=
  let mins := JS.Math_floor (seconds / 60) in
  let secs := JS.Math_floor (JS.rem seconds 60) in
  Batch.pad2 mins ++ ":" ++ Batch.pad2 secs.

End MinuteClock.
(** ** Predicates and sample data used by the statements *)

(** The number of split calls in flight is 1 while [isProcessing] holds and
    0 otherwise. *)
Definition processing_counts (s : App.State) : Prop :=
  List.length (App.inFlight s) = if Hook.isProcessing (App.hook s) then 1%nat else 0%nat.

(** A page on which a file was chosen, its metadata arrived, an output
    directory was set and the split button was pressed in interval mode. *)
Definition page_while_splitting : App.State :=
  let info := {| Hook.path := "/v/a.mp4"; Hook.duration := 600;
                 Hook.duration_formatted := "00:10:00";
                 Hook.filename := "a.mp4" |} in
  let h := Hook.setProgress
             (Some {| Hook.current_segment := Num.of_Z 0;
                      Hook.total_segments := Num.Fin (inject_Z (Qceiling 600));
                      Hook.percentage := Num.of_Z 0;
                      Hook.current_file := Hook.preparing |})
             (Hook.setIsProcessing true (Hook.setVideoInfo (Some info) Hook.initial)) in
  {| App.selectedFile := Some "/v/a.mp4"%string; App.segmentDuration := 300;
     App.outputDir := "/v"; App.splitMode := App.interval; App.timeRanges := [];
     App.hook := h;
     App.inFlight := [Hook.split_video_command "/v/a.mp4" "/v" 300] |}.

(** A ten-minute video, as get_video_info describes it. *)
Definition ten_minute_video : Hook.VideoInfo :=
  {| Hook.path := "/v/a.mp4"; Hook.duration := 600;
     Hook.duration_formatted := "00:10:00"; Hook.filename := "a.mp4" |}.

(** The hook after a split started from [h] with the state updates of
    [begin], the progress events [ps] arrived, and the call was rejected
    with [msg]. *)
Definition after_rejection (begin : Hook.State -> Hook.State * Hook.Command)
    (h : Hook.State) (ps : list Hook.SplitProgress) (msg : string) : Hook.State :=
  Hook.split_settle (Hook.Rejected msg)
    (fold_left (fun s p => Hook.onProgress p s) ps (fst (begin h))).

(** What the page shows of a rejection with [msg]: the message is the error
    state and the text of the error panel, there is no result and no file
    list, and processing is over. *)
Definition rejection_surfaces (h' : Hook.State) (msg : string) : Prop :=
  Hook.error h' = Some msg /\
  App.errorPanel h' = Some ("❌ 错误: " ++ msg)%string /\
  Hook.result h' = None /\
  App.resultList h' = None /\
  Hook.isProcessing h' = false.

(** What the hook holds after a rejection with [msg], whatever the message:
    the message is the error state, there is no result and no file list,
    and processing is over. *)
Definition rejection_stored (h' : Hook.State) (msg : string) : Prop :=
  Hook.error h' = Some msg /\
  Hook.result h' = None /\
  App.resultList h' = None /\
  Hook.isProcessing h' = false.

(** Every range of the list ends strictly after it starts. *)
Definition ranges_valid (l : list Hook.TimeRange) : Prop :=
  Forall (fun r => Hook.startTime r < Hook.endTime r) l.

(** A chunked-playlist source, and an editor whose video element is mounted. *)
Definition playlist_source : Preview.PreviewSource :=
  {| Preview.kind := Preview.hls; Preview.path := "/tmp/preview/index.m3u8" |}.

Definition mounted_editor : Editor.State :=
  {| Editor.currentTime := 0; Editor.pendingStart := None;
     Editor.editingRangeId := None; Editor.isLoading := false;
     Editor.error := None; Editor.hlsError := None; Editor.retryToken := 0;
     Editor.windowStart := 0;
     Editor.pendingSeek := None; Editor.queuedSeek := None;
     Editor.video := Some {| Editor.v_currentTime := 0; Editor.v_error := None |} |}.

(** The text handleError chooses for a media-error code. *)
Definition playback_message (code : option Z) : string :=
  match code with
  | Some 1%Z => "视频加载被中断"
  | Some 2%Z => "网络错误导致视频加载失败"
  | Some 3%Z => "视频解码失败，格式可能不支持"
  | Some 4%Z => "视频格式不支持或文件不存在"
  | _ => "视频加载失败"
  end.

(** [video?.error?.code]. *)
Definition media_error_code (s : Editor.State) : option Z :=
  match Editor.video s with
  | Some v => Editor.v_error v
  | None => None
  end.

(** The time point [t] lies in one of the ranges of [l]. *)
Definition covers (l : list Batch.Span) (t : Q) : Prop :=
  exists r, In r l /\ Batch.spanStart r <= t /\ t <= Batch.spanEnd r.

(** A range that ends strictly after it starts. *)
Definition span_valid (r : Batch.Span) : Prop :=
  Batch.spanStart r < Batch.spanEnd r.

(** [a] ends strictly before [b] starts. *)
Definition precedes (a b : Batch.Span) : Prop :=
  Batch.spanEnd a < Batch.spanStart b.

(** [a] starts strictly before [b] starts. *)
Definition starts_before (a b : Batch.Span) : Prop :=
  Batch.spanStart a < Batch.spanStart b.

(** Strings of decimal digits only. *)
Fixpoint allDigits (s : string) : bool :=
  match s with
  | String c rest => Str.isDigit c && allDigits rest
  | EmptyString => true
  end.

(** The string has no colon. *)
Fixpoint noColon (s : string) : bool :=
  match s with
  | String c rest => negb (Ascii.eqb c ":") && noColon rest
  | EmptyString => true
  end.

(** The first character is not white space (or there is none). *)
Definition headNotWhite (s : string) : bool :=
  match s with
  | String c _ => negb (Str.isWhite c)
  | EmptyString => true
  end.

(** A direct-file source. *)
Definition file_source : Preview.PreviewSource :=
  {| Preview.kind := Preview.file; Preview.path := "/v/a.mp4" |}.

(** A range from 10 s to 20 s, and a page whose list holds just it. *)
Definition ten_to_twenty : Hook.TimeRange :=
  {| Hook.id := "a"; Hook.startTime := 10; Hook.endTime := 20 |}.

Definition page_with_one_range : App.State :=
  App.setTimeRanges [ten_to_twenty] App.initial.

(** A line of the batch preview that, if it carries no error, has both
    times and ends after it starts. *)
Definition line_ordered (item : Batch.BatchParseLine) : Prop :=
  Batch.hasError item = false ->
  match Batch.startSeconds item, Batch.endSeconds item with
  | Some s, Some e => s < e
  | _, _ => True
  end.

(** Order of two elements by their keys. *)
Definition key_le {A : Type} (key : A -> Q) (a b : A) : Prop := key a <= key b.

(** The accumulator of the forEach of mergeRanges, last element first:
    every element starts after all older ones have ended, and every element
    ends after it starts. *)
Definition newest_first (a b : Batch.Span) : Prop := precedes b a.

Definition merged_good (acc : list Batch.Span) : Prop :=
  StronglySorted newest_first acc /\ Forall span_valid acc.

(** A page ready for an interval split: a file, its metadata and an output
    directory, and nothing running. *)
Definition page_ready_to_split : App.State :=
  {| App.selectedFile := Some "/v/a.mp4"%string; App.segmentDuration := 300;
     App.outputDir := "/v"; App.splitMode := App.interval; App.timeRanges := [];
     App.hook := Hook.setVideoInfo (Some ten_minute_video) Hook.initial;
     App.inFlight := [] |}.

(** An editor with the start mark set at 50 s and the playhead back at 0. *)
Definition editor_with_start_mark : Editor.State :=
  Editor.setPendingStart (Some 50) mounted_editor.

(** The ranges RangeEditor has handed to onAddRange end after they start,
    and so do its two cells when both are set. *)
Definition rangeEditor_ordered (st : RangeEditor.State * list RangeEditor.Range) : Prop :=
  (match RangeEditor.startCell (fst st), RangeEditor.endCell (fst st) with
   | Some a, Some b => a < b
   | _, _ => True
   end) /\
  Forall (fun r => RangeEditor.start r < RangeEditor.end_ r) (snd st).

(** A file name: no path separator in it. *)
Fixpoint noSlash (s : string) : bool :=
  match s with
  | EmptyString => true
  | String c rest => negb (Ascii.eqb c "/") && noSlash rest
  end.

(** The extensions for which the preview is always transcoded. *)
Definition transcodedExts : list string :=
  ["mkv"; "avi"; "webm"; "flv"; "wmv"]%string.

(** A number that is not NaN and not negative. *)
Definition nonneg_number (x : Num.number) : Prop :=
  x = Num.PInf \/ exists q, x = Num.Fin q /\ 0 <= q.

(** The integers every one of which is a double: those below 2^53. *)
Definition safe_integer (z : Z) : Prop := (0 <= z < 2 ^ 53)%Z.

(** A number that is not NaN and not positive. *)
Definition nonpos_number (x : Num.number) : Prop :=
  x = Num.NInf \/ exists q, x = Num.Fin q /\ q <= 0.

(** * Theorems *)

(** ** Facts on the numeric helpers *)

Lemma Qmax_cases (a b : Q) : (a <= b /\ Qmax a b == b) \/ (b <= a /\ Qmax a b == a).
Proof.
  destruct (Q.max_spec a b) as [[H E]|[H E]]; [left|right]; split; auto.
  apply Qlt_le_weak; exact H.
Qed.

Lemma Qmin_cases (a b : Q) : (a <= b /\ Qmin a b == a) \/ (b <= a /\ Qmin a b == b).
Proof.
  destruct (Q.min_spec a b) as [[H E]|[H E]]; [left|right]; split; auto.
  apply Qlt_le_weak; exact H.
Qed.

Lemma clampTime_nonneg (d t : Q) : 0 <= Window.clampTime d t.
Proof.
  unfold Window.clampTime, JS.Math_min, JS.Math_max.
  destruct (Qlt_le_dec 0 d) as [Hd|Hd].
  - destruct (Qmax_cases t 0) as [[? E1]|[? E1]];
      destruct (Qmin_cases (Qmax t 0) d) as [[? E2]|[? E2]]; lra.
  - destruct (Qmax_cases t 0) as [[? E1]|[? E1]]; lra.
Qed.

Lemma floor_half_bounds (x : Q) :
  0 <= x ->
  (0 <= Qfloor (x / 2))%Z /\ inject_Z (Qfloor (x / 2)) * 2 <= x.
Proof.
  intros Hx. split.
  - change 0%Z with (Qfloor 0). apply Qfloor_resp_le.
    apply Qle_shift_div_l; lra.
  - pose proof (Qfloor_le (x / 2)) as H.
    assert (E : x == (x / 2) * 2) by (field).
    lra.
Qed.

(** C10. computeWindowStart on a clamped target: a nonnegative integer
    multiple of the 2-second segment length, at most the clamped target, and,
    for a positive duration, at most max(0, duration - 600). *)
Theorem computeWindowStart_aligned_bounded (d t : Q) :
  let target := Window.clampTime d t in
  let w := Window.computeWindowStart d target in
  (exists k : Z, (0 <= k)%Z /\ w == inject_Z k * Window.HLS_SEGMENT_SECONDS) /\
  w <= target /\
  (0 < d -> w <= JS.Math_max 0 (d - Window.HLS_WINDOW_SECONDS)).
Proof.
  intros target w.
  pose proof (clampTime_nonneg d t) as Ht. fold target in Ht.
  unfold w, Window.computeWindowStart, JS.Math_min, JS.Math_max, JS.Math_floor,
    Window.HLS_WINDOW_PADDING, Window.HLS_WINDOW_SECONDS, Window.HLS_SEGMENT_SECONDS.
  set (pad := Qmin 0 (10 * 60 / 2)).
  assert (Epad : pad == 0).
  { unfold pad. destruct (Qmin_cases 0 (10 * 60 / 2)) as [[? E]|[H E]]; [exact E|].
    exfalso. revert H. unfold Qle, Qdiv, Qmult, Qinv; simpl. lia. }
  set (maxStart := if Qlt_le_dec 0 d then Qmax 0 (d - 10 * 60) else Qmax 0 (target - pad)).
  set (raw := Qmin (Qmax (target - pad) 0) maxStart).
  assert (Hms : 0 <= maxStart).
  { unfold maxStart. destruct (Qlt_le_dec 0 d); apply Q.le_max_l. }
  assert (Hraw : 0 <= raw /\ raw <= target /\ raw <= maxStart).
  { unfold raw.
    destruct (Qmax_cases (target - pad) 0) as [[? E1]|[? E1]];
      destruct (Qmin_cases (Qmax (target - pad) 0) maxStart) as [[? E2]|[? E2]];
      repeat split; lra. }
  destruct Hraw as (H0 & H1 & H2).
  destruct (floor_half_bounds raw H0) as [Hk Hle].
  split; [|split].
  - exists (Qfloor (raw / 2)). split; [exact Hk | reflexivity].
  - lra.
  - intros Hd. unfold maxStart in H2.
    destruct (Qlt_le_dec 0 d) as [_|Hn]; [lra | lra].
Qed.



Lemma computeWindowStart_aligned_bounded_witness :
  0 < 1801 /\
  Window.computeWindowStart 1801 (Window.clampTime 1801 1500)
  <= JS.Math_max 0 (1801 - Window.HLS_WINDOW_SECONDS).
Proof.
  split; [reflexivity|].
  apply (computeWindowStart_aligned_bounded 1801 1500). reflexivity.
Defined.
(** ** useVideoSplit and the split button *)

Section SplitLifecycle.
Import Hook App.

Lemma handleSplit_counts s :
  canSplit s = true -> processing_counts s -> processing_counts (handleSplit s).
Proof.
  unfold canSplit, processing_counts, handleSplit.
  intros Hc Hinv.
  repeat (apply andb_true_iff in Hc; destruct Hc as [Hc ?]).
  destruct (selectedFile s) as [file|]; [|discriminate].
  simpl in Hc. rewrite Hc.
  match goal with H : truthy (outputDir s) = true |- _ => rewrite H end.
  match goal with H : negb (isProcessing (hook s)) = true |- _ =>
    apply negb_true_iff in H; rewrite H in Hinv end.
  simpl. destruct (splitMode s); simpl; rewrite length_app, Hinv; reflexivity.
Qed.

Lemma unlessProcessing_counts s next s' :
  unlessProcessing s next = Some s' ->
  hook next = hook s -> inFlight next = inFlight s ->
  processing_counts s -> processing_counts s'.
Proof.
  unfold unlessProcessing, processing_counts.
  destruct (isProcessing (hook s)) eqn:Hp; [discriminate|].
  intros [= <-] Hh Hf Hinv. rewrite Hh, Hf, Hp. exact Hinv.
Qed.

Lemma step_counts s e s' :
  step s e = Some s' -> processing_counts s -> processing_counts s'.
Proof.
  destruct e as [ | o | p | o | p | q | d | m | r | i n | i | l ];
    simpl; intros Hstep Hinv;
    try (eapply unlessProcessing_counts; [exact Hstep| reflexivity .. | exact Hinv]).
  - destruct (canSplit s) eqn:Hc; [|discriminate].
    injection Hstep as <-. apply handleSplit_counts; assumption.
  - unfold processing_counts in *.
    destruct (inFlight s) as [|c rest] eqn:Hf; [discriminate|].
    injection Hstep as <-.
    destruct (isProcessing (hook s)); simpl in Hinv; [|discriminate].
    destruct o; simpl; injection Hinv as ->; reflexivity.
  - unfold unlessProcessing, processing_counts in *.
    destruct (isProcessing (hook s)) eqn:Hp; [discriminate|].
    injection Hstep as <-. simpl. rewrite Hp. exact Hinv.
  - unfold processing_counts in *.
    injection Hstep as <-. destruct o; simpl; exact Hinv.
  - unfold processing_counts in *.
    injection Hstep as <-. simpl. exact Hinv.
  - unfold processing_counts in *.
    injection Hstep as <-. simpl. exact Hinv.
Qed.

Lemma run_counts es : forall s s',
  run s es = Some s' -> processing_counts s -> processing_counts s'.
Proof.
  induction es as [|e es IH]; simpl; intros s s' Hrun Hinv.
  - injection Hrun as <-. exact Hinv.
  - destruct (step s e) as [s1|] eqn:Hs; [|discriminate].
    eapply IH; [exact Hrun|]. eapply step_counts; eassumption.
Qed.

Lemma reachable_counts s : reachable s -> processing_counts s.
Proof.
  intros [es Hrun]. eapply run_counts; [exact Hrun | reflexivity].
Qed.

Lemma processing_disables_split s :
  isProcessing (hook s) = true -> canSplit s = false.
Proof.
  intros Hp. unfold canSplit. rewrite Hp. simpl.
  rewrite !andb_false_r. reflexivity.
Qed.

End SplitLifecycle.

(** C2. Both split functions raise isProcessing before the call is sent and
    the settlement (resolved or rejected) lowers it; in every reachable state
    of the page at most one split call is in flight, exactly one while
    isProcessing holds, and then canSplit is false and a click on the split
    button starts nothing. *)
Theorem at_most_one_split_in_flight (s : App.State) :
  App.reachable s ->
  (forall i o d h, Hook.isProcessing (fst (Hook.splitVideo_begin i o d h)) = true) /\
  (forall i o r h, Hook.isProcessing (fst (Hook.splitVideoByRanges_begin i o r h)) = true) /\
  (forall o h, Hook.isProcessing (Hook.split_settle o h) = false) /\
  (List.length (App.inFlight s) <= 1)%nat /\
  (Hook.isProcessing (App.hook s) = true <-> List.length (App.inFlight s) = 1%nat) /\
  (Hook.isProcessing (App.hook s) = true ->
     App.canSplit s = false /\ App.step s App.ClickSplit = None).
Proof.
  intros Hr. pose proof (reachable_counts s Hr) as Hinv.
  unfold processing_counts in Hinv.
  split; [reflexivity|]. split; [reflexivity|].
  split; [intros o h; destruct o; reflexivity|].
  repeat split.
  - rewrite Hinv. destruct (Hook.isProcessing (App.hook s)); lia.
  - intros Hp. rewrite Hinv, Hp. reflexivity.
  - intros Hl. rewrite Hl in Hinv.
    destruct (Hook.isProcessing (App.hook s)); [reflexivity|discriminate].
  - apply processing_disables_split; assumption.
  - simpl. rewrite processing_disables_split; [reflexivity|assumption].
Qed.

Lemma page_while_splitting_reachable : App.reachable page_while_splitting.
Proof.
  exists [App.FileSelect "/v/a.mp4";
          App.VideoInfoSettled
            (Hook.Resolved {| Hook.path := "/v/a.mp4"; Hook.duration := 600;
                              Hook.duration_formatted := "00:10:00";
                              Hook.filename := "a.mp4" |});
          App.ChangeOutputDir "/v";
          App.ChangeSplitMode App.interval;
          App.ClickSplit].
  reflexivity.
Qed.

Lemma at_most_one_split_in_flight_witness :
  App.reachable page_while_splitting /\
  (List.length (App.inFlight page_while_splitting) <= 1)%nat /\
  App.step page_while_splitting App.ClickSplit = None.
Proof.
  split; [exact page_while_splitting_reachable|].
  destruct (at_most_one_split_in_flight page_while_splitting
              page_while_splitting_reachable)
    as (_ & _ & _ & Hle & _ & Hdis).
  split; [exact Hle|]. apply Hdis. reflexivity.
Defined.

(** C3. splitVideoByRanges sends one {start_seconds, end_seconds} object per
    range, in the order of the ranges, built from startTime and endTime; the
    SplitResult the command resolves with becomes the result state as it is. *)
Theorem splitVideoByRanges_payload_and_result
    (inputPath outputDir : string) (ranges : list Hook.TimeRange) (h : Hook.State) :
  exists payload,
    snd (Hook.splitVideoByRanges_begin inputPath outputDir ranges h)
      = Hook.split_video_by_ranges_command inputPath outputDir payload /\
    List.length payload = List.length ranges /\
    (forall i,
       nth_error payload i =
       option_map (fun r => {| Hook.start_seconds := Hook.startTime r;
                               Hook.end_seconds := Hook.endTime r |})
                  (nth_error ranges i)) /\
    (forall splitResult,
       Hook.result
         (Hook.split_settle (Hook.Resolved splitResult)
            (fst (Hook.splitVideoByRanges_begin inputPath outputDir ranges h)))
       = Some splitResult).
Proof.
  exists (Hook.rangesPayload ranges). unfold Hook.rangesPayload.
  split; [reflexivity|]. split; [apply length_map|].
  split; [intros i; apply nth_error_map | reflexivity].
Qed.

(** ** The initial progress of a fixed-interval split *)

Lemma splitVideo_total_ignores_segmentDuration
    (i o : string) (d : Q) (h : Hook.State) (info : Hook.VideoInfo) :
  Hook.videoInfo h = Some info ->
  ~ Hook.duration info == 0 ->
  option_map Hook.total_segments
    (Hook.progress (fst (Hook.splitVideo_begin i o d h)))
  = Some (Num.ceil (Num.Fin (Hook.duration info))).
Proof.
  intros Hv Hd. simpl. unfold Hook.initialTotalOperand, JS.truthy. rewrite Hv.
  destruct (Qeq_bool (Hook.duration info) 0) eqn:E; [|reflexivity].
  apply Qeq_bool_iff in E. contradiction.
Qed.

(** C4. For a 600-second video split into 300-second segments the initial
    progress has current_segment 0 and percentage 0, but total_segments is
    600 (the ceiling of the duration alone), while the page predicts
    Math.ceil(600 / 300) = 2. *)
Theorem splitVideo_initial_total_is_not_segment_count :
  let h := Hook.setVideoInfo (Some ten_minute_video) Hook.initial in
  exists p,
    Hook.progress (fst (Hook.splitVideo_begin "/v/a.mp4" "/v" 300 h)) = Some p /\
    Num.eqb (Hook.current_segment p) (Num.of_Z 0) = true /\
    Num.eqb (Hook.percentage p) (Num.of_Z 0) = true /\
    Num.eqb (Hook.total_segments p) (Num.of_Z 600) = true /\
    Num.eqb (App.predictedSegments ten_minute_video 300) (Num.of_Z 2) = true /\
    Num.eqb (Hook.total_segments p) (App.predictedSegments ten_minute_video 300) = false.
Proof.
  simpl. eexists. split; [reflexivity|]. repeat split; vm_compute; reflexivity.
Qed.

(** ** A rejected split call *)

Lemma progress_keeps_cells (ps : list Hook.SplitProgress) : forall h,
  let h' := fold_left (fun s p => Hook.onProgress p s) ps h in
  Hook.error h' = Hook.error h /\ Hook.result h' = Hook.result h /\
  Hook.isProcessing h' = Hook.isProcessing h.
Proof.
  induction ps as [|p ps IH]; intros h; simpl; [auto|].
  destruct (IH (Hook.onProgress p h)) as (E1 & E2 & E3).
  rewrite E1, E2, E3. auto.
Qed.

Lemma after_rejection_cells begin h ps msg :
  Hook.error (fst (begin h)) = None ->
  Hook.result (fst (begin h)) = None ->
  let h' := after_rejection begin h ps msg in
  Hook.error h' = Some msg /\ Hook.result h' = None /\
  Hook.isProcessing h' = false.
Proof.
  intros He Hr. unfold after_rejection.
  destruct (progress_keeps_cells ps (fst (begin h))) as (E1 & E2 & _).
  simpl. rewrite E2, Hr. auto.
Qed.

Lemma errorPanel_of_message h msg :
  Hook.error h = Some msg ->
  App.errorPanel h = if App.truthy msg then Some ("❌ 错误: " ++ msg)%string else None.
Proof.
  intros E. unfold App.errorPanel. rewrite E. reflexivity.
Qed.

(** C5, as stated, fails for the empty message: the error state holds it, but
    [error && ...] is falsy and no error text is rendered. *)
Lemma empty_rejection_message_is_not_rendered :
  ~ rejection_surfaces
      (after_rejection (Hook.splitVideo_begin "/v/a.mp4" "/v" 300)
         Hook.initial [] EmptyString)
      EmptyString.
Proof.
  unfold rejection_surfaces. intros (_ & Hpanel & _). vm_compute in Hpanel.
  discriminate Hpanel.
Qed.

(** C5, amended. Both split functions clear the error and result states
    when they start.  When the call is rejected, with any message and after
    any progress events, the message is stored as the error state
    unchanged, the result state is still null, no file list is shown, and
    isProcessing is false again.  The message is the text of the error
    panel if it is not empty; for the empty message no panel is rendered. *)
Theorem split_rejection_surfaces_message
    (i o : string) (d : Q) (rs : list Hook.TimeRange)
    (h : Hook.State) (ps : list Hook.SplitProgress) (msg : string) :
  (Hook.error (fst (Hook.splitVideo_begin i o d h)) = None /\
   Hook.result (fst (Hook.splitVideo_begin i o d h)) = None) /\
  (Hook.error (fst (Hook.splitVideoByRanges_begin i o rs h)) = None /\
   Hook.result (fst (Hook.splitVideoByRanges_begin i o rs h)) = None) /\
  rejection_stored (after_rejection (Hook.splitVideo_begin i o d) h ps msg) msg /\
  rejection_stored (after_rejection (Hook.splitVideoByRanges_begin i o rs) h ps msg) msg /\
  (msg <> EmptyString ->
   rejection_surfaces (after_rejection (Hook.splitVideo_begin i o d) h ps msg) msg /\
   rejection_surfaces
     (after_rejection (Hook.splitVideoByRanges_begin i o rs) h ps msg) msg) /\
  (msg = EmptyString ->
   App.errorPanel (after_rejection (Hook.splitVideo_begin i o d) h ps msg) = None /\
   App.errorPanel
     (after_rejection (Hook.splitVideoByRanges_begin i o rs) h ps msg) = None).
Proof.
  assert (Hstored : forall begin,
            Hook.error (fst (begin h)) = None ->
            Hook.result (fst (begin h)) = None ->
            rejection_stored (after_rejection begin h ps msg) msg).
  { intros begin He Hr.
    destruct (after_rejection_cells begin h ps msg He Hr) as (E1 & E2 & E3).
    unfold rejection_stored. repeat split; try assumption.
    unfold App.resultList. rewrite E2. reflexivity. }
  assert (Hpanel : forall begin,
            Hook.error (fst (begin h)) = None ->
            Hook.result (fst (begin h)) = None ->
            App.errorPanel (after_rejection begin h ps msg)
            = if App.truthy msg then Some ("❌ 错误: " ++ msg)%string else None).
  { intros begin He Hr.
    destruct (after_rejection_cells begin h ps msg He Hr) as (E1 & _).
    exact (errorPanel_of_message _ _ E1). }
  split; [split; reflexivity|]. split; [split; reflexivity|].
  split; [apply Hstored; reflexivity|]. split; [apply Hstored; reflexivity|].
  split.
  - intros Hmsg.
    assert (Ht : App.truthy msg = true).
    { unfold App.truthy. apply negb_true_iff. apply String.eqb_neq. exact Hmsg. }
    assert (Hgen : forall begin,
              Hook.error (fst (begin h)) = None ->
              Hook.result (fst (begin h)) = None ->
              rejection_surfaces (after_rejection begin h ps msg) msg).
    { intros begin He Hr.
      destruct (Hstored begin He Hr) as (E1 & E2 & E3 & E4).
      unfold rejection_surfaces. repeat split; try assumption.
      rewrite (Hpanel begin He Hr), Ht. reflexivity. }
    split; apply Hgen; reflexivity.
  - intros ->. split; rewrite Hpanel by reflexivity; reflexivity.
Qed.

Lemma split_rejection_surfaces_message_witness :
  rejection_surfaces
    (after_rejection (Hook.splitVideo_begin "/v/a.mp4" "/v" 300)
       Hook.initial [] "ffmpeg exited with code 1")
    "ffmpeg exited with code 1".
Proof.
  apply (split_rejection_surfaces_message "/v/a.mp4" "/v" 300 []
           Hook.initial [] "ffmpeg exited with code 1").
  discriminate.
Defined.
(** ** Seeking in the preview window *)

Section Seek.
Import Editor.
Variable d : Q.
Variable src : Preview.PreviewSource.
Hypothesis src_hls : Preview.kind src = Preview.hls.

Lemma sameDeps_previewDeps (filePath : string) (s s' : State) :
  retryToken s' = retryToken s ->
  Preview.sameDeps (previewDeps filePath s) (previewDeps filePath s')
  = Qeq_bool (windowStart s) (windowStart s').
Proof.
  intros Hr. unfold Preview.sameDeps, previewDeps, Preview.deps, Preview.orDefault.
  cbn [Preview.d_filePath Preview.d_minSizeBytes Preview.d_segmentSeconds
       Preview.d_startSeconds Preview.d_windowSeconds Preview.d_requestKey
       Preview.minSizeBytes Preview.segmentSeconds Preview.startSeconds
       Preview.windowSeconds Preview.requestKey].
  rewrite Hr, String.eqb_refl.
  rewrite !(proj2 (Qeq_bool_iff _ _) (Qeq_refl _)).
  cbn [andb]. rewrite !andb_true_r. reflexivity.
Qed.

Lemma seekToAbsolute_outside (time : Q) (s : State) :
  let target := Window.clampTime d time in
  ~ (windowStart s <= target /\ target <= windowStart s + Window.HLS_WINDOW_SECONDS) ->
  seekToAbsolute d (Some src) time s = (deferSeek d target s, true).
Proof.
  intros target Hout. unfold seekToAbsolute. rewrite src_hls. fold target.
  destruct (Qle_bool (windowStart s) target &&
            Qle_bool target (windowStart s + Window.HLS_WINDOW_SECONDS)) eqn:E;
    [|reflexivity].
  exfalso. apply Hout. apply andb_true_iff in E. destruct E as [E1 E2].
  split; apply Qle_bool_iff; assumption.
Qed.

Lemma seekToAbsolute_inside (time : Q) (s : State) :
  let target := Window.clampTime d time in
  windowStart s <= target -> target <= windowStart s + Window.HLS_WINDOW_SECONDS ->
  seekToAbsolute d (Some src) time s
  = (setCurrentTime target (setVideoTime (target - windowStart s) s), false).
Proof.
  intros target H1 H2. unfold seekToAbsolute. rewrite src_hls. fold target.
  apply Qle_bool_iff in H1. apply Qle_bool_iff in H2. rewrite H1, H2. reflexivity.
Qed.

(** Outside the window: windowStart is recomputed, the target is the
    pending seek, the editor is loading, and the seek is deferred. *)
Lemma seek_outside_window (time : Q) (s : State) :
  let target := Window.clampTime d time in
  ~ (windowStart s <= target /\ target <= windowStart s + Window.HLS_WINDOW_SECONDS) ->
  let r := seekToAbsolute d (Some src) time s in
  snd r = true /\
  windowStart (fst r) = Window.computeWindowStart d target /\
  pendingSeek (fst r) = Some target /\
  currentTime (fst r) = target /\
  isLoading (fst r) = true.
Proof.
  intros target Hout r. unfold r.
  rewrite (seekToAbsolute_outside time s Hout). repeat split.
Qed.

(** Inside the window: the media element is moved to target - windowStart,
    nothing is deferred, and the next render sends no call. *)
Lemma seek_inside_window (time : Q) (s : State) (v : VideoElement) (filePath : string) :
  let target := Window.clampTime d time in
  windowStart s <= target -> target <= windowStart s + Window.HLS_WINDOW_SECONDS ->
  video s = Some v ->
  let r := seekToAbsolute d (Some src) time s in
  snd r = false /\
  option_map v_currentTime (video (fst r)) = Some (target - windowStart s) /\
  windowStart (fst r) = windowStart s /\
  pendingSeek (fst r) = pendingSeek s /\
  forall p, Preview.afterRender (previewDeps filePath s) (previewDeps filePath (fst r)) p
            = (p, None).
Proof.
  intros target H1 H2 Hv r. unfold r.
  rewrite (seekToAbsolute_inside time s H1 H2). fold target.
  cbn [fst snd]. split; [reflexivity|].
  split; [simpl; rewrite Hv; reflexivity|].
  split; [reflexivity|]. split; [reflexivity|].
  intros p. unfold Preview.afterRender.
  rewrite sameDeps_previewDeps by reflexivity.
  simpl. rewrite (proj2 (Qeq_bool_iff _ _) (Qeq_refl _)). reflexivity.
Qed.

(** A deferred seek sends a new call for the recomputed window whenever
    the recomputed windowStart differs from the current one. *)
Lemma deferred_seek_requests_new_window (time : Q) (s : State)
    (filePath : string) (p : Preview.State) :
  let target := Window.clampTime d time in
  ~ (windowStart s <= target /\ target <= windowStart s + Window.HLS_WINDOW_SECONDS) ->
  filePath <> EmptyString ->
  ~ windowStart s == Window.computeWindowStart d target ->
  exists args,
    snd (Preview.afterRender (previewDeps filePath s)
           (previewDeps filePath (fst (seekToAbsolute d (Some src) time s))) p)
    = Some args /\
    Preview.a_startSeconds args = Window.computeWindowStart d target /\
    Preview.a_windowSeconds args = Window.HLS_WINDOW_SECONDS.
Proof.
  intros target Hout Hf Hne.
  rewrite (seekToAbsolute_outside time s Hout). fold target. cbn [fst].
  unfold Preview.afterRender.
  rewrite sameDeps_previewDeps by reflexivity.
  change (windowStart (deferSeek d target s))
    with (Window.computeWindowStart d target).
  destruct (Qeq_bool (windowStart s) (Window.computeWindowStart d target)) eqn:E.
  - apply Qeq_bool_iff in E. contradiction.
  - unfold Preview.runEffect.
    change (Preview.d_filePath (previewDeps filePath (deferSeek d target s)))
      with filePath.
    destruct (String.eqb filePath EmptyString) eqn:Ef.
    + apply String.eqb_eq in Ef. contradiction.
    + eexists. split; [reflexivity|]. split; reflexivity.
Qed.
End Seek.

(** The call usePreviewSource sends carries the minimum file size, the
    segment length and the window it was given. *)
Lemma usePreviewSource_call (d : Preview.Deps) :
  Preview.d_filePath d <> EmptyString ->
  exists args,
    snd (Preview.runEffect d) = Some args /\
    Preview.a_inputPath args = Preview.d_filePath d /\
    Preview.a_minSizeBytes args = Preview.d_minSizeBytes d /\
    Preview.a_startSeconds args = Preview.d_startSeconds d /\
    Preview.a_windowSeconds args = Preview.d_windowSeconds d.
Proof.
  intros Hf. unfold Preview.runEffect.
  destruct (String.eqb_spec (Preview.d_filePath d) EmptyString) as [E|_];
    [contradiction|].
  eexists. split; [reflexivity|]. repeat split.
Qed.

(** A resolved source is a playlist only if the host said 'hls'; any other
    kind is played as a file. *)
Lemma preview_kind_of_host (r : Preview.HostSource) (p : Preview.State) :
  Preview.host_path r <> EmptyString ->
  Preview.source (Preview.settle false (Hook.Resolved (Some r)) p)
  = Some {| Preview.kind := if String.eqb (Preview.host_kind r) "hls"
                            then Preview.hls else Preview.file;
            Preview.path := Preview.host_path r |}.
Proof.
  intros Hp. unfold Preview.settle.
  destruct (String.eqb (Preview.host_path r) EmptyString) eqn:E.
  - apply String.eqb_eq in E. contradiction.
  - reflexivity.
Qed.

(** C6. A 601-second video played from the playlist window [0, 600]: a seek
    to 601 lies outside the window, is deferred (returns true, records the
    pending seek, enters loading), but the recomputed windowStart is the old
    one, so the dependency array of usePreviewSource is unchanged and no new
    prepare_hls_source_command call is sent. *)
Theorem deferred_seek_without_new_request :
  let s := mounted_editor in
  let r := Editor.seekToAbsolute 601 (Some playlist_source) 601 s in
  Qle_bool (Window.clampTime 601 601)
           (Editor.windowStart s + Window.HLS_WINDOW_SECONDS) = false /\
  snd r = true /\
  option_map (Qeq_bool 601) (Editor.pendingSeek (fst r)) = Some true /\
  Editor.isLoading (fst r) = true /\
  Qeq_bool (Editor.windowStart (fst r)) (Editor.windowStart s) = true /\
  forall p,
    Preview.afterRender (Editor.previewDeps "/v/a.mkv" s)
                        (Editor.previewDeps "/v/a.mkv" (fst r)) p = (p, None).
Proof.
  cbv zeta. repeat split; try (vm_compute; reflexivity).
Qed.

(** ** Playback errors *)

(** C7. handleError stores a message that depends on the media-error code
    only, and the error overlay shows it: codes 1 to 4 (aborted, network,
    decode, source not supported) have a message each, all different, every
    other code and an absent error give the general load-failure message;
    loading is switched off in all cases. *)
Theorem handleError_message_by_code :
  (forall s, Editor.error (Editor.handleError s)
             = Some (playback_message (media_error_code s))) /\
  (forall s, Editor.overlayMessage (Editor.handleError s)
             = Some (playback_message (media_error_code s))) /\
  (forall s, Editor.isLoading (Editor.handleError s) = false) /\
  (forall s1 s2, media_error_code s1 = media_error_code s2 ->
     Editor.error (Editor.handleError s1) = Editor.error (Editor.handleError s2)) /\
  playback_message (Some Editor.MEDIA_ERR_ABORTED) = "视频加载被中断"%string /\
  playback_message (Some Editor.MEDIA_ERR_NETWORK) = "网络错误导致视频加载失败"%string /\
  playback_message (Some Editor.MEDIA_ERR_DECODE) = "视频解码失败，格式可能不支持"%string /\
  playback_message (Some Editor.MEDIA_ERR_SRC_NOT_SUPPORTED)
    = "视频格式不支持或文件不存在"%string /\
  NoDup [playback_message (Some 1%Z); playback_message (Some 2%Z);
         playback_message (Some 3%Z); playback_message (Some 4%Z);
         playback_message None] /\
  (forall code, (code < 1 \/ 4 < code)%Z ->
     playback_message (Some code) = "视频加载失败"%string) /\
  playback_message None = "视频加载失败"%string.
Proof.
  assert (Hmsg : forall s, Editor.error (Editor.handleError s)
                           = Some (playback_message (media_error_code s))).
  { intros s. unfold Editor.handleError, media_error_code, playback_message. simpl.
    destruct (Editor.video s) as [v|]; [|reflexivity].
    destruct (Editor.v_error v) as [code|]; [|reflexivity].
    unfold Editor.MEDIA_ERR_ABORTED, Editor.MEDIA_ERR_NETWORK,
      Editor.MEDIA_ERR_DECODE, Editor.MEDIA_ERR_SRC_NOT_SUPPORTED.
    destruct (Z.eqb_spec code 1) as [->|N1]; [reflexivity|].
    destruct (Z.eqb_spec code 2) as [->|N2]; [reflexivity|].
    destruct (Z.eqb_spec code 3) as [->|N3]; [reflexivity|].
    destruct (Z.eqb_spec code 4) as [->|N4]; [reflexivity|].
    destruct code as [|[[[]|[]|]|[[]|[]|]|]|]; try reflexivity; congruence. }
  split; [exact Hmsg|].
  split.
  { intros s. unfold Editor.overlayMessage. rewrite Hmsg.
    destruct (media_error_code s) as [[|[[[]|[]|]|[[]|[]|]|]|]|]; reflexivity. }
  split; [reflexivity|].
  split; [intros s1 s2 E; rewrite !Hmsg, E; reflexivity|].
  repeat (split; [reflexivity|]).
  split.
  - repeat constructor; simpl; intros H;
      repeat (destruct H as [H|H]; [discriminate H|]); exact H.
  - split; [|reflexivity].
    intros code Hc.
    destruct code as [|[[[]|[]|]|[[]|[]|]|]|]; try reflexivity; lia.
Qed.

(** ** Sorting by a key *)

Section SortByFacts.
Context {A : Type}.
Variable key : A -> Q.

Lemma insert_In (x y : A) (l : list A) :
  In y (Arr.insert key x l) <-> y = x \/ In y l.
Proof.
  induction l as [|z l IH]; simpl.
  - intuition.
  - destruct (Qle_bool (key x) (key z)); simpl; [intuition|].
    rewrite IH. intuition.
Qed.

Lemma sortBy_In (y : A) (l : list A) : In y (Arr.sortBy key l) <-> In y l.
Proof.
  induction l as [|x l IH]; simpl; [tauto|].
  rewrite insert_In, IH. intuition.
Qed.

Lemma insert_sorted (x : A) (l : list A) :
  StronglySorted (key_le key) l -> StronglySorted (key_le key) (Arr.insert key x l).
Proof.
  induction 1 as [|z l Hs IH Hz]; simpl.
  - constructor; constructor.
  - destruct (Qle_bool (key x) (key z)) eqn:E.
    + apply Qle_bool_iff in E.
      constructor; [constructor; assumption|].
      constructor; [exact E|].
      rewrite Forall_forall in *. intros w Hw. unfold key_le in *.
      specialize (Hz w Hw). lra.
    + constructor; [exact IH|].
      rewrite Forall_forall in *. intros w Hw.
      apply insert_In in Hw. destruct Hw as [->|Hw]; [|auto].
      unfold key_le.
      destruct (Qlt_le_dec (key z) (key x)) as [Hlt|Hle]; [lra|].
      apply Qle_bool_iff in Hle. congruence.
Qed.

Lemma sortBy_sorted (l : list A) : StronglySorted (key_le key) (Arr.sortBy key l).
Proof.
  induction l as [|x l IH]; simpl; [constructor|].
  apply insert_sorted. exact IH.
Qed.
End SortByFacts.

(** ** mergeRanges *)

Section MergeFacts.
Import Batch.

Lemma covers_cons r l t :
  covers (r :: l) t <-> (spanStart r <= t /\ t <= spanEnd r) \/ covers l t.
Proof.
  unfold covers. split.
  - intros (x & [<-|Hx] & H); [left; exact H | right; exists x; auto].
  - intros [H|(x & Hx & H)]; [exists r | exists x]; simpl; auto.
Qed.

Lemma covers_nil t : ~ covers [] t.
Proof. intros (x & [] & _). Qed.

Lemma covers_same_elements l l' t :
  (forall r, In r l <-> In r l') -> covers l t <-> covers l' t.
Proof.
  intros H. unfold covers. split; intros (x & Hx & Hb); exists x;
    (split; [apply H; exact Hx | exact Hb]).
Qed.

Lemma mergeStep_fold (l : list Span) : forall acc,
  StronglySorted (fun a b => spanStart a <= spanStart b) l ->
  Forall span_valid l ->
  merged_good acc ->
  (forall a r, In a acc -> In r l -> spanStart a <= spanStart r) ->
  merged_good (fold_left mergeStep l acc) /\
  (forall t, covers (fold_left mergeStep l acc) t <-> covers acc t \/ covers l t).
Proof.
  induction l as [|r l IH]; intros acc Hs Hv Hg Hb; simpl.
  - split; [exact Hg|]. intros t. pose proof (covers_nil t). tauto.
  - inversion Hs as [|? ? Hs' Hr]; subst.
    inversion Hv as [|? ? Hvr Hv']; subst.
    rewrite Forall_forall in Hr.
    destruct Hg as [Hgs Hgv].
    assert (Hstep :
      merged_good (mergeStep acc r) /\
      (forall a r', In a (mergeStep acc r) -> In r' l -> spanStart a <= spanStart r') /\
      (forall t, covers (mergeStep acc r) t <->
                 covers acc t \/ (spanStart r <= t /\ t <= spanEnd r))).
    { destruct acc as [|last before]; simpl.
      - split; [split; repeat constructor; exact Hvr|].
        split.
        + intros a r' [<-|[]] Hr'. apply Hr; exact Hr'.
        + intros t. rewrite covers_cons. pose proof (covers_nil t). tauto.
      - inversion Hgs as [|? ? Hbs Hbl]; subst.
        inversion Hgv as [|? ? Hvl Hvb]; subst.
        assert (Hlr : spanStart last <= spanStart r)
          by (apply Hb; simpl; auto).
        unfold span_valid in Hvl, Hvr.
        destruct (Qle_bool (spanStart r) (spanEnd last)) eqn:E.
        + apply Qle_bool_iff in E.
          unfold JS.Math_max.
          destruct (Qmax_cases (spanEnd last) (spanEnd r)) as [[Hc Em]|[Hc Em]].
          * split; [split|split].
            -- constructor; [exact Hbs|].
               rewrite Forall_forall in *. intros b Hin.
               specialize (Hbl b Hin). unfold newest_first, precedes in *.
               simpl. exact Hbl.
            -- constructor; [|exact Hvb]. unfold span_valid. simpl. lra.
            -- intros a r' [<-|Ha] Hr'; simpl.
               ++ apply Hb; simpl; auto.
               ++ apply Hb; simpl; auto.
            -- intros t. rewrite !covers_cons. simpl. split.
               ++ intros [[H1 H2]|H]; [|tauto].
                  destruct (Qlt_le_dec (spanEnd last) t); [right; lra | left; left; lra].
               ++ intros [[[H1 H2]|H]|[H1 H2]]; [left; lra | tauto | left; lra].
          * split; [split|split].
            -- constructor; [exact Hbs|].
               rewrite Forall_forall in *. intros b Hin.
               specialize (Hbl b Hin). unfold newest_first, precedes in *.
               simpl. exact Hbl.
            -- constructor; [|exact Hvb]. unfold span_valid. simpl. lra.
            -- intros a r' [<-|Ha] Hr'; simpl.
               ++ apply Hb; simpl; auto.
               ++ apply Hb; simpl; auto.
            -- intros t. rewrite !covers_cons. simpl. split.
               ++ intros [[H1 H2]|H]; [left; left; lra | tauto].
               ++ intros [[[H1 H2]|H]|[H1 H2]]; [left; lra | tauto | left; lra].
        + assert (Hgap : spanEnd last < spanStart r).
          { destruct (Qlt_le_dec (spanEnd last) (spanStart r)) as [H|H]; [exact H|].
            apply Qle_bool_iff in H. congruence. }
          split; [split|split].
          * constructor; [exact Hgs|].
            constructor; [exact Hgap|].
            rewrite Forall_forall in *. intros b Hin.
            specialize (Hbl b Hin). unfold newest_first, precedes in *. lra.
          * constructor; [exact Hvr | exact Hgv].
          * intros a r' [<-|Ha] Hr'; [apply Hr; exact Hr'|].
            apply Hb; [exact Ha | simpl; auto].
          * intros t. rewrite (covers_cons r). tauto. }
    destruct Hstep as (Hg' & Hb' & Hc').
    destruct (IH (mergeStep acc r) Hs' Hv' Hg' Hb') as [Hgood Hcov].
    split; [exact Hgood|].
    intros t. rewrite Hcov, Hc', covers_cons. tauto.
Qed.

Lemma sorted_snoc {A : Type} (R : A -> A -> Prop) (l : list A) (x : A) :
  StronglySorted R l -> Forall (fun a => R a x) l -> StronglySorted R (l ++ [x]).
Proof.
  induction 1 as [|y l Hs IH Hy]; intros Hx; simpl.
  - repeat constructor.
  - inversion Hx; subst. constructor; [apply IH; assumption|].
    apply Forall_app. split; [exact Hy | repeat constructor; assumption].
Qed.

Lemma sorted_rev {A : Type} (R : A -> A -> Prop) (l : list A) :
  StronglySorted (fun a b => R b a) l -> StronglySorted R (List.rev l).
Proof.
  induction 1 as [|y l Hs IH Hy]; simpl; [constructor|].
  apply sorted_snoc; [exact IH|].
  rewrite Forall_forall in *. intros a Ha. apply Hy. apply in_rev. exact Ha.
Qed.

Lemma precedes_starts_before (l : list Span) :
  Forall span_valid l -> StronglySorted precedes l -> StronglySorted starts_before l.
Proof.
  intros Hv Hs. induction Hs as [|a l Hs IH Ha]; [constructor|].
  inversion Hv as [|? ? Hva Hvl]; subst.
  constructor; [apply IH; exact Hvl|].
  rewrite Forall_forall in *. intros b Hb.
  specialize (Ha b Hb). unfold precedes, starts_before, span_valid in *. lra.
Qed.

Lemma mergeRanges_good (items : list Span) :
  Forall span_valid items ->
  StronglySorted precedes (mergeRanges items) /\
  Forall span_valid (mergeRanges items) /\
  (forall t, covers (mergeRanges items) t <-> covers items t).
Proof.
  intros Hv. unfold mergeRanges.
  assert (Hvs : Forall span_valid (Arr.sortBy spanStart items)).
  { rewrite Forall_forall in *. intros r Hr. apply Hv.
    apply (sortBy_In spanStart). exact Hr. }
  destruct (mergeStep_fold (Arr.sortBy spanStart items) []
              (sortBy_sorted spanStart items) Hvs)
    as [[Hs Hf] Hc].
  - split; constructor.
  - intros a r [].
  - split; [apply sorted_rev; exact Hs|]. split.
    + rewrite Forall_forall in *. intros r Hr. apply Hf. apply in_rev. exact Hr.
    + intros t.
      rewrite (covers_same_elements (List.rev _) _ t (fun r => iff_sym (in_rev _ r))).
      rewrite Hc.
      rewrite (covers_same_elements _ items t (fun r => sortBy_In spanStart r items)).
      pose proof (covers_nil t). tauto.
Qed.
End MergeFacts.

(** C9. On ranges that all end after they start, mergeRanges returns ranges
    in strictly ascending order of start, each starting strictly after every
    earlier one has ended, and covering exactly the time points the input
    ranges cover. *)
Theorem mergeRanges_sorted_disjoint_same_cover (items : list Batch.Span) :
  Forall span_valid items ->
  StronglySorted starts_before (Batch.mergeRanges items) /\
  StronglySorted precedes (Batch.mergeRanges items) /\
  (forall t, covers (Batch.mergeRanges items) t <-> covers items t).
Proof.
  intros Hv. destruct (mergeRanges_good items Hv) as (Hs & Hf & Hc).
  split; [apply precedes_starts_before; assumption|]. split; assumption.
Qed.

Lemma mergeRanges_sorted_disjoint_same_cover_witness :
  let items := [ {| Batch.spanStart := 5; Batch.spanEnd := 7 |};
                 {| Batch.spanStart := 1; Batch.spanEnd := 3 |};
                 {| Batch.spanStart := 2; Batch.spanEnd := 4 |} ] in
  Forall span_valid items /\
  StronglySorted precedes (Batch.mergeRanges items).
Proof.
  intros items.
  assert (Hv : Forall span_valid items)
    by (repeat constructor; unfold span_valid, Qlt; simpl; lia).
  split; [exact Hv|].
  exact (proj1 (proj2 (mergeRanges_sorted_disjoint_same_cover items Hv))).
Defined.

(** ** Rounding to doubles *)

Section Doubles.

Lemma roundEven_int (x : Q) (n : Z) : x == inject_Z n -> Num.roundEven x = n.
Proof.
  intros H. unfold Num.roundEven.
  assert (Hf : Qfloor x = n) by (rewrite (Qfloor_comp _ _ H); apply Qfloor_Z).
  rewrite Hf.
  destruct (Qle_bool (1 # 2) (x - inject_Z n)) eqn:E; [|reflexivity].
  apply Qle_bool_iff in E. lra.
Qed.

Lemma roundEven_nonneg (x : Q) : 0 <= x -> (0 <= Num.roundEven x)%Z.
Proof.
  intros H. unfold Num.roundEven.
  assert (Hf : (0 <= Qfloor x)%Z).
  { change 0%Z with (Qfloor 0). apply Qfloor_resp_le. exact H. }
  destruct (negb (Qle_bool (1 # 2) (x - inject_Z (Qfloor x)))); [exact Hf|].
  destruct (negb (Qle_bool (x - inject_Z (Qfloor x)) (1 # 2))); [lia|].
  destruct (Z.even (Qfloor x)); lia.
Qed.

Lemma Qpower2_inject (k : Z) : (0 <= k)%Z -> Qpower 2 k == inject_Z (2 ^ k).
Proof.
  intros Hk. rewrite (Zpower_Qpower 2 k Hk). reflexivity.
Qed.

(** A positive integer below 2^53 has its leading bit below position 53. *)
Lemma ilog2_small (a : Q) (z : Z) :
  a == inject_Z z -> (0 < z < 2 ^ 53)%Z -> (Num.ilog2 a <= 52)%Z.
Proof.
  intros E [Hz0 Hz]. unfold Num.ilog2.
  assert (Hn : Qnum a = (z * Zpos (Qden a))%Z).
  { unfold Qeq, inject_Z in E. simpl in E. lia. }
  assert (Hlz : (Z.log2 z <= 52)%Z).
  { assert (Z.log2 z < 53)%Z by (apply Z.log2_lt_pow2; lia). lia. }
  assert (He0 : (Z.log2 (Qnum a) - Z.log2 (Zpos (Qden a)) <= 53)%Z).
  { rewrite Hn.
    pose proof (Z.log2_mul_above z (Zpos (Qden a)) ltac:(lia) ltac:(lia)). lia. }
  set (e0 := (Z.log2 (Qnum a) - Z.log2 (Zpos (Qden a)))%Z) in *.
  destruct (Qle_bool (Qpower 2 e0) a) eqn:Hle; [|lia].
  apply Qle_bool_iff in Hle.
  destruct (Z.eq_dec e0 53) as [E53|]; [|lia].
  exfalso. rewrite E53, E in Hle.
  rewrite (Qpower2_inject 53) in Hle by lia.
  rewrite <- Zle_Qle in Hle. lia.
Qed.

Lemma roundMagnitude_int (a : Q) (z : Z) :
  a == inject_Z z -> (0 < z < 2 ^ 53)%Z -> Num.roundMagnitude a == inject_Z z.
Proof.
  intros E Hz. unfold Num.roundMagnitude.
  pose proof (ilog2_small a z E Hz) as He.
  set (p := Z.max (Num.ilog2 a - 52) (-1074)).
  assert (Hp : (p <= 0)%Z) by (unfold p; lia).
  assert (Epow : Qpower 2 p == / inject_Z (2 ^ (- p))).
  { replace p with (- - p)%Z at 1 by lia.
    rewrite Qpower_opp. rewrite (Qpower2_inject (- p)) by lia. reflexivity. }
  assert (Hpos : 0 < inject_Z (2 ^ (- p))).
  { change 0 with (inject_Z 0). rewrite <- Zlt_Qlt.
    apply Z.pow_pos_nonneg; lia. }
  assert (Ex : a / Qpower 2 p == inject_Z (z * 2 ^ (- p))).
  { rewrite Epow, E, inject_Z_mult. field. lra. }
  rewrite (roundEven_int _ _ Ex), Epow, inject_Z_mult. field. lra.
Qed.

(** Integers from 0 up to 2^53 are doubles: rounding leaves them. *)
Lemma round_int (q : Q) (z : Z) :
  q == inject_Z z -> safe_integer z ->
  exists q', Num.round q = Num.Fin q' /\ q' == inject_Z z.
Proof.
  intros E [Hz0 Hz]. unfold Num.round.
  destruct (Qeq_bool q 0) eqn:E0.
  - apply Qeq_bool_iff in E0. exists 0. split; [reflexivity|].
    rewrite <- E, E0. reflexivity.
  - assert (Hzpos : (0 < z)%Z).
    { destruct (Z.eq_dec z 0) as [->|]; [|lia].
      assert (Qeq_bool q 0 = true) by (apply Qeq_bool_iff; exact E). congruence. }
    assert (Hq : 0 <= q).
    { rewrite E. change 0 with (inject_Z 0). rewrite <- Zle_Qle. lia. }
    assert (Ea : Qabs q == inject_Z z) by (rewrite (Qabs_pos q Hq); exact E).
    pose proof (roundMagnitude_int (Qabs q) z Ea (conj Hzpos Hz)) as Em.
    destruct (Qle_bool (Qpower 2 1024) (Num.roundMagnitude (Qabs q))) eqn:Hov.
    + exfalso. apply Qle_bool_iff in Hov. rewrite Em in Hov.
      rewrite (Qpower2_inject 1024) in Hov by lia.
      rewrite <- Zle_Qle in Hov.
      assert (2 ^ 53 < 2 ^ 1024)%Z by (apply Z.pow_lt_mono_r; lia). lia.
    + apply Qle_bool_iff in Hq. rewrite Hq.
      exists (Num.roundMagnitude (Qabs q)). split; [reflexivity | exact Em].
Qed.

Lemma roundMagnitude_nonneg (a : Q) : 0 <= a -> 0 <= Num.roundMagnitude a.
Proof.
  intros Ha. unfold Num.roundMagnitude.
  set (p := Z.max (Num.ilog2 a - 52) (-1074)).
  assert (Hp : 0 < Qpower 2 p) by (apply Qpower_0_lt; reflexivity).
  apply Qmult_le_0_compat; [|apply Qlt_le_weak; exact Hp].
  change 0 with (inject_Z 0). rewrite <- Zle_Qle.
  apply roundEven_nonneg. apply Qle_shift_div_l; [exact Hp|]. lra.
Qed.

(** Rounding keeps the sign. *)
Lemma round_nonneg (q : Q) : 0 <= q -> nonneg_number (Num.round q).
Proof.
  intros Hq. unfold Num.round, nonneg_number.
  destruct (Qeq_bool q 0); [right; exists 0; split; [reflexivity | lra]|].
  pose proof Hq as Hb. apply Qle_bool_iff in Hb. rewrite Hb.
  destruct (Qle_bool (Qpower 2 1024) (Num.roundMagnitude (Qabs q)));
    [left; reflexivity|].
  right. eexists. split; [reflexivity|].
  apply roundMagnitude_nonneg. apply Qabs_nonneg.
Qed.

Lemma round_nonpos (q : Q) :
  q <= 0 ->
  Num.round q = Num.NInf \/ exists q', Num.round q = Num.Fin q' /\ q' <= 0.
Proof.
  intros Hq. unfold Num.round.
  destruct (Qeq_bool q 0) eqn:E0; [right; exists 0; split; [reflexivity | lra]|].
  assert (Hb : Qle_bool 0 q = false).
  { destruct (Qle_bool 0 q) eqn:Hb; [|reflexivity].
    apply Qle_bool_iff in Hb.
    assert (Qeq_bool q 0 = true) by (apply Qeq_bool_iff; lra). congruence. }
  rewrite Hb.
  destruct (Qle_bool (Qpower 2 1024) (Num.roundMagnitude (Qabs q)));
    [left; reflexivity|].
  right. eexists. split; [reflexivity|].
  pose proof (roundMagnitude_nonneg (Qabs q) (Qabs_nonneg q)). lra.
Qed.

(** Sums and products of integers are exact as long as the result is
    below 2^53. *)
Lemma mul_int (a b : Q) (x y : Z) :
  a == inject_Z x -> b == inject_Z y -> safe_integer (x * y) ->
  exists q, Num.mul (Num.Fin a) (Num.Fin b) = Num.Fin q /\ q == inject_Z (x * y).
Proof.
  intros Ea Eb H. simpl. apply round_int; [|exact H].
  rewrite Ea, Eb, inject_Z_mult. reflexivity.
Qed.

Lemma add_int (a b : Q) (x y : Z) :
  a == inject_Z x -> b == inject_Z y -> safe_integer (x + y) ->
  exists q, Num.add (Num.Fin a) (Num.Fin b) = Num.Fin q /\ q == inject_Z (x + y).
Proof.
  intros Ea Eb H. simpl. apply round_int; [|exact H].
  rewrite Ea, Eb, inject_Z_plus. reflexivity.
Qed.

(** h * 3600 + m * 60 + s on integers whose total is below 2^53. *)
Lemma hms_int (a b c : Q) (x y z : Z) :
  a == inject_Z x -> b == inject_Z y -> c == inject_Z z ->
  (0 <= x)%Z -> (0 <= y)%Z -> (0 <= z)%Z ->
  (x * 3600 + y * 60 + z < 2 ^ 53)%Z ->
  exists q, Batch.hms (Num.Fin a) (Num.Fin b) (Num.Fin c) = Num.Fin q /\
            q == inject_Z (x * 3600 + y * 60 + z).
Proof.
  intros Ea Eb Ec Hx Hy Hz Hb. unfold Batch.hms, Num.of_Z.
  destruct (mul_int a (inject_Z 3600) x 3600 Ea (Qeq_refl _)) as (q1 & M1 & E1);
    [unfold safe_integer; lia|].
  destruct (mul_int b (inject_Z 60) y 60 Eb (Qeq_refl _)) as (q2 & M2 & E2);
    [unfold safe_integer; lia|].
  rewrite M1, M2.
  destruct (add_int q1 q2 _ _ E1 E2) as (q3 & A3 & E3); [unfold safe_integer; lia|].
  rewrite A3.
  destruct (add_int q3 c _ _ E3 Ec) as (q4 & A4 & E4); [unfold safe_integer; lia|].
  exists q4. split; [exact A4 | exact E4].
Qed.

Lemma nonneg_mul (x : Num.number) (c : Q) :
  nonneg_number x -> 0 < c -> nonneg_number (Num.mul x (Num.Fin c)).
Proof.
  intros [->|(q & -> & Hq)] Hc.
  - left. simpl.
    assert (E : Qeq_bool c 0 = false).
    { destruct (Qeq_bool c 0) eqn:E; [|reflexivity]. apply Qeq_bool_iff in E. lra. }
    rewrite E. unfold Num.sign_pos.
    assert (L : Qle_bool c 0 = false).
    { destruct (Qle_bool c 0) eqn:L; [|reflexivity]. apply Qle_bool_iff in L. lra. }
    rewrite L. reflexivity.
  - simpl. apply round_nonneg. apply Qmult_le_0_compat; lra.
Qed.

Lemma nonneg_add (x y : Num.number) :
  nonneg_number x -> nonneg_number y -> nonneg_number (Num.add x y).
Proof.
  intros [->|(a & -> & Ha)] [->|(b & -> & Hb)]; simpl;
    try (left; reflexivity).
  apply round_nonneg. lra.
Qed.
End Doubles.

(** ** Time stamps: formatTime and parseTimeToSeconds *)

Section TimeNumbers.

Lemma floor_div_Z (a : Z) (p : positive) :
  Qfloor (inject_Z a / inject_Z (Zpos p)) = (a / Zpos p)%Z.
Proof.
  unfold Qdiv, Qmult, Qinv, inject_Z, Qfloor. simpl.
  rewrite Z.mul_1_r. reflexivity.
Qed.

Lemma trunc_nonneg (x : Q) : 0 <= x -> JS.trunc x = Qfloor x.
Proof.
  intros H. unfold JS.trunc. apply Qle_bool_iff in H. rewrite H. reflexivity.
Qed.

Lemma rem_Z (a : Z) (p : positive) :
  (0 <= a)%Z ->
  JS.rem (inject_Z a) (inject_Z (Zpos p)) == inject_Z (a mod Zpos p).
Proof.
  intros Ha. unfold JS.rem.
  rewrite trunc_nonneg.
  - rewrite floor_div_Z.
    rewrite (Z.mod_eq a (Zpos p)) by lia.
    unfold Qeq, Qminus, Qplus, Qmult, Qopp, inject_Z. simpl. lia.
  - unfold Qle, Qdiv, Qmult, Qinv, inject_Z. simpl. lia.
Qed.

Lemma formatTime_fields (n : Z) :
  (0 <= n)%Z ->
  JS.Math_floor (inject_Z n / 3600) = (n / 3600)%Z /\
  JS.Math_floor (JS.rem (inject_Z n) 3600 / 60) = ((n mod 3600) / 60)%Z /\
  JS.Math_floor (JS.rem (inject_Z n) 60) = (n mod 60)%Z.
Proof.
  intros Hn. unfold JS.Math_floor. split; [|split].
  - exact (floor_div_Z n 3600).
  - rewrite <- (floor_div_Z (n mod 3600) 60).
    apply Qfloor_comp.
    rewrite (rem_Z n 3600 Hn). reflexivity.
  - rewrite <- (Qfloor_Z (n mod 60)).
    apply Qfloor_comp. exact (rem_Z n 60 Hn).
Qed.

End TimeNumbers.

Section DigitStrings.
Local Open Scope string_scope.
Import Str.

Lemma allDigits_app a b : allDigits (a ++ b) = allDigits a && allDigits b.
Proof.
  induction a as [|c a IH]; simpl; [reflexivity|].
  rewrite IH, andb_assoc. reflexivity.
Qed.

Lemma string_of_uint_digits (d : Decimal.uint) :
  allDigits (DecimalString.NilEmpty.string_of_uint d) = true.
Proof. induction d; simpl; auto. Qed.

Lemma digits_allDigits (n : N) : allDigits (digits n) = true.
Proof. apply string_of_uint_digits. Qed.

Lemma digitsValue_digits (n : N) : digitsValue (digits n) = n.
Proof.
  unfold digitsValue, digits.
  rewrite DecimalString.NilEmpty.usu. apply DecimalN.Unsigned.of_to.
Qed.

Lemma digits_nonempty (n : N) : digits n <> EmptyString.
Proof.
  intros E. pose proof (digitsValue_digits n) as H. rewrite E in H.
  cbv in H. subst n. discriminate E.
Qed.

Lemma digitsValue_zero_prefix (k : nat) (s : string) :
  digitsValue (repeat "0" k ++ s) = digitsValue s.
Proof.
  induction k as [|k IH]; simpl; [reflexivity|].
  unfold digitsValue in *. simpl.
  destruct (DecimalString.NilEmpty.uint_of_string (repeat "0" k ++ s)) as [u|];
    destruct (DecimalString.NilEmpty.uint_of_string s) as [v|]; simpl in *;
    try exact IH.
Qed.


Lemma repeat_zero_digits k : allDigits (repeat "0" k) = true.
Proof. induction k; simpl; auto. Qed.

(** A field of a time stamp: digits only, not empty, with the number as
    its value. *)
Lemma pad2_field (z : Z) :
  (0 <= z)%Z ->
  allDigits (Batch.pad2 z) = true /\
  Batch.pad2 z <> EmptyString /\
  digitsValue (Batch.pad2 z) = Z.to_N z.
Proof.
  intros Hz. unfold Batch.pad2, padStart, toString.
  destruct (Z.ltb_spec z 0) as [Hneg|_]; [lia|].
  split; [|split].
  - rewrite allDigits_app, repeat_zero_digits, digits_allDigits. reflexivity.
  - intros E. apply (digits_nonempty (Z.to_N z)).
    destruct (repeat "0" (2 - String.length (digits (Z.to_N z)))); simpl in E;
      [exact E | discriminate E].
  - rewrite digitsValue_zero_prefix. apply digitsValue_digits.
Qed.

Lemma isDigit_not_white c : isDigit c = true -> isWhite c = false.
Proof.
  unfold isDigit, isWhite. intros H.
  apply andb_true_iff in H. destruct H as [H1 H2].
  apply Nat.leb_le in H1. apply Nat.leb_le in H2.
  destruct (Nat.leb_spec 9 (nat_of_ascii c)); destruct (Nat.leb_spec (nat_of_ascii c) 13);
    destruct (Nat.eqb_spec (nat_of_ascii c) 32); simpl; try reflexivity; lia.
Qed.

Lemma isDigit_not_colon c : isDigit c = true -> Ascii.eqb c ":" = false.
Proof.
  intros H. destruct (Ascii.eqb_spec c ":") as [->|]; [discriminate H | reflexivity].
Qed.

Lemma allDigits_noColon s : allDigits s = true -> noColon s = true.
Proof.
  induction s as [|c s IH]; simpl; [reflexivity|].
  intros H. apply andb_true_iff in H. destruct H as [Hc Hs].
  rewrite (isDigit_not_colon c Hc), IH by assumption. reflexivity.
Qed.

(** *** trim *)

Lemma str_app_nil_r (s : string) : s ++ EmptyString = s.
Proof. induction s as [|c s IH]; simpl; [|rewrite IH]; reflexivity. Qed.

Lemma str_app_assoc (a b c : string) : (a ++ b) ++ c = a ++ (b ++ c).
Proof. induction a as [|x a IH]; simpl; [|rewrite IH]; reflexivity. Qed.

Lemma rev_app a b : Str.rev (a ++ b) = Str.rev b ++ Str.rev a.
Proof.
  induction a as [|c a IH]; simpl.
  - rewrite str_app_nil_r. reflexivity.
  - rewrite IH, str_app_assoc. reflexivity.
Qed.

Lemma rev_involutive s : Str.rev (Str.rev s) = s.
Proof.
  induction s as [|c s IH]; simpl; [reflexivity|].
  rewrite rev_app, IH. reflexivity.
Qed.

Lemma trimStart_id s : headNotWhite s = true -> trimStart s = s.
Proof.
  destruct s as [|c s]; simpl; [reflexivity|].
  intros H. apply negb_true_iff in H. rewrite H. reflexivity.
Qed.

Lemma trim_id s :
  headNotWhite s = true -> headNotWhite (Str.rev s) = true -> trim s = s.
Proof.
  intros H1 H2. unfold trim, trimEnd.
  rewrite (trimStart_id s H1), (trimStart_id _ H2). apply rev_involutive.
Qed.

Lemma headNotWhite_app a b :
  a <> EmptyString -> headNotWhite (a ++ b) = headNotWhite a.
Proof. destruct a; [congruence | reflexivity]. Qed.

Lemma digits_headNotWhite s : allDigits s = true -> headNotWhite s = true.
Proof.
  destruct s as [|c s]; simpl; [reflexivity|].
  intros H. apply andb_true_iff in H. destruct H as [Hc _].
  rewrite (isDigit_not_white c Hc). reflexivity.
Qed.

Lemma allDigits_rev s : allDigits s = true -> allDigits (Str.rev s) = true.
Proof.
  induction s as [|c s IH]; simpl; [reflexivity|].
  intros H. apply andb_true_iff in H. destruct H as [Hc Hs].
  rewrite allDigits_app, IH by assumption. simpl. rewrite Hc. reflexivity.
Qed.

Lemma rev_nonempty s : s <> EmptyString -> Str.rev s <> EmptyString.
Proof.
  destruct s as [|c s]; [congruence|]. simpl. intros _.
  destruct (Str.rev s); discriminate.
Qed.

Lemma trim_digits s : allDigits s = true -> trim s = s.
Proof.
  intros H. apply trim_id; apply digits_headNotWhite; [|apply allDigits_rev]; exact H.
Qed.

(** *** split *)

Lemma split_nonempty sep s : Str.split sep s <> [].
Proof.
  destruct s as [|c s]; simpl; [discriminate|].
  destruct (Ascii.eqb c sep); [discriminate|].
  destruct (Str.split sep s); discriminate.
Qed.

Lemma split_noColon s : noColon s = true -> Str.split ":" s = [s].
Proof.
  induction s as [|c s IH]; simpl; [reflexivity|].
  intros H. apply andb_true_iff in H. destruct H as [Hc Hs].
  apply negb_true_iff in Hc. rewrite Hc, IH by assumption. reflexivity.
Qed.

Lemma split_field a rest :
  noColon a = true ->
  Str.split ":" (a ++ String ":" rest) = a :: Str.split ":" rest.
Proof.
  induction a as [|c a IH]; simpl; [reflexivity|].
  intros H. apply andb_true_iff in H. destruct H as [Hc Hs].
  apply negb_true_iff in Hc. rewrite Hc, IH by assumption. reflexivity.
Qed.

(** *** Number *)

Lemma spanDigits_all s : allDigits s = true -> spanDigits s = (s, EmptyString).
Proof.
  induction s as [|c s IH]; simpl; [reflexivity|].
  intros H. apply andb_true_iff in H. destruct H as [Hc Hs].
  rewrite Hc, IH by assumption. reflexivity.
Qed.

Lemma Number_digits s :
  allDigits s = true -> s <> EmptyString ->
  (Z.of_N (digitsValue s) < 2 ^ 53)%Z ->
  exists q, Number s = Num.Fin q /\ q == inject_Z (Z.of_N (digitsValue s)).
Proof.
  intros Hd Hne Hsafe. unfold Number. rewrite (trim_digits s Hd).
  destruct (String.eqb_spec s EmptyString) as [E|_]; [contradiction|].
  destruct s as [|c s]; [contradiction|].
  assert (Hc : isDigit c = true)
    by (simpl in Hd; apply andb_true_iff in Hd; tauto).
  assert (Hsign : (match String c s with
                   | String "-" r => (true, r)
                   | String "+" r => (false, r)
                   | _ => (false, String c s)
                   end) = (false, String c s)).
  { destruct c as [[|] [|] [|] [|] [|] [|] [|] [|]]; try reflexivity;
      discriminate Hc. }
  rewrite Hsign. unfold unsignedDecimal.
  rewrite (spanDigits_all _ Hd). cbn [String.eqb Ascii.eqb andb exponent String.length].
  apply round_int; [|split; [apply N2Z.is_nonneg | exact Hsafe]].
  unfold Qeq, Qplus, Qmult, Qdiv, Qinv, inject_Z. simpl. lia.
Qed.

(** *** parseTimeToSeconds on three digit fields *)

Lemma timestamp_trim (a b c : string) :
  allDigits a = true -> a <> EmptyString ->
  allDigits c = true -> c <> EmptyString ->
  trim (a ++ String ":" (b ++ String ":" c)) = a ++ String ":" (b ++ String ":" c).
Proof.
  intros Ha Hane Hc Hcne. apply trim_id.
  - rewrite headNotWhite_app by assumption. apply digits_headNotWhite; exact Ha.
  - rewrite rev_app. simpl. rewrite rev_app. simpl.
    rewrite !str_app_assoc.
    rewrite headNotWhite_app by (apply rev_nonempty; assumption).
    apply digits_headNotWhite. apply allDigits_rev. exact Hc.
Qed.

Lemma timestamp_parts (a b c : string) :
  allDigits a = true -> a <> EmptyString ->
  allDigits b = true ->
  allDigits c = true -> c <> EmptyString ->
  Batch.timeParts (a ++ String ":" (b ++ String ":" c)) = [a; b; c].
Proof.
  intros Ha Hane Hb Hc Hcne. unfold Batch.timeParts.
  rewrite timestamp_trim by assumption.
  rewrite split_field by (apply allDigits_noColon; exact Ha).
  rewrite split_field by (apply allDigits_noColon; exact Hb).
  rewrite split_noColon by (apply allDigits_noColon; exact Hc).
  simpl. rewrite !trim_digits by assumption. reflexivity.
Qed.

Lemma field_accepted q v :
  q == inject_Z (Z.of_N v) -> Batch.rejected (Num.Fin q) = false.
Proof.
  intros E. unfold Batch.rejected. simpl.
  assert (H : 0 <= q).
  { rewrite E. unfold Qle, inject_Z. simpl. lia. }
  apply Qle_bool_iff in H. rewrite H. reflexivity.
Qed.

Lemma parse_timestamp (a b c : string) :
  allDigits a = true -> a <> EmptyString ->
  allDigits b = true -> b <> EmptyString ->
  allDigits c = true -> c <> EmptyString ->
  (Z.of_N (digitsValue a) * 3600 + Z.of_N (digitsValue b) * 60
   + Z.of_N (digitsValue c) < 2 ^ 53)%Z ->
  exists q,
    Batch.parseTimeToSeconds (a ++ String ":" (b ++ String ":" c)) = Some (Num.Fin q) /\
    q == inject_Z (Z.of_N (digitsValue a) * 3600 + Z.of_N (digitsValue b) * 60
                   + Z.of_N (digitsValue c)).
Proof.
  intros Ha Hane Hb Hbne Hc Hcne Hsafe.
  pose proof (N2Z.is_nonneg (digitsValue a)) as Pa.
  pose proof (N2Z.is_nonneg (digitsValue b)) as Pb.
  pose proof (N2Z.is_nonneg (digitsValue c)) as Pc.
  destruct (Number_digits a Ha Hane ltac:(lia)) as (qa & Na & Ea).
  destruct (Number_digits b Hb Hbne ltac:(lia)) as (qb & Nb & Eb).
  destruct (Number_digits c Hc Hcne ltac:(lia)) as (qc & Nc & Ec).
  unfold Batch.parseTimeToSeconds.
  rewrite timestamp_parts by assumption.
  rewrite timestamp_trim by assumption.
  destruct (String.eqb_spec (a ++ String ":" (b ++ String ":" c)) EmptyString) as [E|_].
  { destruct a; [contradiction | discriminate E]. }
  cbn [List.length Nat.eqb Nat.ltb Nat.leb orb map].
  rewrite Na, Nb, Nc. cbn [existsb].
  rewrite (field_accepted qa _ Ea), (field_accepted qb _ Eb), (field_accepted qc _ Ec).
  cbn [orb].
  destruct (hms_int qa qb qc _ _ _ Ea Eb Ec Pa Pb Pc Hsafe) as (q & Hq & Eq).
  exists q. rewrite Hq. split; [reflexivity | exact Eq].
Qed.

End DigitStrings.

Lemma length_str_app (a b : string) :
  String.length (a ++ b) = (String.length a + String.length b)%nat.
Proof. induction a as [|c a IH]; simpl; [|rewrite IH]; reflexivity. Qed.

Lemma length_repeat c k : String.length (Str.repeat c k) = k.
Proof. induction k as [|k IH]; simpl; [|rewrite IH]; reflexivity. Qed.

Lemma pad2_length_min (z : Z) : (2 <= String.length (Batch.pad2 z))%nat.
Proof.
  unfold Batch.pad2, Str.padStart. rewrite length_str_app, length_repeat. lia.
Qed.

Lemma pad2_length_small (z : Z) :
  (0 <= z < 60)%Z -> String.length (Batch.pad2 z) = 2%nat.
Proof.
  intros H. rewrite <- (Z2Nat.id z) by lia.
  assert (Hk : (Z.to_nat z < 60)%nat) by lia.
  revert Hk. generalize (Z.to_nat z) as k. intros k Hk.
  do 60 (destruct k as [|k]; [vm_compute; reflexivity|]). lia.
Qed.

Lemma parse_null_iff (input : string) :
  Batch.parseTimeToSeconds input = None <->
  Str.trim input = EmptyString \/
  (3 < List.length (Batch.timeParts input))%nat \/
  exists p, In p (Batch.timeParts input) /\
            (Str.Number p = Num.NaN \/ Num.negative (Str.Number p) = true).
Proof.
  unfold Batch.parseTimeToSeconds.
  destruct (String.eqb_spec (Str.trim input) EmptyString) as [E|NE]; [tauto|].
  assert (Hlen : Nat.eqb (List.length (Batch.timeParts input)) 0 = false).
  { unfold Batch.timeParts. rewrite length_map.
    pose proof (split_nonempty ":" (Str.trim input)).
    destruct (Str.split ":" (Str.trim input)); [contradiction | reflexivity]. }
  rewrite Hlen. cbn [orb].
  destruct (Nat.ltb_spec 3 (List.length (Batch.timeParts input))) as [L|L]; [tauto|].
  destruct (existsb Batch.rejected (map Str.Number (Batch.timeParts input))) eqn:Ex.
  - split; [intros _|reflexivity]. right. right.
    apply existsb_exists in Ex. destruct Ex as (x & Hx & Hr).
    apply in_map_iff in Hx. destruct Hx as (p & <- & Hp).
    exists p. split; [exact Hp|].
    unfold Batch.rejected in Hr. apply orb_true_iff in Hr.
    destruct Hr as [Hr|Hr]; [left | right; exact Hr].
    destruct (Str.Number p); try discriminate Hr; reflexivity.
  - split.
    + destruct (map Str.Number (Batch.timeParts input)) as [|? [|? [|? [|? ?]]]];
        intros H; discriminate H.
    + intros [H|[H|(p & Hp & Hr)]]; [contradiction | lia |].
      exfalso.
      assert (Hex : existsb Batch.rejected (map Str.Number (Batch.timeParts input)) = true).
      { apply existsb_exists. exists (Str.Number p). split; [apply in_map; exact Hp|].
        unfold Batch.rejected. destruct Hr as [-> | ->]; [reflexivity | apply orb_true_r]. }
      congruence.
Qed.

(** C8, as stated, fails for large n: the sum h * 3600 + m * 60 + s is
    computed in doubles, and from 2^53 on not every integer is one.  For
    n = 36028797018964024, which is a double, formatTime gives
    10007999171934:27:04 and parseTimeToSeconds reads it as
    36028797018964016. *)
Lemma parseTimeToSeconds_formatTime_rounds_large :
  exists q,
    Batch.parseTimeToSeconds (Batch.formatTime (inject_Z 36028797018964024))
      = Some (Num.Fin q) /\
    q == inject_Z 36028797018964016 /\
    ~ q == inject_Z 36028797018964024.
Proof.
  eexists. split; [vm_compute; reflexivity|].
  split; [vm_compute; reflexivity|].
  intros H. vm_compute in H. discriminate H.
Qed.

(** C8, amended. For a nonnegative integer n below 2^53, formatTime n is
    hh:mm:ss with fields of at least two digits, the minute and second
    fields below 60 and h * 3600 + m * 60 + s = n, and parseTimeToSeconds
    gives n back; parseTimeToSeconds is null exactly for an empty input,
    more than three parts, a part that is not a number, or a negative
    part. *)
Theorem parseTimeToSeconds_formatTime (n : Z) :
  (0 <= n < 2 ^ 53)%Z ->
  (exists h m s : Z,
     Batch.formatTime (inject_Z n)
       = (Batch.pad2 h ++ ":" ++ Batch.pad2 m ++ ":" ++ Batch.pad2 s)%string /\
     (0 <= h /\ 0 <= m < 60 /\ 0 <= s < 60 /\ n = h * 3600 + m * 60 + s)%Z /\
     (2 <= String.length (Batch.pad2 h) /\ String.length (Batch.pad2 m) = 2 /\
      String.length (Batch.pad2 s) = 2)%nat) /\
  (exists q, Batch.parseTimeToSeconds (Batch.formatTime (inject_Z n)) = Some (Num.Fin q) /\
             q == inject_Z n) /\
  (forall input,
     Batch.parseTimeToSeconds input = None <->
     Str.trim input = EmptyString \/
     (3 < List.length (Batch.timeParts input))%nat \/
     exists p, In p (Batch.timeParts input) /\
               (Str.Number p = Num.NaN \/ Num.negative (Str.Number p) = true)).
Proof.
  intros [Hn Hsafe].
  destruct (formatTime_fields n Hn) as (Eh & Em & Es).
  assert (Hfmt : Batch.formatTime (inject_Z n)
                 = (Batch.pad2 (n / 3600) ++ ":" ++ Batch.pad2 (n mod 3600 / 60) ++ ":"
                    ++ Batch.pad2 (n mod 60))%string).
  { unfold Batch.formatTime. rewrite Eh, Em, Es. reflexivity. }
  assert (Hrange : (0 <= n / 3600 /\ 0 <= n mod 3600 / 60 < 60 /\ 0 <= n mod 60 < 60 /\
                    n = n / 3600 * 3600 + n mod 3600 / 60 * 60 + n mod 60)%Z).
  { Z.div_mod_to_equations. lia. }
  destruct Hrange as (Rh & Rm & Rs & Rn).
  split; [|split].
  - exists (n / 3600)%Z, (n mod 3600 / 60)%Z, (n mod 60)%Z.
    split; [exact Hfmt|]. split; [auto|].
    split; [apply pad2_length_min|].
    split; apply pad2_length_small; assumption.
  - rewrite Hfmt.
    destruct (pad2_field (n / 3600) Rh) as (Dh & Nh & Vh).
    destruct (pad2_field (n mod 3600 / 60) (proj1 Rm)) as (Dm & Nm & Vm).
    destruct (pad2_field (n mod 60) (proj1 Rs)) as (Ds & Ns & Vs).
    assert (Hb : (Z.of_N (Str.digitsValue (Batch.pad2 (n / 3600))) * 3600
                  + Z.of_N (Str.digitsValue (Batch.pad2 (n mod 3600 / 60))) * 60
                  + Z.of_N (Str.digitsValue (Batch.pad2 (n mod 60))) < 2 ^ 53)%Z).
    { rewrite Vh, Vm, Vs, !Z2N.id by lia. rewrite <- Rn. exact Hsafe. }
    destruct (parse_timestamp _ _ _ Dh Nh Dm Nm Ds Ns Hb) as (q & Hp & Hq).
    exists q. split; [exact Hp|].
    rewrite Hq, Vh, Vm, Vs, !Z2N.id by lia. rewrite <- Rn. reflexivity.
  - exact parse_null_iff.
Qed.

Lemma parseTimeToSeconds_formatTime_witness :
  (0 <= 3725 < 2 ^ 53)%Z /\
  exists q, Batch.parseTimeToSeconds (Batch.formatTime (inject_Z 3725)) = Some (Num.Fin q) /\
            q == inject_Z 3725.
Proof.
  assert (H : (0 <= 3725 < 2 ^ 53)%Z) by (split; [lia | reflexivity]).
  split; [exact H|].
  apply (parseTimeToSeconds_formatTime 3725). exact H.
Defined.
(** ** The range list: end after start *)

Section RangeOrder.
Import Hook.

Lemma not_le_bool_lt (a b : Q) : Qle_bool a b = false -> b < a.
Proof.
  intros H. destruct (Qlt_le_dec b a) as [Hlt|Hle]; [exact Hlt|].
  apply Qle_bool_iff in Hle. congruence.
Qed.

(** The set-start/set-end workflow, when no range is being edited, adds a
    range only if it ends after it starts. *)
Lemma handleSetEnd_add_valid (uuid : string) (s : Editor.State) (page : App.State) :
  Editor.editingRangeId s = None ->
  ranges_valid (App.timeRanges page) ->
  ranges_valid (App.timeRanges (snd (Editor.handleSetEnd uuid s page))).
Proof.
  intros He Hv. unfold Editor.handleSetEnd. rewrite He.
  destruct (Editor.pendingStart s) as [p|]; [|exact Hv].
  cbn [snd].
  destruct (Qle_bool (JS.Math_max p (Editor.currentTime s))
                     (JS.Math_min p (Editor.currentTime s))) eqn:E; [exact Hv|].
  simpl. unfold ranges_valid. apply Forall_app. split; [exact Hv|].
  constructor; [|constructor]. simpl. apply not_le_bool_lt. exact E.
Qed.

(** The range selector adds nothing when end <= start, and otherwise keeps
    the order of every range. *)
Lemma rangeSelector_handleAdd_valid (now : string)
    (ranges : list RangeSelector.TimeRange) (duration : Q) (s : RangeSelector.State) :
  Forall (fun r => RangeSelector.start r < RangeSelector.end_ r) ranges ->
  match fst (RangeSelector.handleAdd now ranges duration s) with
  | Some l =>
      RangeSelector.startCell s < RangeSelector.endCell s /\
      Forall (fun r => RangeSelector.start r < RangeSelector.end_ r) l
  | None => RangeSelector.endCell s <= RangeSelector.startCell s
  end.
Proof.
  intros Hv. unfold RangeSelector.handleAdd.
  destruct (Qle_bool (RangeSelector.endCell s) (RangeSelector.startCell s)) eqn:E; simpl.
  - apply Qle_bool_iff. exact E.
  - apply not_le_bool_lt in E. split; [exact E|].
    rewrite Forall_forall in *. intros r Hr.
    apply (proj1 (sortBy_In RangeSelector.start _ _)) in Hr.
    apply in_app_or in Hr. destruct Hr as [Hr|[<-|[]]]; [auto | exact E].
Qed.

(** A batch line that is kept has end > start. *)
Lemma classifyLine_ordered (clamp : bool) (duration : Q) (n : nat) (line : string)
    (start end_ : option Q) :
  line_ordered (Batch.classifyLine clamp duration n line start end_).
Proof.
  unfold line_ordered, Batch.classifyLine.
  destruct start as [s|], end_ as [e|]; try (simpl; discriminate).
  destruct (Qle_bool e s); [simpl; discriminate|].
  match goal with |- context [if ?c && (?x || ?y) then _ else _] =>
    destruct (c && (x || y)); [simpl; discriminate|] end.
  match goal with |- context [if Qle_bool ?x ?y then _ else _] =>
    destruct (Qle_bool x y) eqn:E; [simpl; discriminate|] end.
  simpl. intros _. apply not_le_bool_lt. exact E.
Qed.

Lemma validRanges_valid (preview : list Batch.BatchParseLine) :
  Forall line_ordered preview -> Forall span_valid (Batch.validRanges preview).
Proof.
  induction 1 as [|item l Hi Hl IH]; simpl; [constructor|].
  apply Forall_app. split; [|exact IH].
  unfold line_ordered in Hi.
  destruct (Batch.hasError item); [constructor|].
  destruct (Batch.startSeconds item); [|constructor].
  destruct (Batch.endSeconds item); [|constructor].
  constructor; [|constructor]. apply Hi. reflexivity.
Qed.

Lemma mapi_ranges_valid (uuid : nat -> string) (l : list Batch.Span) : forall i,
  Forall span_valid l ->
  ranges_valid (Arr.mapi (fun i item => {| id := uuid i;
                                           startTime := Batch.spanStart item;
                                           endTime := Batch.spanEnd item |}) i l).
Proof.
  induction l as [|x l IH]; intros i Hv; simpl; [constructor|].
  inversion Hv; subst. constructor; [assumption | apply IH; assumption].
Qed.

(** Batch import hands onSetRanges a list in which every range ends after
    it starts, with or without merging, replacing or appending. *)
Lemma applyBatchRanges_valid (merge ignoreInvalid : bool) (uuid : nat -> string)
    (preview : list Batch.BatchParseLine) (ranges : list TimeRange)
    (mode : Batch.Mode) (next : list TimeRange) :
  Forall line_ordered preview ->
  ranges_valid ranges ->
  Batch.applyBatchRanges merge ignoreInvalid uuid preview ranges mode = inl next ->
  ranges_valid next.
Proof.
  intros Hp Hr. unfold Batch.applyBatchRanges.
  destruct (negb ignoreInvalid && Nat.ltb 0 (Batch.invalidCount preview));
    [discriminate|].
  destruct (Nat.eqb (List.length (Batch.validRanges preview)) 0); [discriminate|].
  pose proof (validRanges_valid preview Hp) as Hv.
  assert (Hn : Forall span_valid
                 (if merge then Batch.mergeRanges (Batch.validRanges preview)
                  else Batch.validRanges preview)).
  { destruct merge; [|exact Hv]. apply mergeRanges_good. exact Hv. }
  pose proof (mapi_ranges_valid uuid _ 0%nat Hn) as Hm.
  destruct mode; intros [= <-]; [exact Hm|].
  unfold ranges_valid. apply Forall_app. split; assumption.
Qed.
End RangeOrder.

(** C1. A list holding the range 10 s to 20 s: the user presses edit on it,
    moves the slider to 30 s and presses set-start.  handleSetStart passes
    startTime 30 to onUpdateRange without comparing it with the end, and the
    list then holds a range that starts at 30 s and ends at 20 s. *)
Theorem editing_start_inverts_range :
  let e1 := Editor.handleEditRange ten_to_twenty mounted_editor in
  let e2 := Editor.handleSeek (Some file_source) 30 e1 in
  let page' := snd (Editor.handleSetStart e2 page_with_one_range) in
  ranges_valid (App.timeRanges page_with_one_range) /\
  exists r,
    App.timeRanges page' = [r] /\
    Hook.id r = "a"%string /\
    Qeq_bool (Hook.startTime r) 30 = true /\
    Qeq_bool (Hook.endTime r) 20 = true /\
    ~ Hook.startTime r < Hook.endTime r.
Proof.
  cbv zeta. split.
  - repeat constructor.
  - eexists. split; [vm_compute; reflexivity|].
    repeat split. intros H. vm_compute in H. discriminate H.
Qed.

(** ** More on the preview window and on seeking *)

Lemma clampTime_cases (d t : Q) :
  0 <= Window.clampTime d t /\
  (0 < d -> Window.clampTime d t <= d) /\
  (0 <= t -> (0 < d -> t <= d) -> Window.clampTime d t == t).
Proof.
  unfold Window.clampTime, JS.Math_min, JS.Math_max.
  destruct (Qlt_le_dec 0 d) as [Hd|Hd].
  - destruct (Qmax_cases t 0) as [[? E1]|[? E1]];
      destruct (Qmin_cases (Qmax t 0) d) as [[? E2]|[? E2]];
      repeat split; intros; try lra;
      match goal with H : 0 < d -> _ |- _ => specialize (H Hd); lra end.
  - destruct (Qmax_cases t 0) as [[? E1]|[? E1]]; repeat split; intros; lra.
Qed.

(** X1. clampTime keeps a time inside the timeline: the result is never
    negative, never beyond a positive duration, a time already inside is
    returned unchanged, and clamping twice is clamping once. *)
Theorem clampTime_within_timeline (d t : Q) :
  0 <= Window.clampTime d t /\
  (0 < d -> Window.clampTime d t <= d) /\
  (0 <= t -> (0 < d -> t <= d) -> Window.clampTime d t == t) /\
  Window.clampTime d (Window.clampTime d t) == Window.clampTime d t.
Proof.
  destruct (clampTime_cases d t) as (H0 & Hd & Hid).
  split; [exact H0|]. split; [exact Hd|]. split; [exact Hid|].
  apply (clampTime_cases d (Window.clampTime d t)); assumption.
Qed.

Lemma computeWindowStart_near (d target : Q) :
  0 <= target -> (0 < d -> target <= d) ->
  let w := Window.computeWindowStart d target in
  0 <= w /\ w <= target /\
  target - w < Window.HLS_WINDOW_SECONDS + Window.HLS_SEGMENT_SECONDS.
Proof.
  intros Ht Hd w.
  unfold w, Window.computeWindowStart, JS.Math_min, JS.Math_max, JS.Math_floor,
    Window.HLS_WINDOW_PADDING, Window.HLS_WINDOW_SECONDS, Window.HLS_SEGMENT_SECONDS.
  set (pad := Qmin 0 (10 * 60 / 2)).
  assert (Epad : pad == 0).
  { unfold pad. destruct (Qmin_cases 0 (10 * 60 / 2)) as [[? E]|[H E]]; [exact E|].
    exfalso. revert H. unfold Qle, Qdiv, Qmult, Qinv; simpl. lia. }
  set (maxStart := if Qlt_le_dec 0 d then Qmax 0 (d - 10 * 60) else Qmax 0 (target - pad)).
  set (raw := Qmin (Qmax (target - pad) 0) maxStart).
  assert (Hraw : 0 <= raw /\ raw <= target /\ target - raw <= 10 * 60).
  { unfold raw, maxStart.
    destruct (Qlt_le_dec 0 d) as [Hp|Hn].
    - specialize (Hd Hp).
      destruct (Qmax_cases 0 (d - 10 * 60)) as [[? E0]|[? E0]];
        destruct (Qmax_cases (target - pad) 0) as [[? E1]|[? E1]];
        destruct (Qmin_cases (Qmax (target - pad) 0) (Qmax 0 (d - 10 * 60)))
          as [[? E2]|[? E2]];
        repeat split; lra.
    - destruct (Qmax_cases 0 (target - pad)) as [[? E0]|[? E0]];
        destruct (Qmax_cases (target - pad) 0) as [[? E1]|[? E1]];
        destruct (Qmin_cases (Qmax (target - pad) 0) (Qmax 0 (target - pad)))
          as [[? E2]|[? E2]];
        repeat split; lra. }
  destruct Hraw as (H0 & H1 & H2).
  destruct (floor_half_bounds raw H0) as [Hk Hle].
  pose proof (Qlt_floor (raw / 2)) as Hlt.
  assert (Ek : inject_Z (Qfloor (raw / 2) + 1) == inject_Z (Qfloor (raw / 2)) + 1)
    by (rewrite inject_Z_plus; reflexivity).
  assert (Er : raw == (raw / 2) * 2) by field.
  assert (Hk' : 0 <= inject_Z (Qfloor (raw / 2)))
    by (change 0 with (inject_Z 0); rewrite <- Zle_Qle; exact Hk).
  repeat split; lra.
Qed.

Section SeekMore.
Import Editor.
Variable d : Q.

(** X2. Without a source every seek is deferred and recorded as pending;
    with a direct-file source no seek is: the media element is moved to the
    clamped target, windowStart and the pending seek stay, and the next
    render sends no prepare_hls_source_command call. *)
Theorem seek_without_playlist (time : Q) (s : State) (src : Preview.PreviewSource)
    (filePath : string) :
  Preview.kind src = Preview.file ->
  let target := Window.clampTime d time in
  (snd (seekToAbsolute d None time s) = true /\
   pendingSeek (fst (seekToAbsolute d None time s)) = Some target /\
   isLoading (fst (seekToAbsolute d None time s)) = true) /\
  (let r := seekToAbsolute d (Some src) time s in
   snd r = false /\
   currentTime (fst r) = target /\
   option_map v_currentTime (video (fst r))
     = option_map (fun _ => target) (video s) /\
   windowStart (fst r) = windowStart s /\
   pendingSeek (fst r) = pendingSeek s /\
   isLoading (fst r) = isLoading s /\
   forall p, Preview.afterRender (previewDeps filePath s)
               (previewDeps filePath (fst r)) p = (p, None)).
Proof.
  intros Hk target. split; [repeat split|].
  unfold seekToAbsolute. rewrite Hk. fold target. cbn [fst snd].
  split; [reflexivity|]. split; [reflexivity|].
  split; [simpl; destruct (video s); reflexivity|].
  split; [reflexivity|]. split; [reflexivity|]. split; [reflexivity|].
  intros p. unfold Preview.afterRender.
  rewrite sameDeps_previewDeps by reflexivity.
  simpl. rewrite (proj2 (Qeq_bool_iff _ _) (Qeq_refl _)). reflexivity.
Qed.

(** X3. With a playlist source, a seek outside the window whose recomputed
    windowStart differs from the current one makes the next render send a
    prepare_hls_source_command call for the editor's file, starting at the
    recomputed windowStart and 600 s long. *)
Theorem deferred_seek_sends_window_call (time : Q) (s : State)
    (src : Preview.PreviewSource) (filePath : string) (p : Preview.State) :
  Preview.kind src = Preview.hls ->
  let target := Window.clampTime d time in
  ~ (windowStart s <= target /\ target <= windowStart s + Window.HLS_WINDOW_SECONDS) ->
  filePath <> EmptyString ->
  ~ windowStart s == Window.computeWindowStart d target ->
  exists args,
    snd (Preview.afterRender (previewDeps filePath s)
           (previewDeps filePath (fst (seekToAbsolute d (Some src) time s))) p)
    = Some args /\
    Preview.a_inputPath args = filePath /\
    Preview.a_startSeconds args = Window.computeWindowStart d target /\
    Preview.a_windowSeconds args = Window.HLS_WINDOW_SECONDS /\
    Preview.isPreparing
      (fst (Preview.afterRender (previewDeps filePath s)
              (previewDeps filePath (fst (seekToAbsolute d (Some src) time s))) p))
    = true.
Proof.
  intros Hk target Hout Hf Hne.
  rewrite (seekToAbsolute_outside d src Hk time s Hout). fold target. cbn [fst].
  unfold Preview.afterRender.
  rewrite sameDeps_previewDeps by reflexivity.
  change (windowStart (deferSeek d target s))
    with (Window.computeWindowStart d target).
  destruct (Qeq_bool (windowStart s) (Window.computeWindowStart d target)) eqn:E.
  - apply Qeq_bool_iff in E. contradiction.
  - unfold Preview.runEffect.
    change (Preview.d_filePath (previewDeps filePath (deferSeek d target s)))
      with filePath.
    destruct (String.eqb filePath EmptyString) eqn:Ef.
    + apply String.eqb_eq in Ef. contradiction.
    + eexists. split; [reflexivity|]. repeat split.
Qed.

Lemma applyPendingSeek_playlist (off : Q) (s : State) (src : Preview.PreviewSource)
    (p : Q) (v : VideoElement) :
  Preview.kind src = Preview.hls ->
  pendingSeek s = Some p -> video s = Some v ->
  Playback.applyPendingSeek d (Some src) off s
  = setPendingSeek None
      (setCurrentTime (Window.clampTime d p)
         (setVideoTime
            (JS.Math_max 0 (Window.clampTime d p - windowStart s + off)) s)).
Proof.
  intros Hk Hp Hv. unfold Playback.applyPendingSeek, Playback.isHls.
  rewrite Hp, Hv, Hk. reflexivity.
Qed.

(** The cell hlsStartOffset starts at 0 and the listener only stores
    starts that are not negative. *)
Lemma handleStartOffset_nonneg (start : option Num.number) (off : Q) :
  0 <= off -> 0 <= Playback.handleStartOffset start off.
Proof.
  intros H. unfold Playback.handleStartOffset.
  destruct start as [[| | |q]|]; try exact H.
  destruct (Qle_bool 0 q) eqn:E; [apply Qle_bool_iff; exact E | exact H].
Qed.

(** X4. A deferred seek is completed by the next canplay event of the
    playlist, whatever start offset the playlist has reported in between:
    loading ends, the pending seek is cleared, currentTime is the target,
    and the media element stands at target - windowStart + hlsStartOffset,
    which is at least the offset and less than 602 s beyond it; play() is
    called exactly when autoplay was requested, and the request is then
    cleared. *)
Theorem canplay_completes_deferred_seek (time off : Q) (s : State)
    (src : Preview.PreviewSource) (v : VideoElement) (autoPlay : bool) :
  Preview.kind src = Preview.hls ->
  video s = Some v ->
  0 <= off ->
  let target := Window.clampTime d time in
  let s1 := deferSeek d target s in
  let r := Playback.handleCanPlay d (Some src) off autoPlay s1 in
  let s2 := fst (fst r) in
  isLoading s2 = false /\
  pendingSeek s2 = None /\
  currentTime s2 == target /\
  (exists m, option_map v_currentTime (video s2) = Some m /\
             m == target - windowStart s1 + off /\
             off <= m /\
             m < off + Window.HLS_WINDOW_SECONDS + Window.HLS_SEGMENT_SECONDS) /\
  snd (fst r) = false /\
  snd r = autoPlay.
Proof.
  intros Hk Hv Hoff target s1 r s2.
  destruct (clampTime_cases d time) as (T0 & Td & _). fold target in T0, Td.
  destruct (clampTime_cases d target) as (_ & _ & Tid).
  specialize (Tid T0 Td).
  destruct (computeWindowStart_near d target T0 Td) as (W0 & W1 & W2).
  assert (Hs1 : video s1 = Some v) by (unfold s1, deferSeek; simpl; exact Hv).
  assert (Hr : r = (Playback.applyPendingSeek d (Some src) off (setIsLoading false s1),
                    false, autoPlay)).
  { unfold r, Playback.handleCanPlay. rewrite Hs1. destruct autoPlay; reflexivity. }
  unfold s2. rewrite Hr. cbn [fst snd].
  rewrite (applyPendingSeek_playlist off (setIsLoading false s1) src target v Hk
             eq_refl Hs1).
  change (windowStart (setIsLoading false s1))
    with (Window.computeWindowStart d target).
  change (windowStart s1) with (Window.computeWindowStart d target).
  split; [reflexivity|]. split; [reflexivity|]. split; [exact Tid|].
  split; [|split; reflexivity].
  exists (JS.Math_max 0
            (Window.clampTime d target - Window.computeWindowStart d target + off)).
  split.
  { cbn [video setPendingSeek setCurrentTime setVideoTime setIsLoading].
    rewrite Hs1. reflexivity. }
  unfold JS.Math_max.
  destruct (Qmax_cases 0
              (Window.clampTime d target - Window.computeWindowStart d target + off))
    as [[Hc Em]|[Hc Em]]; repeat split; lra.
Qed.

End SeekMore.

(** X6. Retry always asks for the playlist again: handleRetry clears both
    error texts, enters loading and raises retryToken, so the dependency
    array of usePreviewSource changes and the next render sends a call for
    the same window. *)
Theorem retry_sends_call_again (s : Editor.State) (filePath : string)
    (p : Preview.State) :
  filePath <> EmptyString ->
  let s' := Playback.handleRetry s in
  Editor.error s' = None /\ Editor.hlsError s' = None /\
  Editor.isLoading s' = true /\
  Editor.overlayMessage s' = None /\
  exists args,
    snd (Preview.afterRender (Editor.previewDeps filePath s)
           (Editor.previewDeps filePath s') p) = Some args /\
    Preview.a_inputPath args = filePath /\
    Preview.a_startSeconds args = Editor.windowStart s /\
    Preview.a_windowSeconds args = Window.HLS_WINDOW_SECONDS.
Proof.
  intros Hf s'. repeat (split; [reflexivity|]).
  unfold Preview.afterRender, Preview.sameDeps, Editor.previewDeps, Preview.deps,
    Preview.orDefault.
  cbn [Preview.d_filePath Preview.d_minSizeBytes Preview.d_segmentSeconds
       Preview.d_startSeconds Preview.d_windowSeconds Preview.d_requestKey
       Preview.minSizeBytes Preview.segmentSeconds Preview.startSeconds
       Preview.windowSeconds Preview.requestKey].
  assert (Hk : Qeq_bool (Editor.retryToken s) (Editor.retryToken s') = false).
  { destruct (Qeq_bool (Editor.retryToken s) (Editor.retryToken s')) eqn:E;
      [|reflexivity].
    apply Qeq_bool_iff in E. unfold s' in E. simpl in E. lra. }
  rewrite Hk, andb_false_r.
  unfold Preview.runEffect. cbn [Preview.d_filePath].
  destruct (String.eqb filePath EmptyString) eqn:Ef.
  - apply String.eqb_eq in Ef. contradiction.
  - eexists. split; [reflexivity|]. repeat split.
Qed.

(** X7. The life of one usePreviewSource call for a non-empty path: the
    effect clears the source and the error and sets isPreparing; when the
    call settles and was not cancelled, isPreparing is false, there is a
    source exactly if the host resolved with a non-empty path, and there is
    an error exactly if the call was rejected; a cancelled call changes
    nothing.  For an empty path no call is sent. *)
Theorem preview_call_lifecycle (deps : Preview.Deps)
    (o : Hook.Settled (option Preview.HostSource)) :
  (Preview.d_filePath deps = EmptyString -> snd (Preview.runEffect deps) = None) /\
  (Preview.d_filePath deps <> EmptyString ->
   let s0 := fst (Preview.runEffect deps) in
   let s1 := Preview.settle false o s0 in
   snd (Preview.runEffect deps) <> None /\
   Preview.source s0 = None /\ Preview.prepareError s0 = None /\
   Preview.isPreparing s0 = true /\
   Preview.isPreparing s1 = false /\
   (Preview.source s1 <> None <->
    exists r, o = Hook.Resolved (Some r) /\ Preview.host_path r <> EmptyString) /\
   (Preview.prepareError s1 <> None <-> exists e, o = Hook.Rejected e) /\
   Preview.settle true o s0 = s0).
Proof.
  unfold Preview.runEffect. split.
  - intros E. rewrite E. reflexivity.
  - intros Hf.
    destruct (String.eqb_spec (Preview.d_filePath deps) EmptyString) as [E|_];
      [contradiction|].
    cbn [fst snd]. split; [discriminate|].
    do 4 (split; [reflexivity|]).
    split; [|split; [|reflexivity]].
    + destruct o as [[r|]|e]; simpl.
      * destruct (String.eqb_spec (Preview.host_path r) EmptyString) as [E|NE]; simpl.
        -- split; [intros H; exfalso; apply H; reflexivity|].
           intros (r' & H1 & H2). injection H1 as <-. contradiction.
        -- split; [intros _; exists r; auto | discriminate].
      * split; [intros H; exfalso; apply H; reflexivity|].
        intros (r' & H & _). discriminate H.
      * split; [intros H; exfalso; apply H; reflexivity|].
        intros (r' & H & _). discriminate H.
    + destruct o as [[r|]|e]; simpl.
      * destruct (String.eqb (Preview.host_path r) EmptyString); simpl;
          (split; [intros H; exfalso; apply H; reflexivity|];
           intros (e & H); discriminate H).
      * split; [intros H; exfalso; apply H; reflexivity|].
        intros (e & H). discriminate H.
      * split; [intros _; exists e; reflexivity | discriminate].
Qed.

(** ** More on the page *)

Section PageMore.
Import Hook App.


(** X9. When the split button is enabled, a click sends exactly one call,
    for the selected file and output directory: in interval mode
    split_video_command with the segment duration, in ranges mode
    split_video_by_ranges_command with one payload element per range of the
    list, which is not empty. *)
Theorem handleSplit_sends_one_call (s : App.State) :
  canSplit s = true ->
  exists file,
    selectedFile s = Some file /\ file <> EmptyString /\
    outputDir s <> EmptyString /\
    isProcessing (hook (handleSplit s)) = true /\
    match splitMode s with
    | interval =>
        inFlight (handleSplit s)
        = inFlight s ++ [split_video_command file (outputDir s) (segmentDuration s)] /\
        0 < segmentDuration s
    | ranges =>
        inFlight (handleSplit s)
        = inFlight s ++ [split_video_by_ranges_command file (outputDir s)
                           (rangesPayload (timeRanges s))] /\
        timeRanges s <> []
    end.
Proof.
  unfold canSplit, handleSplit. intros Hc.
  repeat (apply andb_true_iff in Hc; destruct Hc as [Hc ?]).
  destruct (selectedFile s) as [file|]; [|discriminate].
  simpl in Hc. exists file.
  match goal with H : truthy (outputDir s) = true |- _ => rename H into Ho end.
  rewrite Hc, Ho. cbn [negb orb].
  split; [reflexivity|].
  split; [intros ->; discriminate Hc|].
  split; [intros E; rewrite E in Ho; discriminate Ho|].
  destruct (splitMode s); cbn [fst snd].
  - split; [reflexivity|]. split; [reflexivity|].
    match goal with H : negb (Qle_bool _ _) = true |- _ =>
      apply negb_true_iff in H; apply not_le_bool_lt in H; exact H end.
  - split; [reflexivity|]. split; [reflexivity|].
    destruct (timeRanges s); [discriminate | discriminate].
Qed.

(** X10. A split that resolves with success = false shows nothing: the
    result is stored, but neither the file list nor the error panel is
    rendered, whatever the error field of the result says. *)
Theorem unsuccessful_result_is_silent (i o : string) (d : Q) (h : Hook.State)
    (r : SplitResult) :
  success r = false ->
  let h' := split_settle (Resolved r) (fst (splitVideo_begin i o d h)) in
  result h' = Some r /\
  isProcessing h' = false /\
  resultList h' = None /\
  errorPanel h' = None.
Proof.
  intros Hs h'. split; [reflexivity|]. split; [reflexivity|].
  split; [unfold resultList; simpl; rewrite Hs; reflexivity | reflexivity].
Qed.

(** X11. handleDeleteRange removes exactly the ranges with the given id and
    keeps the others in their order; it keeps end > start for every range. *)
Theorem handleDeleteRange_removes_id (i : string) (s : App.State) :
  (forall r, In r (timeRanges (handleDeleteRange i s)) <->
             In r (timeRanges s) /\ id r <> i) /\
  (exists keep, timeRanges (handleDeleteRange i s) = filter keep (timeRanges s)) /\
  (List.length (timeRanges (handleDeleteRange i s)) <= List.length (timeRanges s))%nat /\
  (ranges_valid (timeRanges s) -> ranges_valid (timeRanges (handleDeleteRange i s))).
Proof.
  unfold handleDeleteRange. simpl. split; [|split; [|split]].
  - intros r. rewrite filter_In. rewrite negb_true_iff.
    destruct (String.eqb_spec (id r) i); intuition congruence.
  - eexists. reflexivity.
  - apply filter_length_le.
  - unfold ranges_valid. rewrite !Forall_forall. intros H r Hr.
    apply filter_In in Hr. apply H. tauto.
Qed.

(** X12. handleUpdateRange with a start or an end time (the editor never
    passes an id) keeps the number, the order and the ids of the ranges,
    leaves every range with another id as it is, and gives the ranges with
    that id the new times. *)
Theorem handleUpdateRange_touches_one_id (i : string) (n : PartialTimeRange)
    (s : App.State) :
  p_id n = None ->
  map id (timeRanges (handleUpdateRange i n s)) = map id (timeRanges s) /\
  forall k r, nth_error (timeRanges s) k = Some r ->
    exists r', nth_error (timeRanges (handleUpdateRange i n s)) k = Some r' /\
      (id r <> i -> r' = r) /\
      (id r = i ->
         startTime r' = match p_startTime n with Some t => t | None => startTime r end /\
         endTime r' = match p_endTime n with Some t => t | None => endTime r end).
Proof.
  intros Hn. unfold handleUpdateRange. simpl. split.
  - rewrite map_map. apply map_ext. intros r.
    destruct (String.eqb (id r) i); [|reflexivity].
    unfold spread. rewrite Hn. reflexivity.
  - intros k r Hk. rewrite nth_error_map, Hk. simpl.
    eexists. split; [reflexivity|].
    destruct (String.eqb_spec (id r) i) as [E|NE]; split; intros H;
      try contradiction; try reflexivity.
    unfold spread. simpl. split; reflexivity.
Qed.
End PageMore.

(** ** More on time stamps and batch lines *)

Lemma accepted_nonneg (x : Num.number) :
  Batch.rejected x = false -> nonneg_number x.
Proof.
  unfold Batch.rejected, nonneg_number. intros H.
  apply orb_false_iff in H. destruct H as [Hn Hs].
  destruct x as [| | |a]; try discriminate; [left; reflexivity|].
  right. exists a. split; [reflexivity|].
  simpl in Hs. apply negb_false_iff in Hs. apply Qle_bool_iff in Hs. exact Hs.
Qed.

Lemma hms_accepted (h m s : Num.number) :
  Batch.rejected h = false -> Batch.rejected m = false -> Batch.rejected s = false ->
  Batch.hms h m s = Num.PInf \/ exists q, Batch.hms h m s = Num.Fin q /\ 0 <= q.
Proof.
  intros Hh Hm Hs. unfold Batch.hms, Num.of_Z.
  apply nonneg_add; [|apply accepted_nonneg; exact Hs].
  apply nonneg_add; apply nonneg_mul;
    try (apply accepted_nonneg; assumption); reflexivity.
Qed.

(** X13. parseTimeToSeconds never returns NaN or a negative number: a
    result that is not null is a nonnegative number or Infinity. *)
Theorem parseTimeToSeconds_nonnegative (input : string) (v : Num.number) :
  Batch.parseTimeToSeconds input = Some v ->
  v = Num.PInf \/ exists q, v = Num.Fin q /\ 0 <= q.
Proof.
  unfold Batch.parseTimeToSeconds.
  destruct (String.eqb (Str.trim input) EmptyString); [discriminate|].
  destruct (Nat.eqb (List.length (Batch.timeParts input)) 0
            || Nat.ltb 3 (List.length (Batch.timeParts input))) eqn:El; [discriminate|].
  apply orb_false_iff in El. destruct El as [_ El].
  assert (Hlen : List.length (map Str.Number (Batch.timeParts input))
                 = List.length (Batch.timeParts input)) by apply length_map.
  destruct (existsb Batch.rejected (map Str.Number (Batch.timeParts input))) eqn:Ex;
    [discriminate|].
  assert (Hall : forall x, In x (map Str.Number (Batch.timeParts input)) ->
                           Batch.rejected x = false).
  { intros x Hx. destruct (Batch.rejected x) eqn:E; [|reflexivity].
    assert (existsb Batch.rejected (map Str.Number (Batch.timeParts input)) = true)
      by (apply existsb_exists; exists x; auto).
    congruence. }
  assert (H0 : Batch.rejected (Num.of_Z 0) = false) by reflexivity.
  destruct (map Str.Number (Batch.timeParts input)) as [|a [|b [|c [|e l]]]];
    intros [= <-].
  - exfalso. unfold Batch.timeParts in Hlen. rewrite length_map in Hlen.
    pose proof (split_nonempty ":" (Str.trim input)).
    destruct (Str.split ":" (Str.trim input)); [contradiction | discriminate Hlen].
  - apply hms_accepted; auto. apply Hall. simpl. auto.
  - apply hms_accepted; auto; apply Hall; simpl; auto.
  - apply hms_accepted; apply Hall; simpl; auto.
  - exfalso. rewrite <- Hlen in El. simpl in El. discriminate El.
Qed.

Lemma parseTimeToSeconds_nonnegative_witness :
  exists v,
    Batch.parseTimeToSeconds "1:30" = Some v /\
    (v = Num.PInf \/ exists q, v = Num.Fin q /\ 0 <= q).
Proof.
  destruct (Batch.parseTimeToSeconds "1:30") as [v|] eqn:E;
    [|vm_compute in E; discriminate E].
  exists v. split; [reflexivity|].
  exact (parseTimeToSeconds_nonnegative "1:30" v E).
Defined.

Section ShortStamps.
Local Open Scope string_scope.

Lemma stamp2_trim (a b : string) :
  allDigits a = true -> a <> EmptyString ->
  allDigits b = true -> b <> EmptyString ->
  Str.trim (a ++ String ":" b) = a ++ String ":" b.
Proof.
  intros Ha Hane Hb Hbne. apply trim_id.
  - rewrite headNotWhite_app by assumption. apply digits_headNotWhite; exact Ha.
  - rewrite rev_app. simpl. rewrite !str_app_assoc.
    rewrite headNotWhite_app by (apply rev_nonempty; assumption).
    apply digits_headNotWhite. apply allDigits_rev. exact Hb.
Qed.

Lemma parse_two_fields (a b : string) :
  allDigits a = true -> a <> EmptyString ->
  allDigits b = true -> b <> EmptyString ->
  (Z.of_N (Str.digitsValue a) * 60 + Z.of_N (Str.digitsValue b) < 2 ^ 53)%Z ->
  exists q, Batch.parseTimeToSeconds (a ++ String ":" b) = Some (Num.Fin q) /\
            q == inject_Z (Z.of_N (Str.digitsValue a) * 60 + Z.of_N (Str.digitsValue b)).
Proof.
  intros Ha Hane Hb Hbne Hsafe.
  pose proof (N2Z.is_nonneg (Str.digitsValue a)) as Pa.
  pose proof (N2Z.is_nonneg (Str.digitsValue b)) as Pb.
  destruct (Number_digits a Ha Hane ltac:(lia)) as (qa & Na & Ea).
  destruct (Number_digits b Hb Hbne ltac:(lia)) as (qb & Nb & Eb).
  unfold Batch.parseTimeToSeconds, Batch.timeParts.
  rewrite stamp2_trim by assumption.
  destruct (String.eqb_spec (a ++ String ":" b) EmptyString) as [E|_].
  { destruct a; [contradiction | discriminate E]. }
  rewrite split_field by (apply allDigits_noColon; exact Ha).
  rewrite split_noColon by (apply allDigits_noColon; exact Hb).
  cbn [map List.length Nat.eqb Nat.ltb Nat.leb orb].
  rewrite !trim_digits by assumption.
  rewrite Na, Nb. cbn [existsb].
  rewrite (field_accepted qa _ Ea), (field_accepted qb _ Eb). cbn [orb].
  destruct (hms_int (inject_Z 0) qa qb 0 _ _ (Qeq_refl _) Ea Eb
              ltac:(lia) Pa Pb ltac:(lia)) as (q & Hq & Eq).
  exists q. unfold Num.of_Z. rewrite Hq. split; [reflexivity|].
  rewrite Eq. apply inject_Z_injective. lia.
Qed.

Lemma parse_one_field (b : string) :
  allDigits b = true -> b <> EmptyString ->
  (Z.of_N (Str.digitsValue b) < 2 ^ 53)%Z ->
  exists q, Batch.parseTimeToSeconds b = Some (Num.Fin q) /\
            q == inject_Z (Z.of_N (Str.digitsValue b)).
Proof.
  intros Hb Hbne Hsafe.
  pose proof (N2Z.is_nonneg (Str.digitsValue b)) as Pb.
  destruct (Number_digits b Hb Hbne Hsafe) as (qb & Nb & Eb).
  unfold Batch.parseTimeToSeconds, Batch.timeParts.
  rewrite (trim_digits b Hb).
  destruct (String.eqb_spec b EmptyString) as [E|_]; [contradiction|].
  rewrite split_noColon by (apply allDigits_noColon; exact Hb).
  cbn [map List.length Nat.eqb Nat.ltb Nat.leb orb].
  rewrite !trim_digits by assumption.
  rewrite Nb. cbn [existsb].
  rewrite (field_accepted qb _ Eb). cbn [orb].
  destruct (hms_int (inject_Z 0) (inject_Z 0) qb 0 0 _ (Qeq_refl _) (Qeq_refl _) Eb
              ltac:(lia) ltac:(lia) Pb ltac:(lia)) as (q & Hq & Eq).
  exists q. unfold Num.of_Z. rewrite Hq. split; [reflexivity|].
  rewrite Eq. apply inject_Z_injective. lia.
Qed.

(** X14. The batch dialog takes mm:ss and ss as well as hh:mm:ss and does
    not bound the fields: two digit fields a:b give a * 60 + b and one digit
    field gives its value, so 1:90 is 150 seconds.  The values are exact as
    long as they stay below 2^53, where every integer is a double. *)
Theorem parseTimeToSeconds_short_forms (a b : string) :
  allDigits a = true -> a <> EmptyString ->
  allDigits b = true -> b <> EmptyString ->
  (Z.of_N (Str.digitsValue a) * 60 + Z.of_N (Str.digitsValue b) < 2 ^ 53)%Z ->
  (exists q, Batch.parseTimeToSeconds (a ++ ":" ++ b) = Some (Num.Fin q) /\
             q == inject_Z (Z.of_N (Str.digitsValue a) * 60 + Z.of_N (Str.digitsValue b))) /\
  (exists q, Batch.parseTimeToSeconds b = Some (Num.Fin q) /\
             q == inject_Z (Z.of_N (Str.digitsValue b))).
Proof.
  intros Ha Hane Hb Hbne Hsafe.
  pose proof (N2Z.is_nonneg (Str.digitsValue a)) as Pa.
  split.
  - change (a ++ ":" ++ b) with (a ++ String ":" b).
    apply parse_two_fields; assumption.
  - apply parse_one_field; [assumption | assumption | lia].
Qed.

Lemma parseTimeToSeconds_short_forms_witness :
  exists q, Batch.parseTimeToSeconds "1:90" = Some (Num.Fin q) /\
            q == inject_Z 150.
Proof.
  exact (proj1 (parseTimeToSeconds_short_forms "1" "90" eq_refl
                  ltac:(discriminate) eq_refl ltac:(discriminate) eq_refl)).
Defined.
End ShortStamps.

Section BatchLines.
Import Batch.

(** The two times parseBatchText keeps for a line, after clamping. *)
Lemma classifyLine_decision (clamp : bool) (duration : Q) (n : nat) (line : string)
    (s e : Q) :
  let doClamp := clamp && negb (Qle_bool duration 0) in
  let fs := if doClamp then JS.Math_min (JS.Math_max s 0) duration else s in
  let fe := if doClamp then JS.Math_min (JS.Math_max e 0) duration else e in
  let item := classifyLine clamp duration n line (Some s) (Some e) in
  hasError item
  = (Qle_bool e s
     || (negb (Qle_bool duration 0)
         && (Qle_bool duration fs || negb (Qle_bool fe duration)))
     || Qle_bool fe fs) /\
  (hasError item = false ->
   startSeconds item = Some fs /\ endSeconds item = Some fe /\
   clamped item = doClamp && (negb (Qeq_bool fs s) || negb (Qeq_bool fe e))).
Proof.
  intros doClamp fs fe item. unfold item, classifyLine.
  fold doClamp. fold fs. fold fe.
  destruct (Qle_bool e s); [split; [reflexivity | discriminate]|].
  cbn [orb].
  destruct (negb (Qle_bool duration 0)
            && (Qle_bool duration fs || negb (Qle_bool fe duration)));
    [split; [reflexivity | discriminate]|].
  cbn [orb].
  destruct (Qle_bool fe fs); [split; [reflexivity | discriminate]|].
  split; [reflexivity|]. intros _. repeat split.
Qed.

(** X15. What parseBatchText keeps of a line whose two times parsed to
    start >= 0 and end: the line is kept exactly if end > start and, for a
    known duration, start lies before the duration and the end does not
    exceed it or clamping is on.  A kept line has the start unchanged, the
    end cut to the duration when clamping is on and the duration is known,
    ends after it starts, lies inside a known duration, and is flagged
    clamped exactly if its end was cut. *)
Theorem classifyLine_keeps (clamp : bool) (duration : Q) (n : nat) (line : string)
    (s e : Q) :
  0 <= s ->
  let item := classifyLine clamp duration n line (Some s) (Some e) in
  (hasError item = false <->
   s < e /\ (0 < duration -> s < duration /\ (clamp = true \/ e <= duration))) /\
  (hasError item = false ->
   exists s' e',
     startSeconds item = Some s' /\ endSeconds item = Some e' /\
     s' == s /\ s' < e' /\
     (0 < duration -> e' == Qmin e duration /\ e' <= duration) /\
     (~ 0 < duration -> e' == e) /\
     (clamped item = true <-> clamp = true /\ 0 < duration /\ duration < e)).
Proof.
  intros Hs item.
  destruct (classifyLine_decision clamp duration n line s e) as [Hdec Hval].
  fold item in Hdec, Hval.
  set (doClamp := clamp && negb (Qle_bool duration 0)) in *.
  set (fs := if doClamp then JS.Math_min (JS.Math_max s 0) duration else s) in *.
  set (fe := if doClamp then JS.Math_min (JS.Math_max e 0) duration else e) in *.
  assert (Hmin : (e <= duration /\ Qmin e duration == e) \/
                 (duration <= e /\ Qmin e duration == duration))
    by apply Qmin_cases.
  (* the clamped times, as numbers *)
  assert (Hfs : s < e -> (doClamp = true /\ 0 < duration /\ clamp = true /\
                          fs == Qmin s duration /\ fe == Qmin e duration) \/
                         (doClamp = false /\ (clamp = false \/ duration <= 0) /\
                          fs == s /\ fe == e)).
  { intros Hse. unfold fs, fe, doClamp.
    destruct clamp; cbn [andb].
    - destruct (Qle_bool duration 0) eqn:Ed; cbn [negb].
      + right. apply Qle_bool_iff in Ed. repeat split; try reflexivity. right; exact Ed.
      + left. apply not_le_bool_lt in Ed. unfold JS.Math_min, JS.Math_max.
        repeat split; try reflexivity; try exact Ed.
        * destruct (Qmax_cases s 0) as [[? E1]|[? E1]];
            destruct (Qmin_cases (Qmax s 0) duration) as [[? E2]|[? E2]];
            destruct (Qmin_cases s duration) as [[? E3]|[? E3]]; lra.
        * destruct (Qmax_cases e 0) as [[? E1]|[? E1]];
            destruct (Qmin_cases (Qmax e 0) duration) as [[? E2]|[? E2]];
            destruct (Qmin_cases e duration) as [[? E3]|[? E3]]; lra.
    - right. repeat split; try reflexivity. left; reflexivity. }
  (* the three tests, as propositions *)
  assert (Hkeep : hasError item = false <->
                  s < e /\ (0 < duration -> fs < duration /\ fe <= duration) /\ fs < fe).
  { rewrite Hdec. rewrite !orb_false_iff. rewrite andb_false_iff.
    rewrite negb_false_iff. rewrite orb_false_iff. rewrite negb_false_iff.
    split.
    - intros [[H1 H2] H3].
      apply not_le_bool_lt in H1. apply not_le_bool_lt in H3.
      split; [exact H1|]. split; [|exact H3].
      intros Hd. destruct H2 as [H2|[H2 H4]].
      + apply Qle_bool_iff in H2. lra.
      + apply not_le_bool_lt in H2. apply Qle_bool_iff in H4. split; assumption.
    - intros (H1 & H2 & H3). split; [split|].
      + destruct (Qle_bool e s) eqn:E; [apply Qle_bool_iff in E; lra | reflexivity].
      + destruct (Qle_bool duration 0) eqn:E; [left; reflexivity|].
        right. apply not_le_bool_lt in E. destruct (H2 E) as [H4 H5]. split.
        * destruct (Qle_bool duration fs) eqn:E2;
            [apply Qle_bool_iff in E2; lra | reflexivity].
        * apply Qle_bool_iff. exact H5.
      + destruct (Qle_bool fe fs) eqn:E; [apply Qle_bool_iff in E; lra | reflexivity]. }
  split.
  - rewrite Hkeep. split.
    + intros (Hse & Hd & Hlt). split; [exact Hse|]. intros Hpos.
      destruct (Hd Hpos) as [H4 H5].
      destruct (Hfs Hse) as [(_ & _ & Hc & E1 & E2)|(_ & Hc & E1 & E2)].
      * split; [|left; exact Hc].
        destruct (Qmin_cases s duration) as [[? E3]|[? E3]]; lra.
      * split; [lra|]. right. lra.
    + intros (Hse & Hd). split; [exact Hse|].
      destruct (Hfs Hse) as [(_ & Hpos & Hc & E1 & E2)|(_ & Hc & E1 & E2)].
      * destruct (Hd Hpos) as [H4 _].
        destruct (Qmin_cases s duration) as [[? E3]|[? E3]];
          destruct Hmin as [[? E4]|[? E4]]; split; try lra; intros _; split; lra.
      * split; [|lra]. intros Hpos. destruct (Hd Hpos) as [H4 [H5|H5]].
        -- destruct Hc as [Hc|Hc]; [congruence | lra].
        -- split; lra.
  - intros Hok. destruct (Hval Hok) as (Vs & Ve & Vc).
    apply Hkeep in Hok. destruct Hok as (Hse & Hd & Hlt).
    exists fs, fe. split; [exact Vs|]. split; [exact Ve|].
    destruct (Hfs Hse) as [(Hdc & Hpos & Hc & E1 & E2)|(Hdc & Hc & E1 & E2)].
    + destruct (Hd Hpos) as [H4 H5].
      assert (Es : fs == s)
        by (destruct (Qmin_cases s duration) as [[? E3]|[? E3]]; lra).
      split; [exact Es|]. split; [exact Hlt|].
      split; [intros _; split; [exact E2 | exact H5]|].
      split; [intros H; contradiction|].
      rewrite Vc, Hdc. cbn [andb].
      rewrite (proj2 (Qeq_bool_iff fs s) Es). cbn [negb orb].
      rewrite negb_true_iff. split.
      * intros G. split; [exact Hc|]. split; [exact Hpos|].
        destruct (Qlt_le_dec duration e) as [Hlt'|Hle]; [exact Hlt'|].
        exfalso. assert (Ee : fe == e)
          by (destruct Hmin as [[? E4]|[? E4]]; lra).
        apply Qeq_bool_iff in Ee. congruence.
      * intros (_ & _ & Hde).
        destruct (Qeq_bool fe e) eqn:G; [|reflexivity].
        apply Qeq_bool_iff in G. destruct Hmin as [[? E4]|[? E4]]; lra.
    + split; [exact E1|]. split; [exact Hlt|].
      split; [intros Hpos; destruct (Hd Hpos) as [H4 H5];
              split; [destruct Hmin as [[? E4]|[? E4]]; lra | exact H5]|].
      split; [intros _; exact E2|].
      rewrite Vc, Hdc. cbn [andb]. split; [discriminate|].
      intros (Hc1 & Hpos & Hde). destruct (Hd Hpos) as [H4 H5]. lra.
Qed.

Lemma classifyLine_keeps_witness :
  exists s' e',
    Batch.startSeconds (classifyLine true 100 1 "50 150" (Some 50) (Some 150)) = Some s' /\
    Batch.endSeconds (classifyLine true 100 1 "50 150" (Some 50) (Some 150)) = Some e' /\
    s' == 50 /\ s' < e'.
Proof.
  assert (H0 : 0 <= 50) by (unfold Qle; simpl; lia).
  destruct (proj2 (classifyLine_keeps true 100 1 "50 150" 50 150 H0) eq_refl)
    as (s' & e' & Hs & He & Es & Hlt & _).
  exists s', e'. repeat split; assumption.
Defined.
End BatchLines.

(** ** More on mergeRanges and on batch import *)

Section MergeMore.
Import Batch.

Lemma sortBy_sorted_id {A : Type} (key : A -> Q) (l : list A) :
  StronglySorted (key_le key) l -> Arr.sortBy key l = l.
Proof.
  induction 1 as [|x l Hs IH Hx]; simpl; [reflexivity|].
  rewrite IH. destruct l as [|y l']; [reflexivity|]. simpl.
  inversion Hx as [|? ? Hxy _]; subst. unfold key_le in Hxy.
  apply Qle_bool_iff in Hxy. rewrite Hxy. reflexivity.
Qed.

Lemma length_insert {A : Type} (key : A -> Q) (x : A) (l : list A) :
  List.length (Arr.insert key x l) = S (List.length l).
Proof.
  induction l as [|y l IH]; simpl; [reflexivity|].
  destruct (Qle_bool (key x) (key y)); simpl; [reflexivity | rewrite IH; reflexivity].
Qed.

Lemma length_sortBy {A : Type} (key : A -> Q) (l : list A) :
  List.length (Arr.sortBy key l) = List.length l.
Proof.
  induction l as [|x l IH]; simpl; [reflexivity|].
  rewrite length_insert, IH. reflexivity.
Qed.

Lemma mergeStep_fold_separate (l : list Span) : forall acc,
  StronglySorted precedes l ->
  (forall a rest, acc = a :: rest -> forall r, In r l -> precedes a r) ->
  fold_left mergeStep l acc = (List.rev l ++ acc)%list.
Proof.
  induction l as [|r l IH]; intros acc Hs Hacc; simpl; [reflexivity|].
  inversion Hs as [|? ? Hs' Hr]; subst.
  assert (Hstep : mergeStep acc r = r :: acc).
  { destruct acc as [|a rest]; [reflexivity|]. simpl.
    assert (Hp : precedes a r) by (apply (Hacc a rest eq_refl); simpl; auto).
    unfold precedes in Hp.
    destruct (Qle_bool (spanStart r) (spanEnd a)) eqn:E; [|reflexivity].
    apply Qle_bool_iff in E. lra. }
  rewrite Hstep, IH.
  - rewrite <- app_assoc. reflexivity.
  - exact Hs'.
  - intros a rest [= <- <-] r' Hr'. rewrite Forall_forall in Hr. apply Hr. exact Hr'.
Qed.

Lemma precedes_key_le (l : list Span) :
  Forall span_valid l -> StronglySorted precedes l ->
  StronglySorted (key_le spanStart) l.
Proof.
  intros Hv Hs. induction Hs as [|a l Hs IH Ha]; [constructor|].
  inversion Hv as [|? ? Hva Hvl]; subst.
  constructor; [apply IH; exact Hvl|].
  rewrite Forall_forall in *. intros b Hb.
  specialize (Ha b Hb). unfold precedes, key_le, span_valid in *. lra.
Qed.

Lemma mergeRanges_separate_id (l : list Span) :
  Forall span_valid l -> StronglySorted precedes l -> mergeRanges l = l.
Proof.
  intros Hv Hs. unfold mergeRanges.
  rewrite (sortBy_sorted_id spanStart l (precedes_key_le l Hv Hs)).
  rewrite (mergeStep_fold_separate l [] Hs).
  - rewrite app_nil_r. apply List.rev_involutive.
  - intros a rest H. discriminate H.
Qed.

(** X16. mergeRanges returns a list of separate ranges as it is, and merging
    twice is merging once. *)
Theorem mergeRanges_idempotent (items : list Span) :
  Forall span_valid items ->
  (StronglySorted precedes items -> mergeRanges items = items) /\
  mergeRanges (mergeRanges items) = mergeRanges items.
Proof.
  intros Hv. split.
  - intros Hs. apply mergeRanges_separate_id; assumption.
  - destruct (mergeRanges_good items Hv) as (Hs & Hf & _).
    apply mergeRanges_separate_id; assumption.
Qed.

Lemma mergeRanges_idempotent_witness :
  let items := [ {| spanStart := 5; spanEnd := 7 |};
                 {| spanStart := 1; spanEnd := 3 |};
                 {| spanStart := 2; spanEnd := 4 |} ] in
  mergeRanges (mergeRanges items) = mergeRanges items.
Proof.
  intros items.
  assert (Hv : Forall span_valid items)
    by (repeat constructor; unfold span_valid, Qlt; simpl; lia).
  exact (proj2 (mergeRanges_idempotent items Hv)).
Defined.

Lemma length_mergeStep_fold (l : list Span) : forall acc,
  (List.length (fold_left mergeStep l acc) <= List.length l + List.length acc)%nat /\
  (acc <> [] \/ l <> [] -> fold_left mergeStep l acc <> []).
Proof.
  induction l as [|r l IH]; intros acc; simpl.
  - split; [lia|]. intros [H|H]; [exact H | contradiction].
  - assert (Hstep : (List.length (mergeStep acc r) <= S (List.length acc))%nat /\
                    mergeStep acc r <> []).
    { destruct acc as [|a rest]; simpl; [split; [lia | discriminate]|].
      destruct (Qle_bool (spanStart r) (spanEnd a)); simpl;
        (split; [lia | discriminate]). }
    destruct Hstep as [Hl Hn]. destruct (IH (mergeStep acc r)) as [IH1 IH2].
    split; [lia|]. intros _. apply IH2. left. exact Hn.
Qed.

Lemma mergeRanges_length_bounds (items : list Span) :
  (List.length (mergeRanges items) <= List.length items)%nat /\
  (items <> [] -> mergeRanges items <> []) /\
  mergeRanges [] = [].
Proof.
  unfold mergeRanges.
  destruct (length_mergeStep_fold (Arr.sortBy spanStart items) []) as [Hl Hn].
  rewrite length_sortBy in Hl. simpl in Hl.
  split; [rewrite length_rev; lia|]. split; [|reflexivity].
  intros Hne E.
  assert (Hs : Arr.sortBy spanStart items <> []).
  { intros E'. apply (f_equal (@List.length _)) in E'.
    rewrite length_sortBy in E'. destruct items; [contradiction | discriminate E']. }
  apply (Hn (or_intror Hs)).
  apply (f_equal (@List.rev _)) in E. rewrite List.rev_involutive in E. exact E.
Qed.

(** X17. mergeRanges never returns more ranges than it was given, and
    returns at least one range for a list that is not empty. *)
Theorem mergeRanges_length (items : list Span) :
  (List.length (mergeRanges items) <= List.length items)%nat /\
  (items <> [] -> mergeRanges items <> []) /\
  mergeRanges [] = [].
Proof.
  destruct (mergeRanges_length_bounds items) as (Hl & Hn & He).
  split; [exact Hl|]. split; [exact Hn | exact He].
Qed.

Lemma length_mapi {A B : Type} (f : nat -> A -> B) (l : list A) : forall i,
  List.length (Arr.mapi f i l) = List.length l.
Proof.
  induction l as [|x l IH]; intros i; simpl; [reflexivity|].
  rewrite IH. reflexivity.
Qed.

Lemma map_mapi {A B C : Type} (g : B -> C) (f : nat -> A -> B) (h : A -> C)
    (l : list A) : forall i,
  (forall k x, g (f k x) = h x) -> map g (Arr.mapi f i l) = map h l.
Proof.
  induction l as [|x l IH]; intros i Hg; simpl; [reflexivity|].
  rewrite Hg, IH by exact Hg. reflexivity.
Qed.

Lemma mapi_ids {A : Type} (uuid : nat -> string) (f : nat -> A -> Hook.TimeRange)
    (l : list A) : forall i,
  (forall k x, Hook.id (f k x) = uuid k) ->
  map Hook.id (Arr.mapi f i l) = map uuid (seq i (List.length l)).
Proof.
  induction l as [|x l IH]; intros i Hf; simpl; [reflexivity|].
  rewrite Hf, IH by exact Hf. reflexivity.
Qed.

(** X18. applyBatchRanges imports nothing and reports an error exactly if
    there is no valid line, or invalid lines are not ignored and there is
    one.  Otherwise it hands onSetRanges the imported ranges, after the
    existing ones in append mode and alone in replace mode: at least one and
    at most one per valid line, with fresh ids in order, and, without
    merging, with exactly the times of the valid lines in their order. *)
Theorem applyBatchRanges_outcome (merge ignoreInvalid : bool) (uuid : nat -> string)
    (preview : list BatchParseLine) (ranges : list Hook.TimeRange) (mode : Mode) :
  ((exists msg, applyBatchRanges merge ignoreInvalid uuid preview ranges mode = inr msg)
   <-> (ignoreInvalid = false /\ exists item, In item preview /\ hasError item = true)
       \/ validRanges preview = []) /\
  (forall next,
     applyBatchRanges merge ignoreInvalid uuid preview ranges mode = inl next ->
     exists imported,
       next = match mode with
              | replace => imported
              | append => (ranges ++ imported)%list
              end /\
       (1 <= List.length imported <= List.length (validRanges preview))%nat /\
       map Hook.id imported = map uuid (seq 0 (List.length imported)) /\
       (merge = false ->
        map (fun r => (Hook.startTime r, Hook.endTime r)) imported
        = map (fun sp => (spanStart sp, spanEnd sp)) (validRanges preview))).
Proof.
  unfold applyBatchRanges.
  assert (Hinv : Nat.ltb 0 (invalidCount preview) = true <->
                 exists item, In item preview /\ hasError item = true).
  { unfold invalidCount. rewrite Nat.ltb_lt. split.
    - intros H. destruct (filter hasError preview) as [|x l] eqn:E; [simpl in H; lia|].
      exists x. apply filter_In. rewrite E. simpl. auto.
    - intros (x & Hx). apply filter_In in Hx.
      destruct (filter hasError preview); [contradiction | simpl; lia]. }
  assert (Hnil : Nat.eqb (List.length (validRanges preview)) 0 = true <->
                 validRanges preview = []).
  { rewrite Nat.eqb_eq. split; [apply length_zero_iff_nil | intros ->; reflexivity]. }
  destruct (negb ignoreInvalid && Nat.ltb 0 (invalidCount preview)) eqn:E1.
  { apply andb_true_iff in E1. destruct E1 as [Ei Ec]. apply negb_true_iff in Ei.
    split; [|discriminate].
    split; [intros _; left; split; [exact Ei | apply Hinv; exact Ec]|].
    intros _. eexists. reflexivity. }
  destruct (Nat.eqb (List.length (validRanges preview)) 0) eqn:E2.
  { split; [|discriminate].
    split; [intros _; right; apply Hnil; reflexivity|].
    intros _. eexists. reflexivity. }
  split.
  - split.
    + intros (msg & H). destruct mode; discriminate H.
    + intros [[Hi Hex]|Hv].
      * apply Hinv in Hex. rewrite Hi, Hex in E1. discriminate E1.
      * apply Hnil in Hv. congruence.
  - intros next Hnext.
    set (normalized := if merge then mergeRanges (validRanges preview)
                       else validRanges preview) in *.
    set (mk := fun (i : nat) (item : Span) =>
                 {| Hook.id := uuid i; Hook.startTime := spanStart item;
                    Hook.endTime := spanEnd item |}) in *.
    exists (Arr.mapi mk 0 normalized).
    split; [destruct mode; injection Hnext as <-; reflexivity|].
    assert (Hne : validRanges preview <> []).
    { intros E. apply Hnil in E. congruence. }
    assert (Hlen : (1 <= List.length normalized <= List.length (validRanges preview))%nat).
    { unfold normalized. destruct merge.
      - destruct (mergeRanges_length_bounds (validRanges preview)) as (Hl & Hn & _).
        specialize (Hn Hne).
        destruct (mergeRanges (validRanges preview)); [contradiction | simpl in *; lia].
      - destruct (validRanges preview); [contradiction | simpl; lia]. }
    rewrite length_mapi. split; [exact Hlen|]. split.
    + apply mapi_ids. reflexivity.
    + intros Hm. unfold normalized. rewrite Hm.
      apply map_mapi. reflexivity.
Qed.
End MergeMore.

(** ** The range selector and the range editor *)

Section Selectors.

Lemma insert_perm {A : Type} (key : A -> Q) (x : A) (l : list A) :
  Permutation (Arr.insert key x l) (x :: l).
Proof.
  induction l as [|y l IH]; simpl; [apply Permutation_refl|].
  destruct (Qle_bool (key x) (key y)); [apply Permutation_refl|].
  eapply perm_trans;
    [apply perm_skip; exact IH | apply perm_swap].
Qed.

Lemma sortBy_perm {A : Type} (key : A -> Q) (l : list A) :
  Permutation (Arr.sortBy key l) l.
Proof.
  induction l as [|x l IH]; simpl; [apply perm_nil|].
  eapply perm_trans;
    [apply insert_perm | apply perm_skip; exact IH].
Qed.

(** X19. When end > start, handleAdd of the range selector hands onChange
    the old ranges and the new one (with the cells as its times), sorted by
    start, and moves the cells on: the new start is the old end and the new
    end is 10 s later, cut at the duration.  When end <= start it does
    nothing. *)
Theorem rangeSelector_handleAdd_sorted (now : string)
    (ranges : list RangeSelector.TimeRange) (duration : Q) (s : RangeSelector.State) :
  (RangeSelector.endCell s <= RangeSelector.startCell s ->
   RangeSelector.handleAdd now ranges duration s = (None, s)) /\
  (RangeSelector.startCell s < RangeSelector.endCell s ->
   exists l s',
     RangeSelector.handleAdd now ranges duration s = (Some l, s') /\
     Permutation l
       (ranges ++ [{| RangeSelector.id := now;
                      RangeSelector.start := RangeSelector.startCell s;
                      RangeSelector.end_ := RangeSelector.endCell s |}]) /\
     StronglySorted (key_le RangeSelector.start) l /\
     RangeSelector.startCell s' = RangeSelector.endCell s /\
     RangeSelector.endCell s' == Qmin (RangeSelector.endCell s + 10) duration /\
     (RangeSelector.startCell s' < RangeSelector.endCell s' <->
      RangeSelector.endCell s < duration)).
Proof.
  unfold RangeSelector.handleAdd. split.
  - intros H. apply Qle_bool_iff in H. rewrite H. reflexivity.
  - intros H.
    destruct (Qle_bool (RangeSelector.endCell s) (RangeSelector.startCell s)) eqn:E;
      [apply Qle_bool_iff in E; lra|].
    eexists. eexists. split; [reflexivity|].
    split; [apply sortBy_perm|]. split; [apply sortBy_sorted|].
    split; [reflexivity|]. split; [reflexivity|].
    simpl. unfold JS.Math_min.
    destruct (Qmin_cases (RangeSelector.endCell s + 10) duration) as [[? Em]|[? Em]];
      split; intros; lra.
Qed.

(** X20. The two set-to-current buttons of the range selector: set-end
    moves the end only to a time after the start, so it never breaks
    end > start; set-start moves the start and, when the end is not after
    it, puts the end 10 s later, cut at the duration, so that end > start
    holds afterwards exactly if the old end or the duration lies after the
    current time. *)
Theorem rangeSelector_set_current (currentTime duration : Q) (s : RangeSelector.State) :
  (RangeSelector.startCell s < RangeSelector.endCell s ->
   let s' := RangeSelector.handleSetEndCurrent currentTime s in
   RangeSelector.startCell s' < RangeSelector.endCell s' /\
   RangeSelector.startCell s' = RangeSelector.startCell s) /\
  (currentTime <= RangeSelector.startCell s ->
   RangeSelector.handleSetEndCurrent currentTime s = s) /\
  (let s' := RangeSelector.handleSetStartCurrent currentTime duration s in
   RangeSelector.startCell s' = currentTime /\
   (RangeSelector.startCell s' < RangeSelector.endCell s' <->
    currentTime < RangeSelector.endCell s \/ currentTime < duration)).
Proof.
  unfold RangeSelector.handleSetEndCurrent, RangeSelector.handleSetStartCurrent.
  split; [|split].
  - intros H.
    destruct (Qle_bool currentTime (RangeSelector.startCell s)) eqn:E; simpl;
      [split; [exact H | reflexivity]|].
    apply not_le_bool_lt in E. split; [exact E | reflexivity].
  - intros H. apply Qle_bool_iff in H. rewrite H. reflexivity.
  - simpl. split; [reflexivity|]. unfold JS.Math_min.
    destruct (Qle_bool (RangeSelector.endCell s) currentTime) eqn:E.
    + apply Qle_bool_iff in E.
      destruct (Qmin_cases (currentTime + 10) duration) as [[? Em]|[? Em]];
        (split; intros H0; [right; lra | destruct H0; lra]).
    + apply not_le_bool_lt in E. split; intros; [left|]; lra.
Qed.

Lemma rangeEditor_step_ordered st e :
  rangeEditor_ordered st -> rangeEditor_ordered (RangeEditor.step st e).
Proof.
  destruct st as [s added]. unfold rangeEditor_ordered. simpl.
  intros [Hc Ha]. destruct e as [t|t|]; simpl.
  - split; [|exact Ha].
    destruct (RangeEditor.endCell s) as [b|]; [|exact I].
    destruct (Qle_bool b t) eqn:E; [exact I|]. apply not_le_bool_lt. exact E.
  - split; [|exact Ha]. unfold RangeEditor.handleSetEnd.
    destruct (RangeEditor.startCell s) as [a|] eqn:Es.
    + destruct (Qle_bool t a) eqn:E; simpl; rewrite ?Es in *; [exact Hc|].
      apply not_le_bool_lt. exact E.
    + simpl. rewrite ?Es. exact I.
  - unfold RangeEditor.handleAdd.
    destruct (RangeEditor.startCell s) as [a|] eqn:Es;
      destruct (RangeEditor.endCell s) as [b|] eqn:Ee; simpl;
      rewrite ?Es, ?Ee in *; try (split; [exact Hc | exact Ha]).
    split; [exact I|]. apply Forall_app. split; [exact Ha|].
    constructor; [exact Hc | constructor].
Qed.

(** X21. Whatever buttons of the range editor are pressed, at whatever
    playback times, every range it hands to onAddRange ends strictly after
    it starts, and whenever both of its cells are set the end is after the
    start. *)
Theorem rangeEditor_adds_ordered_ranges (es : list RangeEditor.Event) :
  rangeEditor_ordered (RangeEditor.run es).
Proof.
  unfold RangeEditor.run.
  assert (H : forall st, rangeEditor_ordered st ->
                         rangeEditor_ordered (fold_left RangeEditor.step es st)).
  { induction es as [|e es IH]; intros st Hst; simpl; [exact Hst|].
    apply IH. apply rangeEditor_step_ordered. exact Hst. }
  apply H. split; [exact I | constructor].
Qed.

(** X22. In the set-start/set-end workflow of the editor the two marks may
    be set in either order: with a pending start p and the playhead at
    another time t, and no range being edited, handleSetEnd appends exactly
    one range, from the smaller to the larger of the two times, and clears
    the pending start; with t = p it appends nothing. *)
Theorem handleSetEnd_orders_marks (uuid : string) (s : Editor.State)
    (page : App.State) (p : Q) :
  Editor.editingRangeId s = None ->
  Editor.pendingStart s = Some p ->
  let r := Editor.handleSetEnd uuid s page in
  let t := Editor.currentTime s in
  Editor.pendingStart (fst r) = None /\
  (p == t -> App.timeRanges (snd r) = App.timeRanges page) /\
  (~ p == t ->
   exists range,
     App.timeRanges (snd r) = (App.timeRanges page ++ [range])%list /\
     Hook.id range = uuid /\
     Hook.startTime range == Qmin p t /\ Hook.endTime range == Qmax p t /\
     Hook.startTime range < Hook.endTime range /\
     (Hook.startTime range == p \/ Hook.startTime range == t)).
Proof.
  intros He Hp r t. subst r t. unfold Editor.handleSetEnd. rewrite He, Hp.
  cbv zeta. cbn [fst snd]. split; [reflexivity|].
  unfold JS.Math_min, JS.Math_max.
  set (t := Editor.currentTime s).
  pose proof (Qmax_cases p t) as Hmax. pose proof (Qmin_cases p t) as Hmin.
  destruct (Qle_bool (Qmax p t) (Qmin p t)) eqn:E; cbn [negb].
  - apply Qle_bool_iff in E. split; [reflexivity|].
    intros Hne. exfalso. apply Hne.
    destruct Hmax as [[? ?]|[? ?]]; destruct Hmin as [[? ?]|[? ?]]; lra.
  - apply not_le_bool_lt in E. split.
    + intros Hpt. exfalso.
      destruct Hmax as [[? ?]|[? ?]]; destruct Hmin as [[? ?]|[? ?]]; lra.
    + intros _. eexists. split; [reflexivity|].
      cbn [Hook.id Hook.startTime Hook.endTime].
      split; [reflexivity|]. split; [reflexivity|]. split; [reflexivity|].
      split; [exact E|].
      destruct Hmin as [[? ?]|[? ?]]; [left | right]; assumption.
Qed.
End Selectors.

(** ** Clocks and fractional times *)

Section Clocks.
Local Open Scope string_scope.

Lemma floor_div_pos (y : Q) (p : positive) :
  Qfloor (y / inject_Z (Zpos p)) = (Qfloor y / Zpos p)%Z.
Proof.
  destruct y as [a b]. unfold Qdiv, Qmult, Qinv, inject_Z, Qfloor. simpl.
  rewrite Z.mul_1_r. rewrite Pos2Z.inj_mul.
  rewrite Z.div_div by lia. reflexivity.
Qed.

Lemma floor_sub_Z (y : Q) (k : Z) :
  Qfloor (y - inject_Z k) = (Qfloor y - k)%Z.
Proof.
  destruct y as [a b]. unfold Qminus, Qplus, Qopp, inject_Z, Qfloor. simpl.
  rewrite Pos.mul_1_r, Z.mul_1_r.
  replace (a + - k * Zpos b)%Z with (a + (- k) * Zpos b)%Z by lia.
  rewrite Z.div_add by lia. lia.
Qed.

Lemma floor_rem (x : Q) (p : positive) :
  0 <= x ->
  JS.rem x (inject_Z (Zpos p))
    == x - inject_Z (Zpos p * (Qfloor x / Zpos p)) /\
  Qfloor (JS.rem x (inject_Z (Zpos p))) = (Qfloor x mod Zpos p)%Z.
Proof.
  intros Hx.
  assert (E : JS.rem x (inject_Z (Zpos p))
              == x - inject_Z (Zpos p * (Qfloor x / Zpos p))).
  { unfold JS.rem. rewrite trunc_nonneg.
    - rewrite floor_div_pos. rewrite inject_Z_mult. reflexivity.
    - unfold Qdiv. apply Qmult_le_0_compat; [exact Hx|].
      unfold Qle, Qinv, inject_Z. simpl. lia. }
  split; [exact E|].
  rewrite (Qfloor_comp _ _ E), floor_sub_Z.
  rewrite (Z.mod_eq (Qfloor x) (Zpos p)) by lia. reflexivity.
Qed.

Lemma floor_nonneg (x : Q) : 0 <= x -> (0 <= Qfloor x)%Z.
Proof.
  intros Hx. change 0%Z with (Qfloor 0). apply Qfloor_resp_le. exact Hx.
Qed.

(** The three fields of a clock depend on the whole seconds only. *)
Lemma clock_fields (x : Q) :
  0 <= x ->
  JS.Math_floor (x / 3600) = (Qfloor x / 3600)%Z /\
  JS.Math_floor (JS.rem x 3600 / 60) = ((Qfloor x mod 3600) / 60)%Z /\
  JS.Math_floor (JS.rem x 60) = (Qfloor x mod 60)%Z /\
  JS.Math_floor (x / 60) = (Qfloor x / 60)%Z.
Proof.
  intros Hx. unfold JS.Math_floor.
  split; [exact (floor_div_pos x 3600)|].
  split; [|split; [exact (proj2 (floor_rem x 60 Hx)) | exact (floor_div_pos x 60)]].
  change (Qfloor (JS.rem x (inject_Z 3600) / inject_Z 60)
          = (Qfloor x mod 3600 / 60)%Z).
  rewrite floor_div_pos, (proj2 (floor_rem x 3600 Hx)). reflexivity.
Qed.

Lemma parse_hms_fields (n : Z) :
  safe_integer n ->
  exists q,
    Batch.parseTimeToSeconds
      (Batch.pad2 (n / 3600) ++ ":" ++ Batch.pad2 (n mod 3600 / 60) ++ ":"
       ++ Batch.pad2 (n mod 60)) = Some (Num.Fin q) /\
    q == inject_Z n.
Proof.
  intros [Hn Hsafe].
  assert (Hrange : (0 <= n / 3600 /\ 0 <= n mod 3600 / 60 /\ 0 <= n mod 60 /\
                    n = n / 3600 * 3600 + n mod 3600 / 60 * 60 + n mod 60)%Z).
  { Z.div_mod_to_equations. lia. }
  destruct Hrange as (Rh & Rm & Rs & Rn).
  destruct (pad2_field (n / 3600) Rh) as (Dh & Nh & Vh).
  destruct (pad2_field (n mod 3600 / 60) Rm) as (Dm & Nm & Vm).
  destruct (pad2_field (n mod 60) Rs) as (Ds & Ns & Vs).
  assert (Hb : (Z.of_N (Str.digitsValue (Batch.pad2 (n / 3600))) * 3600
                + Z.of_N (Str.digitsValue (Batch.pad2 (n mod 3600 / 60))) * 60
                + Z.of_N (Str.digitsValue (Batch.pad2 (n mod 60))) < 2 ^ 53)%Z).
  { rewrite Vh, Vm, Vs, !Z2N.id by lia. rewrite <- Rn. exact Hsafe. }
  destruct (parse_timestamp _ _ _ Dh Nh Dm Nm Ds Ns Hb) as (q & Hp & Hq).
  exists q. split; [exact Hp|].
  rewrite Hq, Vh, Vm, Vs, !Z2N.id by lia. rewrite <- Rn. reflexivity.
Qed.

Lemma parse_ms_fields (n : Z) :
  safe_integer n ->
  exists q,
    Batch.parseTimeToSeconds (Batch.pad2 (n / 60) ++ ":" ++ Batch.pad2 (n mod 60))
      = Some (Num.Fin q) /\
    q == inject_Z n.
Proof.
  intros [Hn Hsafe].
  assert (Hrange : (0 <= n / 60 /\ 0 <= n mod 60 /\ n = n / 60 * 60 + n mod 60)%Z).
  { Z.div_mod_to_equations. lia. }
  destruct Hrange as (Rm & Rs & Rn).
  destruct (pad2_field (n / 60) Rm) as (Dm & Nm & Vm).
  destruct (pad2_field (n mod 60) Rs) as (Ds & Ns & Vs).
  assert (Hb : (Z.of_N (Str.digitsValue (Batch.pad2 (n / 60))) * 60
                + Z.of_N (Str.digitsValue (Batch.pad2 (n mod 60))) < 2 ^ 53)%Z).
  { rewrite Vm, Vs, !Z2N.id by lia. rewrite <- Rn. exact Hsafe. }
  destruct (parse_two_fields _ _ Dm Nm Ds Ns Hb) as (q & Hp & Hq).
  exists q. split; [exact Hp|].
  rewrite Hq, Vm, Vs, !Z2N.id by lia. rewrite <- Rn. reflexivity.
Qed.

Lemma floor_safe (x : Q) :
  0 <= x -> x < inject_Z (2 ^ 53) -> safe_integer (Qfloor x).
Proof.
  intros Hx Hb. split; [apply floor_nonneg; exact Hx|].
  rewrite Zlt_Qlt. pose proof (Qfloor_le x). lra.
Qed.

(** X23. formatTime of the editor shows the whole seconds of any
    nonnegative time below 2^53, integer or not: the text is that of the
    time rounded down, and parseTimeToSeconds reads it back as that
    integer, less than one second below the time shown. *)
Theorem formatTime_whole_seconds (x : Q) :
  0 <= x -> x < inject_Z (2 ^ 53) ->
  Batch.formatTime x = Batch.formatTime (inject_Z (Qfloor x)) /\
  exists q, Batch.parseTimeToSeconds (Batch.formatTime x) = Some (Num.Fin q) /\
            q == inject_Z (Qfloor x) /\ q <= x /\ x < q + 1.
Proof.
  intros Hx Hb. pose proof (floor_nonneg x Hx) as Hn.
  destruct (clock_fields x Hx) as (Eh & Em & Es & _).
  destruct (formatTime_fields (Qfloor x) Hn) as (Fh & Fm & Fs).
  assert (Hfmt : Batch.formatTime x
                 = Batch.pad2 (Qfloor x / 3600) ++ ":"
                   ++ Batch.pad2 (Qfloor x mod 3600 / 60) ++ ":"
                   ++ Batch.pad2 (Qfloor x mod 60)).
  { unfold Batch.formatTime. rewrite Eh, Em, Es. reflexivity. }
  split.
  - rewrite Hfmt. unfold Batch.formatTime. rewrite Fh, Fm, Fs. reflexivity.
  - rewrite Hfmt.
    destruct (parse_hms_fields (Qfloor x) (floor_safe x Hx Hb)) as (q & Hp & Hq).
    exists q. split; [exact Hp|]. split; [exact Hq|].
    pose proof (Qfloor_le x). pose proof (Qlt_floor x) as Hlt.
    rewrite inject_Z_plus in Hlt. change (inject_Z 1) with 1 in Hlt.
    split; lra.
Qed.

(** X24. The other two clocks of the app can be typed back into the batch
    dialog as well.  The player's clock is mm:ss below one hour and the
    editor's hh:mm:ss from one hour on; the range selector's clock is mm:ss
    with the minutes running past 59.  For every nonnegative time below
    2^53 parseTimeToSeconds reads either text as the whole seconds of that
    time. *)
Theorem clocks_parse_back (x : Q) :
  0 <= x -> x < inject_Z (2 ^ 53) ->
  (x < 3600 ->
   VideoPlayer.formatTime x
     = Batch.pad2 (Qfloor x / 60) ++ ":" ++ Batch.pad2 (Qfloor x mod 60)) /\
  (3600 <= x -> VideoPlayer.formatTime x = Batch.formatTime x) /\
  MinuteClock.formatTime x
    = Batch.pad2 (Qfloor x / 60) ++ ":" ++ Batch.pad2 (Qfloor x mod 60) /\
  (exists q, Batch.parseTimeToSeconds (VideoPlayer.formatTime x) = Some (Num.Fin q) /\
             q == inject_Z (Qfloor x)) /\
  (exists q, Batch.parseTimeToSeconds (MinuteClock.formatTime x) = Some (Num.Fin q) /\
             q == inject_Z (Qfloor x)).
Proof.
  intros Hx Hb. pose proof (floor_nonneg x Hx) as Hn.
  destruct (clock_fields x Hx) as (Eh & Em & Es & Em').
  assert (Hlow : x < 3600 ->
            VideoPlayer.formatTime x
            = Batch.pad2 (Qfloor x / 60) ++ ":" ++ Batch.pad2 (Qfloor x mod 60)).
  { intros Hlt. unfold VideoPlayer.formatTime. rewrite Eh, Em, Es.
    assert (Hf : (Qfloor x < 3600)%Z).
    { apply Z.lt_nge. intros Hge.
      rewrite Zle_Qle in Hge. pose proof (Qfloor_le x).
      change (inject_Z 3600) with 3600 in Hge. lra. }
    rewrite Z.div_small by lia. simpl Z.ltb. cbv iota.
    rewrite Z.mod_small by lia. reflexivity. }
  assert (Hhigh : 3600 <= x -> VideoPlayer.formatTime x = Batch.formatTime x).
  { intros Hge. unfold VideoPlayer.formatTime, Batch.formatTime.
    rewrite Eh, Em, Es.
    assert (Hf : (3600 <= Qfloor x)%Z).
    { change 3600%Z with (Qfloor 3600). apply Qfloor_resp_le. exact Hge. }
    destruct (Z.ltb_spec 0 (Qfloor x / 3600)) as [_|Hd]; [reflexivity|].
    exfalso. assert (1 <= Qfloor x / 3600)%Z by (apply Z.div_le_lower_bound; lia).
    lia. }
  assert (Hmin : MinuteClock.formatTime x
            = Batch.pad2 (Qfloor x / 60) ++ ":" ++ Batch.pad2 (Qfloor x mod 60)).
  { unfold MinuteClock.formatTime. rewrite Em', Es. reflexivity. }
  split; [exact Hlow|]. split; [exact Hhigh|]. split; [exact Hmin|].
  pose proof (floor_safe x Hx Hb) as Hsafe. split.
  - destruct (Qlt_le_dec x 3600) as [Hlt|Hge].
    + rewrite (Hlow Hlt). apply parse_ms_fields. exact Hsafe.
    + rewrite (Hhigh Hge). unfold Batch.formatTime. rewrite Eh, Em, Es.
      apply parse_hms_fields. exact Hsafe.
  - rewrite Hmin. apply parse_ms_fields. exact Hsafe.
Qed.
End Clocks.

(** ** Paths, extensions and the duration input *)

Section PathsMore.
Local Open Scope string_scope.

Lemma lastIndexOf_noSlash (s : string) :
  noSlash s = true -> StrOps.lastIndexOf "/" s = (-1)%Z.
Proof.
  induction s as [|c s IH]; simpl; [reflexivity|].
  intros H. apply andb_true_iff in H. destruct H as [Hc Hs].
  rewrite (IH Hs). simpl. apply negb_true_iff in Hc. rewrite Hc. reflexivity.
Qed.

Lemma lastIndexOf_dir (dir name : string) :
  noSlash name = true ->
  StrOps.lastIndexOf "/" (dir ++ String "/" name) = Z.of_nat (String.length dir).
Proof.
  intros Hn. induction dir as [|c dir IH].
  - simpl. rewrite (lastIndexOf_noSlash name Hn). reflexivity.
  - cbn [append StrOps.lastIndexOf String.length]. rewrite IH.
    destruct (Z.leb_spec 0 (Z.of_nat (String.length dir))) as [_|H]; lia.
Qed.

Lemma substring_prefix (a b : string) :
  String.substring 0 (String.length a) (a ++ b) = a.
Proof.
  induction a as [|c a IH]; simpl.
  - destruct b; reflexivity.
  - rewrite IH. reflexivity.
Qed.

Lemma split_noSlash (s : string) : noSlash s = true -> Str.split "/" s = [s].
Proof.
  induction s as [|c s IH]; simpl; [reflexivity|].
  intros H. apply andb_true_iff in H. destruct H as [Hc Hs].
  apply negb_true_iff in Hc. rewrite Hc, (IH Hs). reflexivity.
Qed.

Lemma split_dir (dir name : string) (d : string) :
  exists p ps,
    Str.split "/" (dir ++ String "/" name) = p :: ps /\ ps <> [] /\
    List.last ps d = List.last (Str.split "/" name) d.
Proof.
  induction dir as [|c dir IH].
  - exists EmptyString, (Str.split "/" name). simpl.
    split; [reflexivity|]. split; [apply split_nonempty | reflexivity].
  - destruct IH as (p & ps & E & Hne & Hl).
    cbn [append Str.split]. rewrite E.
    destruct (Ascii.eqb c "/").
    + exists EmptyString, (p :: ps). split; [reflexivity|].
      split; [discriminate|].
      destruct ps as [|x ps]; [exfalso; apply Hne; reflexivity|]. exact Hl.
    + exists (String c p), ps. auto.
Qed.

Lemma lastPart_dir (dir name : string) :
  noSlash name = true -> StrOps.lastPart "/" (dir ++ String "/" name) = name.
Proof.
  intros Hn. unfold StrOps.lastPart.
  destruct (split_dir dir name EmptyString) as (p & ps & E & Hne & Hl).
  rewrite E. destruct ps as [|x ps]; [exfalso; apply Hne; reflexivity|].
  change (List.last (p :: x :: ps) EmptyString) with (List.last (x :: ps) EmptyString).
  rewrite Hl, (split_noSlash name Hn). reflexivity.
Qed.

(** X25. Directory and file name of a path.  For a path dir/name whose
    name holds no slash and is not empty, the default output directory the
    page derives is dir and the name the result list shows is name, so the
    two put together with a slash give the path back.  A path without any
    slash has the empty default directory, which leaves the output
    directory unset, and is shown whole. *)
Theorem path_dir_and_name (dir name : string) :
  noSlash name = true -> name <> EmptyString ->
  Paths.defaultOutputDir (dir ++ "/" ++ name) = dir /\
  Paths.getFileName (dir ++ "/" ++ name) = name /\
  Paths.defaultOutputDir (dir ++ "/" ++ name) ++ "/"
    ++ Paths.getFileName (dir ++ "/" ++ name) = dir ++ "/" ++ name /\
  Paths.defaultOutputDir name = EmptyString /\
  Paths.getFileName name = name.
Proof.
  intros Hn Hne. change (dir ++ "/" ++ name) with (dir ++ String "/" name).
  assert (Hd : Paths.defaultOutputDir (dir ++ String "/" name) = dir).
  { unfold Paths.defaultOutputDir, StrOps.substringTo.
    rewrite (lastIndexOf_dir dir name Hn), Nat2Z.id. apply substring_prefix. }
  assert (Hf : Paths.getFileName (dir ++ String "/" name) = name).
  { unfold Paths.getFileName. rewrite (lastPart_dir dir name Hn).
    unfold App.truthy. destruct (String.eqb_spec name EmptyString); [contradiction|].
    reflexivity. }
  split; [exact Hd|]. split; [exact Hf|]. split; [rewrite Hd, Hf; reflexivity|].
  split.
  - unfold Paths.defaultOutputDir, StrOps.substringTo.
    rewrite (lastIndexOf_noSlash name Hn). simpl. destruct name; reflexivity.
  - unfold Paths.getFileName, StrOps.lastPart. rewrite (split_noSlash name Hn).
    simpl. destruct (App.truthy name); reflexivity.
Qed.

Lemma includes_In (l : list string) (s : string) :
  StrOps.includes l s = true <-> In s l.
Proof.
  unfold StrOps.includes. rewrite existsb_exists. split.
  - intros (x & Hx & E). apply String.eqb_eq in E. subst x. exact Hx.
  - intros H. exists s. split; [exact H | apply String.eqb_refl].
Qed.

(** X26. What the drop zone lets through and how it is previewed.  The
    listener hands on nothing when disabled, and otherwise only the first
    dropped path, and only if the text after its last dot, in lower case, is
    one of the eight video extensions.  Of such a file the preview is forced
    to the transcoded playlist (minimum size 0) exactly for mkv, avi, webm,
    flv and wmv; mp4, m4v and mov keep the 200 MB threshold. *)
Theorem dropped_file_preview (disabled : bool) (paths : list string) (p : string) :
  Paths.onDrop disabled paths = Some p ->
  disabled = false /\
  (exists rest, paths = p :: rest) /\
  In (Paths.extension p) Paths.videoExts /\
  (Paths.forceHls p = true <-> In (Paths.extension p) transcodedExts) /\
  (Paths.forceHls p = false <-> In (Paths.extension p) ["mp4"; "m4v"; "mov"]) /\
  Paths.hlsMinSize p
    == (if Paths.forceHls p then 0 else inject_Z (200 * 1024 * 1024)).
Proof.
  unfold Paths.onDrop. destruct disabled; [discriminate|].
  destruct paths as [|f rest]; [discriminate|].
  destruct (App.truthy (Paths.extension f)) eqn:Et; [|discriminate].
  destruct (StrOps.includes Paths.videoExts (Paths.extension f)) eqn:Ei; [|discriminate].
  intros [= <-]. apply includes_In in Ei.
  split; [reflexivity|]. split; [exists rest; reflexivity|]. split; [exact Ei|].
  assert (Hmin : Paths.hlsMinSize f
                 == (if Paths.forceHls f then 0 else inject_Z (200 * 1024 * 1024))).
  { unfold Paths.hlsMinSize. destruct (Paths.forceHls f); reflexivity. }
  split; [|split; [|exact Hmin]]; rewrite <- includes_In;
    unfold Paths.forceHls; rewrite Et;
    unfold Paths.videoExts in Ei; simpl in Ei;
    repeat (destruct Ei as [Ei|Ei];
            [rewrite <- Ei; vm_compute; split; intros H;
             first [reflexivity | discriminate H]|]);
    contradiction.
Qed.

(** X27. The output selector never shows more than 43 characters (UTF-16
    code units, as the code counts them) of a chosen directory: a path of
    at most 40 is shown whole, a longer one as three dots followed by its
    last 40; with no directory chosen it shows the placeholder. *)
Theorem truncatedPath_shape (value : U16.str) :
  (value = [] -> Paths.truncatedPath value = Paths.outputPlaceholder) /\
  (value <> [] ->
   (List.length (Paths.truncatedPath value) <= 43)%nat /\
   ((List.length value <= 40)%nat -> Paths.truncatedPath value = value) /\
   ((40 < List.length value)%nat ->
    exists front back,
      value = (front ++ back)%list /\ List.length back = 40%nat /\
      Paths.truncatedPath value = (U16.ofAscii "..." ++ back)%list)).
Proof.
  split; [intros ->; reflexivity|].
  intros Hne. unfold Paths.truncatedPath.
  destruct value as [|u rest]; [contradiction|]. cbn [U16.truthy].
  set (value := u :: rest) in *.
  destruct (Nat.ltb_spec 40 (List.length value)) as [Hlong|Hshort].
  - assert (L : List.length (U16.sliceLast 40 value) = 40%nat).
    { unfold U16.sliceLast. rewrite length_skipn. lia. }
    split; [|split].
    + rewrite length_app, L. simpl. lia.
    + intros H. lia.
    + intros _. exists (firstn (List.length value - 40) value),
                       (U16.sliceLast 40 value).
      split; [symmetry; apply firstn_skipn|]. split; [exact L | reflexivity].
  - split; [lia|]. split; [reflexivity|]. intros H. lia.
Qed.

Lemma round_not_NaN (q : Q) : Num.round q <> Num.NaN.
Proof.
  unfold Num.round. destruct (Qeq_bool q 0); [discriminate|].
  destruct (Qle_bool (Qpower 2 1024) (Num.roundMagnitude (Qabs q)));
    destruct (Qle_bool 0 q); discriminate.
Qed.

Lemma inputValue_not_NaN (text : string) : DurationInput.inputValue text <> Num.NaN.
Proof.
  unfold DurationInput.inputValue.
  destruct (StrOps.parseInt text) as [| | |q]; simpl; try discriminate.
  destruct (negb (Qeq_bool q 0)); discriminate.
Qed.

Lemma times60_not_NaN (x : Num.number) :
  x <> Num.NaN -> Num.mul x (Num.of_Z 60) <> Num.NaN.
Proof.
  destruct x as [| | |q]; intros H; try contradiction; try discriminate.
  apply round_not_NaN.
Qed.

Lemma max1_at_least (x : Num.number) :
  x <> Num.NaN ->
  Num.max (Num.of_Z 1) x = Num.PInf \/
  exists q, Num.max (Num.of_Z 1) x = Num.Fin q /\ 1 <= q.
Proof.
  destruct x as [| | |q]; intros H; try contradiction.
  - left. reflexivity.
  - right. exists 1. split; [reflexivity | lra].
  - right. eexists. split; [reflexivity|].
    change (inject_Z 1) with 1.
    destruct (Qmax_cases 1 q) as [[? E]|[? E]]; lra.
Qed.

Lemma max1_nonpos (x : Num.number) :
  nonpos_number x -> exists q, Num.max (Num.of_Z 1) x = Num.Fin q /\ q == 1.
Proof.
  intros [->|(q & -> & Hq)].
  - exists 1. split; reflexivity.
  - eexists. split; [reflexivity|]. change (inject_Z 1) with 1.
    destruct (Qmax_cases 1 q) as [[? E]|[? E]]; lra.
Qed.

Lemma times60_nonpos (x : Num.number) :
  nonpos_number x -> nonpos_number (Num.mul x (Num.of_Z 60)).
Proof.
  intros [->|(q & -> & Hq)].
  - left. reflexivity.
  - simpl. apply round_nonpos.
    setoid_replace (q * inject_Z 60) with (- (- q * inject_Z 60)) by ring.
    assert (0 <= - q * inject_Z 60)
      by (apply Qmult_le_0_compat; [lra | unfold Qle; simpl; lia]).
    lra.
Qed.

Lemma inputValue_nonpos (text : string) (k : Z) :
  StrOps.integerPrefix text = Some k -> (k <= 0)%Z ->
  nonpos_number (DurationInput.inputValue text).
Proof.
  intros E Hk. unfold DurationInput.inputValue, StrOps.parseInt. rewrite E.
  assert (Hq : inject_Z k <= 0)
    by (change 0 with (inject_Z 0); rewrite <- Zle_Qle; exact Hk).
  destruct (round_nonpos (inject_Z k) Hq) as [->|(q & -> & Hq')].
  - left. reflexivity.
  - simpl. destruct (negb (Qeq_bool q 0)).
    + right. exists q. split; [reflexivity | exact Hq'].
    + right. eexists. split; [reflexivity|]. unfold Qle; simpl; lia.
Qed.

Lemma inputValue_exact (text : string) (k : Z) :
  StrOps.integerPrefix text = Some k -> (1 <= k < 2 ^ 53)%Z ->
  exists q, DurationInput.inputValue text = Num.Fin q /\ q == inject_Z k.
Proof.
  intros E Hk. unfold DurationInput.inputValue, StrOps.parseInt. rewrite E.
  destruct (round_int (inject_Z k) k (Qeq_refl _)) as (q & -> & Hq);
    [unfold safe_integer; lia|].
  exists q. simpl.
  destruct (Qeq_bool q 0) eqn:E0; [|split; [reflexivity | exact Hq]].
  exfalso. apply Qeq_bool_iff in E0.
  assert (1 <= inject_Z k)
    by (change 1 with (inject_Z 1); rewrite <- Zle_Qle; lia).
  lra.
Qed.

(** X28. The duration input never hands onChange NaN or a number below 1,
    whatever text the box holds: the value is at least 1, or Infinity for
    a text with very many digits.  When the text reads as an integer
    k >= 1 and the seconds stay below 2^53, the value is k seconds, or
    60 k in minutes mode, and the box shows k again; when it reads as
    nothing or as k <= 0 the value is 1, which minutes mode shows as 0. *)
Theorem handleInputChange_value (unit : DurationInput.Unit) (text : string) :
  let v := DurationInput.handleInputChange unit text in
  (v = Num.PInf \/ exists q, v = Num.Fin q /\ 1 <= q) /\
  (forall k : Z,
     StrOps.integerPrefix text = Some k -> (1 <= k)%Z ->
     (match unit with
      | DurationInput.minutes => k * 60
      | DurationInput.seconds => k
      end < 2 ^ 53)%Z ->
     exists q,
       v = Num.Fin q /\
       q == inject_Z (match unit with
                      | DurationInput.minutes => k * 60
                      | DurationInput.seconds => k
                      end) /\
       DurationInput.displayValue unit q == inject_Z k) /\
  ((StrOps.integerPrefix text = None \/
    exists k : Z, StrOps.integerPrefix text = Some k /\ (k <= 0)%Z) ->
   exists q,
     v = Num.Fin q /\ q == 1 /\
     DurationInput.displayValue DurationInput.minutes q == 0).
Proof.
  intros v. subst v. unfold DurationInput.handleInputChange.
  split; [|split].
  - apply max1_at_least. destruct unit.
    + apply inputValue_not_NaN.
    + apply times60_not_NaN. apply inputValue_not_NaN.
  - intros k E Hk Hm.
    destruct (inputValue_exact text k E) as (q1 & Hi & E1); [destruct unit; lia|].
    rewrite Hi.
    assert (Hfin : forall (q2 : Q) (m : Z),
              q2 == inject_Z m -> (1 <= m)%Z ->
              Qmax 1 q2 == inject_Z m).
    { intros q2 m E2 H1.
      assert (1 <= q2) by (rewrite E2; change 1 with (inject_Z 1);
                           rewrite <- Zle_Qle; exact H1).
      destruct (Qmax_cases 1 q2) as [[? E']|[? E']]; rewrite E'; [exact E2|].
      rewrite <- E2. lra. }
    destruct unit.
    + exists (Qmax 1 q1). split; [reflexivity|].
      split; apply Hfin; assumption.
    + destruct (mul_int q1 (inject_Z 60) k 60 E1 (Qeq_refl _)) as (q2 & M & E2);
        [unfold safe_integer; lia|].
      unfold Num.of_Z. rewrite M. exists (Qmax 1 q2). split; [reflexivity|].
      assert (Ev : Qmax 1 q2 == inject_Z (k * 60)) by (apply Hfin; [exact E2 | lia]).
      split; [exact Ev|].
      unfold DurationInput.displayValue, JS.Math_floor.
      rewrite (Qfloor_comp _ _ (Qdiv_comp _ _ Ev 60 60 (Qeq_refl 60))).
      pose proof (floor_div_Z (k * 60) 60) as F. unfold inject_Z at 2 in F.
      rewrite F, Z.div_mul by lia. reflexivity.
  - intros Hcase.
    assert (Hnp : nonpos_number (DurationInput.inputValue text)).
    { destruct Hcase as [E|(k & E & Hk)].
      - unfold DurationInput.inputValue, StrOps.parseInt. rewrite E. simpl.
        right. eexists. split; [reflexivity|]. unfold Qle; simpl; lia.
      - exact (inputValue_nonpos text k E Hk). }
    assert (Hsecs : nonpos_number
              match unit with
              | DurationInput.minutes =>
                  Num.mul (DurationInput.inputValue text) (Num.of_Z 60)
              | DurationInput.seconds => DurationInput.inputValue text
              end).
    { destruct unit; [exact Hnp | apply times60_nonpos; exact Hnp]. }
    destruct (max1_nonpos _ Hsecs) as (q & Hq & Eq).
    exists q. split; [exact Hq|]. split; [exact Eq|].
    unfold DurationInput.displayValue, JS.Math_floor.
    rewrite (Qfloor_comp _ _ (Qdiv_comp _ _ Eq 60 60 (Qeq_refl 60))).
    reflexivity.
Qed.
End PathsMore.

(** ** Instances: the theorems with preconditions at concrete inputs *)

Section Instances.
Local Open Scope string_scope.

Lemma seek_without_playlist_witness :
  let r := Editor.seekToAbsolute 600 (Some file_source) 30 mounted_editor in
  snd r = false /\ Editor.currentTime (fst r) = Window.clampTime 600 30.
Proof.
  pose proof (seek_without_playlist 600 30 mounted_editor file_source "/v/a.mp4"
                eq_refl) as H.
  cbv zeta in H. destruct H as [_ (H1 & H2 & _)]. split; assumption.
Defined.

Lemma deferred_seek_sends_window_call_witness :
  exists args,
    snd (Preview.afterRender (Editor.previewDeps "/v/a.mp4" mounted_editor)
           (Editor.previewDeps "/v/a.mp4"
              (fst (Editor.seekToAbsolute 3600 (Some playlist_source) 1000
                      mounted_editor)))
           Preview.initial) = Some args /\
    Preview.a_startSeconds args
      = Window.computeWindowStart 3600 (Window.clampTime 3600 1000).
Proof.
  assert (Hout : ~ (Editor.windowStart mounted_editor <= Window.clampTime 3600 1000 /\
                    Window.clampTime 3600 1000
                    <= Editor.windowStart mounted_editor + Window.HLS_WINDOW_SECONDS)).
  { intros [_ H]. vm_compute in H. apply H. reflexivity. }
  assert (Hpath : "/v/a.mp4" <> EmptyString) by discriminate.
  assert (Hnew : ~ Editor.windowStart mounted_editor
                   == Window.computeWindowStart 3600 (Window.clampTime 3600 1000)).
  { intros H. vm_compute in H. discriminate H. }
  destruct (deferred_seek_sends_window_call 3600 1000 mounted_editor playlist_source
              "/v/a.mp4" Preview.initial eq_refl Hout Hpath Hnew)
    as (args & H1 & _ & H2 & _).
  exists args. split; assumption.
Defined.

Lemma canplay_completes_deferred_seek_witness :
  let s1 := Editor.deferSeek 3600 (Window.clampTime 3600 1000) mounted_editor in
  let r := Playback.handleCanPlay 3600 (Some playlist_source) 5 false s1 in
  Editor.isLoading (fst (fst r)) = false /\ Editor.pendingSeek (fst (fst r)) = None.
Proof.
  assert (Hoff : 0 <= 5) by (unfold Qle; simpl; lia).
  pose proof (canplay_completes_deferred_seek 3600 1000 5 mounted_editor playlist_source
                {| Editor.v_currentTime := 0; Editor.v_error := None |} false
                eq_refl eq_refl Hoff) as H.
  cbv zeta in H. destruct H as (H1 & H2 & _). split; assumption.
Defined.


Lemma retry_sends_call_again_witness :
  exists args,
    snd (Preview.afterRender (Editor.previewDeps "/v/a.mp4" mounted_editor)
           (Editor.previewDeps "/v/a.mp4" (Playback.handleRetry mounted_editor))
           Preview.initial) = Some args /\
    Preview.a_inputPath args = "/v/a.mp4".
Proof.
  assert (Hpath : "/v/a.mp4" <> EmptyString) by discriminate.
  pose proof (retry_sends_call_again mounted_editor "/v/a.mp4" Preview.initial Hpath)
    as H.
  cbv zeta in H. destruct H as (_ & _ & _ & _ & args & H1 & H2 & _).
  exists args. split; assumption.
Defined.


Lemma handleSplit_sends_one_call_witness :
  App.canSplit page_ready_to_split = true /\
  Hook.isProcessing (App.hook (App.handleSplit page_ready_to_split)) = true.
Proof.
  assert (Hc : App.canSplit page_ready_to_split = true) by reflexivity.
  split; [exact Hc|].
  destruct (handleSplit_sends_one_call page_ready_to_split Hc)
    as (file & _ & _ & _ & H & _).
  exact H.
Defined.

Lemma unsuccessful_result_is_silent_witness :
  App.resultList
    (Hook.split_settle
       (Hook.Resolved {| Hook.success := false; Hook.output_files := [];
                         Hook.result_error := Some "ffmpeg failed" |})
       (fst (Hook.splitVideo_begin "/v/a.mp4" "/v" 300 Hook.initial))) = None.
Proof.
  pose proof (unsuccessful_result_is_silent "/v/a.mp4" "/v" 300 Hook.initial
                {| Hook.success := false; Hook.output_files := [];
                   Hook.result_error := Some "ffmpeg failed" |} eq_refl) as H.
  cbv zeta in H. destruct H as (_ & _ & H & _). exact H.
Defined.

Lemma handleUpdateRange_touches_one_id_witness :
  map Hook.id
    (App.timeRanges
       (App.handleUpdateRange "a"
          {| App.p_id := None; App.p_startTime := Some 30; App.p_endTime := None |}
          page_with_one_range))
  = map Hook.id (App.timeRanges page_with_one_range).
Proof.
  exact (proj1 (handleUpdateRange_touches_one_id "a"
                  {| App.p_id := None; App.p_startTime := Some 30;
                     App.p_endTime := None |}
                  page_with_one_range eq_refl)).
Defined.

Lemma handleSetEnd_orders_marks_witness :
  Editor.pendingStart
    (fst (Editor.handleSetEnd "u1" editor_with_start_mark App.initial)) = None.
Proof.
  pose proof (handleSetEnd_orders_marks "u1" editor_with_start_mark App.initial 50
                eq_refl eq_refl) as H.
  cbv zeta in H. exact (proj1 H).
Defined.

Lemma formatTime_whole_seconds_witness :
  Batch.formatTime (907 # 10) = Batch.formatTime (inject_Z (Qfloor (907 # 10))).
Proof.
  assert (H : 0 <= 907 # 10) by (unfold Qle; simpl; lia).
  assert (Hb : 907 # 10 < inject_Z (2 ^ 53)) by reflexivity.
  exact (proj1 (formatTime_whole_seconds (907 # 10) H Hb)).
Defined.

Lemma clocks_parse_back_witness :
  exists q,
    Batch.parseTimeToSeconds (VideoPlayer.formatTime (7451 # 2)) = Some (Num.Fin q) /\
    q == inject_Z (Qfloor (7451 # 2)).
Proof.
  assert (H : 0 <= 7451 # 2) by (unfold Qle; simpl; lia).
  assert (Hb : 7451 # 2 < inject_Z (2 ^ 53)) by reflexivity.
  destruct (clocks_parse_back (7451 # 2) H Hb) as (_ & _ & _ & Hp & _).
  exact Hp.
Defined.

Lemma path_dir_and_name_witness :
  Paths.defaultOutputDir "/home/me/videos/a.mp4" = "/home/me/videos" /\
  Paths.getFileName "/home/me/videos/a.mp4" = "a.mp4".
Proof.
  assert (Hne : "a.mp4" <> EmptyString) by discriminate.
  destruct (path_dir_and_name "/home/me/videos" "a.mp4" eq_refl Hne)
    as (H1 & H2 & _).
  split; assumption.
Defined.

Lemma dropped_file_preview_witness :
  Paths.onDrop false ["/v/CLIP.MKV"; "/v/b.mp4"] = Some "/v/CLIP.MKV" /\
  In (Paths.extension "/v/CLIP.MKV") Paths.videoExts.
Proof.
  assert (H : Paths.onDrop false ["/v/CLIP.MKV"; "/v/b.mp4"] = Some "/v/CLIP.MKV")
    by reflexivity.
  split; [exact H|].
  destruct (dropped_file_preview false ["/v/CLIP.MKV"; "/v/b.mp4"] "/v/CLIP.MKV" H)
    as (_ & _ & Hin & _).
  exact Hin.
Defined.
End Instances.

